(** * Decode-step device kernels of [src/models/kernels.cu]

    A shallow embedding of the CUDA kernels and of their host-side launchers,
    and the properties of the position, mask, cache-layout, beam-indirection,
    end-of-sequence and conversion kernels.

    - [int] is a 32-bit two's complement integer and the built-in index
      variables are 32-bit unsigned; both are carried by [Z], with the
      wrap-around written at every operation.
    - A device buffer is a [list]. An access outside of it, a division by
      zero and a read of shared memory that was never written are undefined
      behaviour: they make the computation fail ([None]).
    - A kernel is the function run by one thread. [launch] runs it for every
      thread of the grid, in the order chosen by the stream, which may be any
      permutation of the threads. The limits a device puts on the size of a
      grid or of a block are not part of the model. *)

From Stdlib Require Import ZArith Lia.
From Stdlib Require Import Floats.SpecFloat.
From stdpp Require Import base tactics option list.

Local Open Scope Z_scope.

(** ** Machine integers *)

Module Int.
Definition unsigned (w n : Z) : Z := n mod 2 ^ w.
Definition signed (w n : Z) : Z := (n + 2 ^ (w - 1)) mod 2 ^ w - 2 ^ (w - 1).
Definition min_signed (w : Z) : Z := - 2 ^ (w - 1).
Definition max_signed (w : Z) : Z := 2 ^ (w - 1) - 1.
Definition max_unsigned (w : Z) : Z := 2 ^ w - 1.
End Int.
Arguments Int.signed _ _ : simpl never.
Arguments Int.unsigned _ _ : simpl never.

Abbreviation i32 := (Int.signed 32).
Abbreviation u32 := (Int.unsigned 32).
Definition INT_MAX : Z := Int.max_signed 32.
Definition INT_MIN : Z := Int.min_signed 32.

(** [int] arithmetic *)
Definition add32 (a b : Z) : Z := i32 (a + b).
Definition sub32 (a b : Z) : Z := i32 (a - b).
Definition mul32 (a b : Z) : Z := i32 (a * b).

(** [a / b] and [a % b] on [int] truncate towards zero; a zero divisor and
    [INT_MIN / -1] are undefined *)
Definition div32 (a b : Z) : option Z :=
  if decide (b = 0 ∨ (a = INT_MIN ∧ b = -1)) then None else Some (Z.quot a b).
Definition rem32 (a b : Z) : option Z :=
  if decide (b = 0 ∨ (a = INT_MIN ∧ b = -1)) then None else Some (Z.rem a b).

(** [unsigned int] arithmetic *)
Definition addu (a b : Z) : Z := u32 (a + b).
Definition subu (a b : Z) : Z := u32 (a - b).
Definition mulu (a b : Z) : Z := u32 (a * b).

(** [(e)%int] and [(e)%uint] read [+], [-] and [*] as the operations of the
    type, also below the top of [e] *)
Declare Scope int_scope.
Delimit Scope int_scope with int.
Declare Scope uint_scope.
Delimit Scope uint_scope with uint.
Arguments add32 (a b)%_int_scope.
Arguments sub32 (a b)%_int_scope.
Arguments mul32 (a b)%_int_scope.
Arguments addu (a b)%_uint_scope.
Arguments subu (a b)%_uint_scope.
Arguments mulu (a b)%_uint_scope.
Infix "+" := add32 : int_scope.
Infix "-" := sub32 : int_scope.
Infix "*" := mul32 : int_scope.
Infix "+" := addu : uint_scope.
Infix "-" := subu : uint_scope.
Infix "*" := mulu : uint_scope.

(** the element types the templates are instantiated at *)
Inductive elem_type := int32_t | int64_t.

Definition bits (T : elem_type) : Z :=
  match T with int32_t => 32 | int64_t => 64 end.

Definition representable (T : elem_type) (v : Z) : Prop :=
  Int.min_signed (bits T) ≤ v ≤ Int.max_signed (bits T).

(** ** Device buffers *)

Definition load {A} (buf : list A) (i : Z) : option A :=
  if decide (0 ≤ i) then buf !! Z.to_nat i else None.

Definition store {A} (buf : list A) (i : Z) (v : A) : option (list A) :=
  if decide (0 ≤ i < Z.of_nat (length buf))
  then Some (<[Z.to_nat i := v]> buf) else None.

(** ** Grids, blocks and streams *)

Record dim3 := Dim3 { x : Z; y : Z; z : Z }.

(** the constructors [dim3(a)], [dim3(a, b)] and [dim3(a, b, c)]: the
    components are [unsigned int] and default to 1 *)
Definition dim3_1 (a : Z) : dim3 := Dim3 (u32 a) 1 1.
Definition dim3_2 (a b : Z) : dim3 := Dim3 (u32 a) (u32 b) 1.
Definition dim3_3 (a b c : Z) : dim3 := Dim3 (u32 a) (u32 b) (u32 c).

(** the built-in variables a thread sees *)
Record builtins := Builtins {
  gridDim : dim3;
  blockDim : dim3;
  blockIdx : dim3;
  threadIdx : dim3
}.

(** every index below the extent [d] *)
Definition dim3_range (d : dim3) : list dim3 :=
  k ← seqZ 0 d.(z); j ← seqZ 0 d.(y); i ← seqZ 0 d.(x); [Dim3 i j k].

Definition block_threads (grid block b : dim3) : list builtins :=
  Builtins grid block b <$> dim3_range block.

Definition threads (grid block : dim3) : list builtins :=
  b ← dim3_range grid; block_threads grid block b.

(** A stream executes the work it is given in an order of its own choice.
    The first argument of [order] tells the phases of one launch apart. *)
Record cudaStream_t := Stream {
  order : nat → ∀ A : Type, list A → list A;
  order_perm : ∀ p A (l : list A), order p A l ≡ₚ l
}.

Definition in_order : cudaStream_t :=
  {| order := λ _ _ l, l; order_perm := λ _ _ l, reflexivity l |}.

Definition reversed : cudaStream_t :=
  {| order := λ _ _ l, reverse l;
     order_perm := λ _ _ l, reverse_Permutation l |}.

(** the steps of [ts] run one after the other, a failing step fails the run *)
Fixpoint run {T S} (body : T → S → option S) (ts : list T) (s : S) : option S :=
  match ts with
  | [] => Some s
  | t :: ts => s' ← body t s; run body ts s'
  end.

(** [kernel<<<grid, block, 0, stream>>>(...)] *)
Definition launch {S} (stream : cudaStream_t) (grid block : dim3)
    (kernel : builtins → S → option S) (s : S) : option S :=
  run kernel (order stream 0%nat _ (threads grid block)) s.

(** A kernel with one [__syncthreads()]: what a thread does before the
    barrier, on the shared memory of its block, and what it does after it. *)
Record phased (Sh S : Type) := Phased {
  before_sync : Sh → option Sh;
  after_sync : Sh → S → option S
}.
Arguments Phased {Sh S} _ _.
Arguments before_sync {Sh S} _ _.
Arguments after_sync {Sh S} _ _ _.

(** what one block does: all its threads reach the barrier before any of
    them leaves it *)
Definition run_block {Sh S} (stream : cudaStream_t) (grid block : dim3)
    (shared : Sh) (kernel : builtins → phased Sh S) (b : dim3) (s : S)
    : option S :=
  sh ← run (λ t, before_sync (kernel t))
           (order stream 1%nat _ (block_threads grid block b)) shared;
  run (λ t, after_sync (kernel t) sh)
      (order stream 2%nat _ (block_threads grid block b)) s.

(** every block starts from its own shared memory [shared] *)
Definition launch_sync {Sh S} (stream : cudaStream_t) (grid block : dim3)
    (shared : Sh) (kernel : builtins → phased Sh S) (s : S) : option S :=
  run (run_block stream grid block shared kernel)
      (order stream 0%nat _ (dim3_range grid)) s.

(** ** Position ids *)

Definition UpdatePositionIds (T : elem_type) (cu : builtins)
    (positions : list Z) (batch_beam_size : Z) : option (list Z) :=
  let i := i32 (cu.(blockIdx).(x) * cu.(blockDim).(x) + cu.(threadIdx).(x))%uint in
  if decide (i < batch_beam_size) then
    p ← load positions i;
    store positions i (Int.signed (bits T) (p + 1))
  else Some positions.

Definition Launch_UpdatePositionIds (T : elem_type) (positions : list Z)
    (batch_beam_size : Z) (stream : cudaStream_t) : option (list Z) :=
  launch stream (dim3_1 (Z.quot (batch_beam_size + 255)%int 256)) (dim3_1 256)
         (λ cu positions, UpdatePositionIds T cu positions batch_beam_size)
         positions.

(** the decoding loop calls the launcher once per generated token *)
Fixpoint advance (T : elem_type) (k : nat) (positions : list Z)
    (batch_beam_size : Z) (stream : cudaStream_t) : option (list Z) :=
  match k with
  | O => Some positions
  | S k =>
      positions' ← Launch_UpdatePositionIds T positions batch_beam_size stream;
      advance T k positions' batch_beam_size stream
  end.

(** ** Attention mask *)

(** the mask kernels store the constant 1 and copy elements: they do the
    same at both element types *)
Definition CopyAndUpdateAttentionMask (cu : builtins)
    (mask_data old_mask_data : list Z)
    (batch_beam_size current_length max_length : Z) : option (list Z) :=
  let global_index :=
    i32 (cu.(blockIdx).(x) * cu.(blockDim).(x) + cu.(threadIdx).(x))%uint in
  i ← div32 global_index current_length;
  j ← rem32 global_index current_length;
  if decide (i < batch_beam_size) then
    if decide (j < (current_length - 1)%int) then
      v ← load old_mask_data (i * (current_length - 1) + j)%int;
      store mask_data (i * max_length + j)%int v
    else
      store mask_data (i * max_length + j)%int 1
  else Some mask_data.

Definition UpdateAttentionMask (cu : builtins) (mask_data : list Z)
    (batch_beam_size current_length max_length : Z) : option (list Z) :=
  let i := i32 cu.(blockIdx).(x) in
  if decide (i < batch_beam_size) then
    store mask_data (i * max_length + current_length)%int 1
  else Some mask_data.

Definition Launch_UpdateAttentionMask (mask_data old_mask_data : list Z)
    (batch_beam_size current_length max_length : Z) (update_only : bool)
    (stream : cudaStream_t) : option (list Z) :=
  if update_only then
    launch stream (dim3_1 batch_beam_size) (dim3_1 1)
           (λ cu mask_data,
              UpdateAttentionMask cu mask_data batch_beam_size current_length
                                  max_length)
           mask_data
  else
    launch stream
           (dim3_1 (Z.quot (batch_beam_size * max_length + 255)%int 256))
           (dim3_1 256)
           (λ cu mask_data,
              CopyAndUpdateAttentionMask cu mask_data old_mask_data
                                         batch_beam_size current_length
                                         max_length)
           mask_data.

(** ** Past-state cache *)

Definition kTileSize : Z := 32.
Definition kSeqTileSize : Z := 16.

(** sixteen bytes, as four 32-bit lanes: one chunk of 4 [float] or of 8
    [half] values *)
Record float4 := Float4 { lane_x : Z; lane_y : Z; lane_z : Z; lane_w : Z }.

(** [__shared__ float4 tile[kSeqTileSize][kTileSize + 1]], row after row; a
    cell holds [None] until it is written *)
Abbreviation tile_t := (list (option float4)).

Definition tile_uninit : tile_t :=
  replicate (Z.to_nat (kSeqTileSize * (kTileSize + 1))) None.

Definition tile_load (tile : tile_t) (r c : Z) : option float4 :=
  if decide (0 ≤ r < kSeqTileSize ∧ 0 ≤ c < kTileSize + 1)
  then mjoin (load tile (r * (kTileSize + 1) + c)) else None.

Definition tile_store (tile : tile_t) (r c : Z) (v : float4) : option tile_t :=
  if decide (0 ≤ r < kSeqTileSize ∧ 0 ≤ c < kTileSize + 1)
  then store tile (r * (kTileSize + 1) + c) (Some v) else None.

Definition ReorderPastStatesKernel (cu : builtins) (in_buffer : list float4)
    (batch_size num_heads max_length chunked_head_size : Z)
    : phased tile_t (list float4) :=
  let b := i32 cu.(blockIdx).(z) in
  let n := i32 cu.(blockIdx).(y) in
  let s_base := i32 (cu.(blockIdx).(x) * kSeqTileSize)%uint in
  let s := i32 (u32 s_base + cu.(threadIdx).(y))%uint in
  let base_offset := ((b * num_heads + n) * max_length * chunked_head_size)%int in
  Phased
    (λ tile,
       if decide (s < max_length) then
         let in_offset :=
           i32 (u32 (base_offset + s * chunked_head_size)%int
                + cu.(threadIdx).(x))%uint in
         v ← load in_buffer in_offset;
         tile_store tile cu.(threadIdx).(y) cu.(threadIdx).(x) v
       else Some tile)
    (λ tile out_buffer,
       let tidx :=
         i32 (cu.(threadIdx).(x)
              + cu.(threadIdx).(y) * u32 chunked_head_size)%uint in
       let tidx_x := i32 (u32 tidx `mod` kSeqTileSize) in
       let tidx_y := i32 (u32 tidx `div` kSeqTileSize) in
       let s2 := (s_base + tidx_x)%int in
       if decide (s2 < max_length) then
         let out_offset := (base_offset + tidx_y * max_length + s2)%int in
         v ← tile_load tile tidx_x tidx_y;
         store out_buffer out_offset v
       else Some out_buffer).

Definition ReorderPastStatesKernelLauncher (out_buffer in_buffer : list float4)
    (batch_size num_heads max_length head_size chunk_size : Z)
    (stream : cudaStream_t) : option (list float4) :=
  chunked_head_size ← div32 head_size chunk_size;
  let block := dim3_2 chunked_head_size kSeqTileSize in
  let grid :=
    dim3_3 ((u32 max_length + kSeqTileSize - 1)%uint `div` kSeqTileSize)
           num_heads batch_size in
  if decide (chunk_size = 4 ∨ chunk_size = 8) then
    launch_sync stream grid block tile_uninit
                (λ cu, ReorderPastStatesKernel cu in_buffer batch_size
                                               num_heads max_length
                                               chunked_head_size)
                out_buffer
  else Some out_buffer.

(** the two layouts of the cache, in [float4] chunks *)
Definition offset_write (N Lmax H2 b n t c : Z) : Z :=
  ((b * N + n) * Lmax + t) * H2 + c.
Definition offset_read (N Lmax H2 b n c t : Z) : Z :=
  ((b * N + n) * H2 + c) * Lmax + t.

(** The inverse transform of the round trip, from [B,N,H2,Lmax,chunk] back
    to [B,N,Lmax,H2,chunk]. The source has no kernel for it: it is the plain
    swap of the two axes. *)
Definition inverse_axis_swap (B N Lmax H2 : Z) (buf : list float4)
    : option (list float4) :=
  mapM (λ k, let c := k `mod` H2 in
             let t := (k `div` H2) `mod` Lmax in
             let bn := (k `div` H2) `div` Lmax in
             load buf ((bn * H2 + c) * Lmax + t))
       (seqZ 0 (B * N * Lmax * H2)).

(** ** End-of-sequence tokens *)

(** [float] is IEEE 754 binary32 *)
Definition float : Type := spec_float.

(** [std::numeric_limits<float>::lowest()], the most negative finite value
    [-(2^24 - 1) * 2^104] *)
Definition float_lowest : float := S754_finite true (2 ^ 24 - 1) 104.
Definition float_neg_infinity : float := S754_infinity true.

(** [std::max(a, b)] is [(a < b) ? b : a] *)
Definition float_max (a b : float) : float := if SFltb a b then b else a.

Definition HandleEOSArray (cu : builtins) (batch_logits : list float)
    (batch_beam_size vocab_size : Z) (eos_token_ids : list Z)
    (eos_token_ids_count : Z) : option (list float) :=
  let index :=
    i32 (cu.(blockIdx).(x) * cu.(blockDim).(x) + cu.(threadIdx).(x))%uint in
  if decide (index >= batch_beam_size) then Some batch_logits else
  (* [logits] points into [batch_logits] *)
  let logits := (index * vocab_size)%int in
  '(max, batch_logits) ←
    run (λ i '(max, batch_logits),
           e ← load eos_token_ids i;
           v ← load batch_logits (logits + e);
           batch_logits ← store batch_logits (logits + e) float_lowest;
           Some (float_max max v, batch_logits))
        (seqZ 0 eos_token_ids_count) (float_lowest, batch_logits);
  e0 ← load eos_token_ids 0;
  store batch_logits (logits + e0) max.

Definition LaunchHandleEOSArray (batch_logits : list float)
    (batch_beam_size vocab_size : Z) (eos_token_ids : list Z)
    (eos_token_ids_count : Z) (stream : cudaStream_t) : option (list float) :=
  launch stream (dim3_1 (Z.quot (batch_beam_size + 255)%int 256)) (dim3_1 256)
         (λ cu batch_logits,
            HandleEOSArray cu batch_logits batch_beam_size vocab_size
                           eos_token_ids eos_token_ids_count)
         batch_logits.

(** ** Conversions *)

(** [__half2float] and [__float2half] are intrinsics of the device, not code
    of this file: the two kernels are read for any type [half] and any
    conversions. The host holds the halves as [uint16_t]; the launchers cast
    the pointers, which does not change the values. *)
Definition ConvertFp16ToFp32 {half : Type} (__half2float : half → float)
    (cu : builtins) (src : list half) (dst : list float) (count : Z)
    : option (list float) :=
  let idx := i32 (cu.(threadIdx).(x) + cu.(blockIdx).(x) * cu.(blockDim).(x))%uint in
  if decide (idx < count) then
    v ← load src idx;
    store dst idx (__half2float v)
  else Some dst.

Definition LaunchFp16ToFp32 {half : Type} (__half2float : half → float)
    (fp16 : list half) (fp32 : list float) (count : Z) (stream : cudaStream_t)
    : option (list float) :=
  let block_size := 256 in
  let num_blocks := Z.quot (count + block_size - 1)%int block_size in
  launch stream (dim3_1 num_blocks) (dim3_1 block_size)
         (λ cu dst, ConvertFp16ToFp32 __half2float cu fp16 dst count)
         fp32.

Definition ConvertFp32ToFp16 {half : Type} (__float2half : float → half)
    (cu : builtins) (src : list float) (dst : list half) (count : Z)
    : option (list half) :=
  let idx := i32 (cu.(threadIdx).(x) + cu.(blockIdx).(x) * cu.(blockDim).(x))%uint in
  if decide (idx < count) then
    v ← load src idx;
    store dst idx (__float2half v)
  else Some dst.

Definition LaunchFp32ToFp16 {half : Type} (__float2half : float → half)
    (fp32 : list float) (fp16 : list half) (count : Z) (stream : cudaStream_t)
    : option (list half) :=
  let block_size := 256 in
  let num_blocks := Z.quot (count + block_size - 1)%int block_size in
  launch stream (dim3_1 num_blocks) (dim3_1 block_size)
         (λ cu dst, ConvertFp32ToFp16 __float2half cu fp32 dst count)
         fp16.

(** [dst[idx] = src[idx]] converts the [int32_t] to [int64_t] *)
Definition ConvertInt32ToInt64 (cu : builtins) (src dst : list Z) (count : Z)
    : option (list Z) :=
  let idx := i32 (cu.(threadIdx).(x) + cu.(blockIdx).(x) * cu.(blockDim).(x))%uint in
  if decide (idx < count) then
    v ← load src idx;
    store dst idx (Int.signed 64 v)
  else Some dst.

Definition LaunchInt32ToInt64 (src dst : list Z) (count : Z)
    (stream : cudaStream_t) : option (list Z) :=
  let block_size := 256 in
  let num_blocks := Z.quot (count + block_size - 1)%int block_size in
  launch stream (dim3_1 num_blocks) (dim3_1 block_size)
         (λ cu dst, ConvertInt32ToInt64 cu src dst count)
         dst.

(** ** Beam cache indirection *)

(** the three device buffers of the kernel; only the first is not [const] *)
Record indirection := Indirection {
  tgt_indir_cache : list Z;
  src_indir_cache : list Z;
  beam_ids : list Z
}.

Definition set_tgt (mem : indirection) (tgt : list Z) : indirection :=
  {| tgt_indir_cache := tgt;
     src_indir_cache := mem.(src_indir_cache);
     beam_ids := mem.(beam_ids) |}.

Definition UpdateDecoderMaskedMultiHeadAttentionCacheIndirectionKernel
    (cu : builtins) (mem : indirection)
    (batch_size beam_width input_seq_length max_seq_length current_length : Z)
    : option indirection :=
  let time_step :=
    i32 (cu.(threadIdx).(x) + cu.(blockIdx).(x) * cu.(blockDim).(x))%uint in
  let bb_id :=
    i32 (cu.(threadIdx).(y) + cu.(blockIdx).(y) * cu.(blockDim).(y))%uint in
  batch_id ← div32 bb_id beam_width;
  beam_id ← rem32 bb_id beam_width;
  if decide (bb_id >= (beam_width * batch_size)%int ∨ time_step >= current_length)
  then Some mem else
  beam ← load mem.(beam_ids) (batch_id * beam_width + beam_id)%int;
  src_beam ← rem32 beam beam_width;
  let tgt_offset :=
    (batch_id * beam_width * max_seq_length + beam_id * max_seq_length
     + time_step)%int in
  if decide (time_step < input_seq_length) then
    set_tgt mem <$> store mem.(tgt_indir_cache) tgt_offset 0
  else if decide (time_step = (current_length - 1)%int) then
    set_tgt mem <$> store mem.(tgt_indir_cache) tgt_offset beam_id
  else
    let src_offset :=
      (batch_id * beam_width * max_seq_length + src_beam * max_seq_length
       + time_step)%int in
    v ← load mem.(src_indir_cache) src_offset;
    set_tgt mem <$> store mem.(tgt_indir_cache) tgt_offset v.

Definition UpdateDecoderMaskedMultiHeadAttentionCacheIndirection
    (mem : indirection)
    (batch_size beam_width input_seq_length max_seq_length current_length : Z)
    (stream : cudaStream_t) : option indirection :=
  let block := dim3_1 32 in
  let grid :=
    dim3_2 ((u32 current_length + block.(x) - 1)%uint `div` block.(x))
           (batch_size * beam_width)%int in
  launch stream grid block
         (λ cu mem,
            UpdateDecoderMaskedMultiHeadAttentionCacheIndirectionKernel
              cu mem batch_size beam_width input_seq_length max_seq_length
              current_length)
         mem.

(** ** Specifications of threads *)

(** Threads that work on disjoint cells of a buffer may run in any order:
    each of them leaves in its cells what it would have left had it run
    alone. [cells t k] says that thread [t] may write cell [k]. *)

(** [t] runs on every buffer of length [n], keeps the length and writes in
    its cells only *)
Definition thread_frame {T A} (body : T → list A → option (list A))
    (cells : T → nat → Prop) (n : nat) (t : T) : Prop :=
  ∀ buf, length buf = n →
    ∃ buf', body t buf = Some buf' ∧ length buf' = n ∧
            ∀ k, ¬ cells t k → buf' !! k = buf !! k.

(** what [t] writes depends on the contents of its cells only *)
Definition thread_local {T A} (body : T → list A → option (list A))
    (cells : T → nat → Prop) (n : nat) (t : T) : Prop :=
  ∀ b1 b2 b1' b2', length b1 = n → length b2 = n →
    (∀ k, cells t k → b1 !! k = b2 !! k) →
    body t b1 = Some b1' → body t b2 = Some b2' →
    ∀ k, cells t k → b1' !! k = b2' !! k.

Definition cells_disjoint {T} (cells : T → nat → Prop) (ts : list T) : Prop :=
  ∀ t1 t2 k, t1 ∈ ts → t2 ∈ ts → cells t1 k → cells t2 k → t1 = t2.

(** The usual shape of a kernel: a thread that passes the guard of the
    kernel ([active]) updates the cell at its offset [off], others do
    nothing. *)
Definition updates_cell {T A} (body : T → list A → option (list A))
    (active : T → bool) (off : T → Z) (upd : T → A → A) (n : nat) (t : T)
    : Prop :=
  if active t
  then 0 ≤ off t < Z.of_nat n ∧
       ∀ buf v, length buf = n → buf !! Z.to_nat (off t) = Some v →
                body t buf = Some (<[Z.to_nat (off t) := upd t v]> buf)
  else ∀ buf, length buf = n → body t buf = Some buf.

Definition off_inj {T} (active : T → bool) (off : T → Z) (ts : list T) : Prop :=
  ∀ t1 t2, t1 ∈ ts → t2 ∈ ts → active t1 = true → active t2 = true →
           off t1 = off t2 → t1 = t2.

(** one-dimensional launches: the global index of a thread, and the thread
    of a global index *)
Definition global_x (cu : builtins) : Z :=
  cu.(blockIdx).(x) * cu.(blockDim).(x) + cu.(threadIdx).(x).

Definition thread_1d (g bs i : Z) : builtins :=
  Builtins (Dim3 g 1 1) (Dim3 bs 1 1) (Dim3 (i `div` bs) 0 0) (Dim3 (i `mod` bs) 0 0).

(** ** Beam cache indirection *)

(** the grid of the indirection kernel: blocks of 32 time steps in [x], one
    row of blocks for every beam of every batch entry in [y] *)
Definition thread_2d (gx gy t bb : Z) : builtins :=
  Builtins (Dim3 gx gy 1) (Dim3 32 1 1) (Dim3 (t `div` 32) bb 0)
           (Dim3 (t `mod` 32) 0 0).

Definition time_of (cu : builtins) : Z :=
  cu.(threadIdx).(x) + cu.(blockIdx).(x) * 32.

(** what the kernel stores for beam [bb] (of all batch entries) at time
    step [t] *)
Definition indirection_value (src beam : list Z) (W isl ml cl bb t : Z) : Z :=
  if decide (t < isl) then 0
  else if decide (t = cl - 1) then bb `mod` W
  else default 0
         (src !! Z.to_nat (bb `div` W * W * ml
                           + default 0 (beam !! Z.to_nat bb) `mod` W * ml + t)).

(** ** End-of-sequence tokens *)

(** the maximum that the loop of the kernel computes from the scores of the
    end-of-sequence ids, in the order of the ids *)
Definition running_max (scores : list float) : float :=
  foldl float_max float_lowest scores.

(** the scores of the ids [ids] in the row that starts at [l] *)
Definition row_scores (buf : list float) (l : Z) (ids : list Z) : list float :=
  (λ e, default float_lowest (buf !! Z.to_nat (l + e))) <$> ids.

(** the row that starts at [l], with the scores of [ids] set to [lowest()] *)
Definition clear_all (l : Z) (ids : list Z) (buf : list float) : list float :=
  foldl (λ b e, <[Z.to_nat (l + e) := float_lowest]> b) buf ids.

(** what a thread of the kernel makes of the buffer *)
Definition merged_row (l : Z) (ids : list Z) (buf : list float) : list float :=
  match ids with
  | [] => buf
  | e0 :: _ =>
      <[Z.to_nat (l + e0) := running_max (row_scores buf l ids)]>
        (clear_all l ids buf)
  end.

(** The numbers that are not NaN are totally ordered: [SFcompare] compares
    these triples, first component first. *)
Definition float_rank (f : float) : Z * Z * Z :=
  match f with
  | S754_infinity true => (-2, 0, 0)
  | S754_finite true m e => (-1, - e, - Z.pos m)
  | S754_zero _ | S754_nan => (0, 0, 0)
  | S754_finite false m e => (1, e, Z.pos m)
  | S754_infinity false => (2, 0, 0)
  end.

Definition rank_lt (a b : Z * Z * Z) : Prop :=
  a.1.1 < b.1.1 ∨
  (a.1.1 = b.1.1 ∧ (a.1.2 < b.1.2 ∨ (a.1.2 = b.1.2 ∧ a.2 < b.2))).

(** ** Examples *)

(** the example of the specification: the scores 2.0 and 5.0 *)
Definition float_two : float := S754_finite false (2 ^ 23) (-22).
Definition float_five : float := S754_finite false (5 * 2 ^ 21) (-21).
Definition eos_example_row (s7 s9 : float) : list float :=
  replicate 7 (S754_zero false) ++ [s7; S754_zero false; s9].

(** a chunk that carries its index *)
Definition chunk_of (k : Z) : float4 := Float4 k (k + 1) (k + 2) (k + 3).

(** ** Past-state cache *)

(** the first chunk of head [n] of batch entry [b] *)
Definition head_base (num_heads max_length chunked_head_size b n : Z) : Z :=
  (b * num_heads + n) * max_length * chunked_head_size.

(** The transform as the comment of the launcher states it, from
    [B, N, max_length, H2, chunk] to [B, N, H2, max_length, chunk], as a
    function of the whole cache: the chunk at [b, n, c, t] of the result is
    the chunk at [b, n, t, c] of [buf]. *)
Definition axis_swap (B N Lmax H2 : Z) (buf : list float4)
    : option (list float4) :=
  mapM (λ k, let t := k `mod` Lmax in
             let c := (k `div` Lmax) `mod` H2 in
             let bn := (k `div` Lmax) `div` H2 in
             load buf ((bn * Lmax + t) * H2 + c))
       (seqZ 0 (B * N * Lmax * H2)).

(** ** Attention mask *)

(** row [i] of a mask of rows of [width] cells is causal for the length
    [len]: it holds 1 in its first [len] columns and 0 in the others *)
Definition causal_row (mask : list Z) (width i len : Z) : Prop :=
  ∀ j, 0 ≤ j < width →
    mask !! Z.to_nat (i * width + j) = Some (if decide (j < len) then 1 else 0).

(** ** Conversions *)

(** the shape the three conversion kernels share: the thread of global
    index [idx] below [count] stores [f src[idx]] in [dst[idx]] *)
Definition convert_thread {A B} (f : A → B) (cu : builtins)
    (src : list A) (dst : list B) (count : Z) : option (list B) :=
  let idx := i32 (cu.(threadIdx).(x) + cu.(blockIdx).(x) * cu.(blockDim).(x))%uint in
  if decide (idx < count) then
    v ← load src idx;
    store dst idx (f v)
  else Some dst.

(** the buffer [dst] with its first [count] cells converted from [src] *)
Definition converted {A B} (f : A → B) (src : list A) (dst : list B)
    (count : Z) : list B :=
  (f <$> take (Z.to_nat count) src) ++ drop (Z.to_nat count) dst.

(** IEEE 754 binary16 in the format of [spec_float], and the reading of the
    two intrinsics as the conversions of IEEE 754: exact from binary16 to
    binary32, rounded to the nearest even the other way *)
Definition half_ieee : Type := spec_float.

Definition half2float_ieee (h : half_ieee) : float :=
  match h with
  | S754_finite s m e => binary_normalize 24 128 (cond_Zopp s (Z.pos m)) e s
  | _ => h
  end.

Definition float2half_ieee (f : float) : half_ieee :=
  match f with
  | S754_finite s m e => binary_normalize 11 16 (cond_Zopp s (Z.pos m)) e s
  | _ => f
  end.

(** 1.5 and the smallest positive subnormal, in binary16 *)
Definition half_one_and_half : half_ieee := S754_finite false 1536 (-10).
Definition half_min_subnormal : half_ieee := S754_finite false 1 (-24).

(** * Properties *)

(** ** Machine integers and buffers *)

Lemma signed_id w n :
  0 < w → Int.min_signed w ≤ n ≤ Int.max_signed w → Int.signed w n = n.
Proof.
  unfold Int.signed, Int.min_signed, Int.max_signed. intros Hw Hn.
  assert (2 ^ w = 2 * 2 ^ (w - 1)) as Hpow.
  { rewrite <- Z.pow_succ_r by lia. f_equal. lia. }
  rewrite Z.mod_small by lia. lia.
Qed.

Lemma unsigned_id w n : 0 ≤ n ≤ Int.max_unsigned w → Int.unsigned w n = n.
Proof. unfold Int.unsigned, Int.max_unsigned. intros. apply Z.mod_small. lia. Qed.

Lemma signed_range w n :
  0 < w → Int.min_signed w ≤ Int.signed w n ≤ Int.max_signed w.
Proof.
  unfold Int.signed, Int.min_signed, Int.max_signed. intros Hw.
  assert (2 ^ w = 2 * 2 ^ (w - 1)) as Hpow.
  { rewrite <- Z.pow_succ_r by lia. f_equal. lia. }
  assert (0 < 2 ^ (w - 1)) by (apply Z.pow_pos_nonneg; lia).
  pose proof (Z.mod_pos_bound (n + 2 ^ (w - 1)) (2 ^ w)). lia.
Qed.

Lemma signed_add_idemp w a b :
  Int.signed w (Int.signed w a + b) = Int.signed w (a + b).
Proof.
  unfold Int.signed. f_equal.
  replace ((a + 2 ^ (w - 1)) mod 2 ^ w - 2 ^ (w - 1) + b + 2 ^ (w - 1))
    with ((a + 2 ^ (w - 1)) mod 2 ^ w + b) by lia.
  rewrite Zplus_mod_idemp_l. f_equal. lia.
Qed.

Lemma INT_MAX_eq : INT_MAX = 2147483647.
Proof. reflexivity. Qed.

Lemma INT_MIN_eq : INT_MIN = -2147483648.
Proof. reflexivity. Qed.

Lemma UINT_MAX_eq : Int.max_unsigned 32 = 4294967295.
Proof. reflexivity. Qed.

Global Opaque INT_MAX INT_MIN.

Lemma i32_id n : INT_MIN ≤ n ≤ INT_MAX → i32 n = n.
Proof. rewrite INT_MIN_eq, INT_MAX_eq. intros. apply signed_id; [lia|done]. Qed.

Lemma u32_id n : 0 ≤ n ≤ Int.max_unsigned 32 → u32 n = n.
Proof. apply unsigned_id. Qed.

Lemma i32_small n : -2147483648 ≤ n ≤ 2147483647 → i32 n = n.
Proof. intros. apply i32_id. rewrite INT_MIN_eq, INT_MAX_eq. lia. Qed.

Lemma u32_small n : 0 ≤ n ≤ 4294967295 → u32 n = n.
Proof. intros. apply u32_id. rewrite UINT_MAX_eq. lia. Qed.

(** removes the wrap-around of the operations whose result is in range,
    innermost first *)
Ltac wrap_free n :=
  lazymatch n with
  | context [Int.signed _ _] => fail
  | context [Int.unsigned _ _] => fail
  | _ => idtac
  end.

Ltac int_simpl :=
  unfold add32, sub32, mul32, addu, subu, mulu;
  repeat match goal with
    | |- context [Int.signed 32 ?n] =>
        wrap_free n; rewrite (i32_small n) by lia
    | |- context [Int.unsigned 32 ?n] =>
        wrap_free n; rewrite (u32_small n) by lia
    end.

(** row [i], column [j] of a buffer of rows of [cols] cells *)
Lemma offset_bound i j rows cols :
  0 ≤ i < rows → 0 ≤ j < cols →
  0 ≤ i * cols ∧ i * cols + j < rows * cols.
Proof. nia. Qed.

Lemma offset_div_mod i j cols :
  0 ≤ j < cols → (i * cols + j) `div` cols = i ∧ (i * cols + j) `mod` cols = j.
Proof.
  intros. rewrite Z.add_comm. rewrite Z.div_add, Z.mod_add by lia.
  rewrite Z.div_small, Z.mod_small by lia. lia.
Qed.

Lemma div32_nonneg a b : 0 ≤ a → 0 < b → div32 a b = Some (a `div` b).
Proof.
  intros. unfold div32. rewrite decide_False by lia.
  by rewrite Z.quot_div_nonneg by lia.
Qed.

Lemma rem32_nonneg a b : 0 ≤ a → 0 < b → rem32 a b = Some (a `mod` b).
Proof.
  intros. unfold rem32. rewrite decide_False by lia.
  by rewrite Z.rem_mod_nonneg by lia.
Qed.

Lemma option_bind_Some {A B} (a : A) (f : A → option B) : Some a ≫= f = f a.
Proof. done. Qed.

Lemma load_lookup {A} (buf : list A) i :
  0 ≤ i → load buf i = buf !! Z.to_nat i.
Proof. intros. unfold load. by rewrite decide_True. Qed.

Lemma store_Some {A} (buf : list A) i v :
  0 ≤ i < Z.of_nat (length buf) →
  store buf i v = Some (<[Z.to_nat i := v]> buf).
Proof. intros Hi. unfold store. by rewrite decide_True. Qed.

(** ** Grids and streams *)

Lemma elem_of_dim3_range d i :
  i ∈ dim3_range d ↔
  0 ≤ i.(x) < d.(x) ∧ 0 ≤ i.(y) < d.(y) ∧ 0 ≤ i.(z) < d.(z).
Proof.
  unfold dim3_range. rewrite list_elem_of_bind. split.
  - intros (k & (j & (i' & ->%list_elem_of_singleton & Hi)%list_elem_of_bind & Hj)%list_elem_of_bind & Hk).
    apply elem_of_seqZ in Hi, Hj, Hk. simpl. lia.
  - intros (Hx & Hy & Hz). destruct i as [ix iy iz]; simpl in *.
    exists iz. split; [|apply elem_of_seqZ; lia].
    apply list_elem_of_bind. exists iy. split; [|apply elem_of_seqZ; lia].
    apply list_elem_of_bind. exists ix. split; [|apply elem_of_seqZ; lia].
    by apply list_elem_of_singleton.
Qed.

Lemma NoDup_dim3_range d : NoDup (dim3_range d).
Proof.
  unfold dim3_range. apply NoDup_bind; [| |apply NoDup_seqZ].
  { intros k1 k2 i _ _.
    intros (j1 & (i1 & ->%list_elem_of_singleton & _)%list_elem_of_bind & _)%list_elem_of_bind.
    intros (j2 & (i2 & [= _ _ ->]%list_elem_of_singleton & _)%list_elem_of_bind & _)%list_elem_of_bind.
    done. }
  intros k _. apply NoDup_bind; [| |apply NoDup_seqZ].
  { intros j1 j2 i _ _.
    intros (i1 & ->%list_elem_of_singleton & _)%list_elem_of_bind.
    intros (i2 & [= _ ->]%list_elem_of_singleton & _)%list_elem_of_bind.
    done. }
  intros j _. apply NoDup_bind; [| |apply NoDup_seqZ].
  { intros i1 i2 i _ _ ->%list_elem_of_singleton [= ->]%list_elem_of_singleton. done. }
  intros i _. apply NoDup_singleton.
Qed.

Lemma elem_of_block_threads grid block b t :
  t ∈ block_threads grid block b ↔
  t.(gridDim) = grid ∧ t.(blockDim) = block ∧ t.(blockIdx) = b ∧
  t.(threadIdx) ∈ dim3_range block.
Proof.
  unfold block_threads. rewrite list_elem_of_fmap. split.
  - intros (i & -> & Hi). done.
  - intros (<- & <- & <- & Hi). exists (threadIdx t). by destruct t.
Qed.

Lemma NoDup_block_threads grid block b : NoDup (block_threads grid block b).
Proof.
  apply NoDup_fmap_2; [|apply NoDup_dim3_range]. by intros ?? [= ->].
Qed.

Lemma elem_of_threads grid block t :
  t ∈ threads grid block ↔
  t.(gridDim) = grid ∧ t.(blockDim) = block ∧
  t.(blockIdx) ∈ dim3_range grid ∧ t.(threadIdx) ∈ dim3_range block.
Proof.
  unfold threads. rewrite list_elem_of_bind.
  setoid_rewrite elem_of_block_threads. split.
  - intros (b & (? & ? & <- & ?) & ?). done.
  - intros (? & ? & ? & ?). by exists (blockIdx t).
Qed.

Lemma NoDup_threads grid block : NoDup (threads grid block).
Proof.
  unfold threads. apply NoDup_bind; [| |apply NoDup_dim3_range].
  - intros b1 b2 t _ _ (_ & _ & <- & _)%elem_of_block_threads
      (_ & _ & <- & _)%elem_of_block_threads. done.
  - intros. apply NoDup_block_threads.
Qed.

Lemma elem_of_order stream p {A} (l : list A) a :
  a ∈ order stream p A l ↔ a ∈ l.
Proof. by rewrite (order_perm stream p A l). Qed.

Lemma NoDup_order stream p {A} (l : list A) :
  NoDup (order stream p A l) ↔ NoDup l.
Proof. by rewrite (order_perm stream p A l). Qed.

(** ** Threads on disjoint cells *)

Section parallel_for.
Context {T A : Type}.
Variable body : T → list A → option (list A).
Variable n : nat.

Lemma run_parallel (cells : T → nat → Prop) ts buf :
  NoDup ts →
  Forall (thread_frame body cells n) ts →
  Forall (thread_local body cells n) ts →
  cells_disjoint cells ts →
  length buf = n →
  ∃ buf', run body ts buf = Some buf' ∧ length buf' = n ∧
    (∀ t k, t ∈ ts → cells t k →
       ∃ b, body t buf = Some b ∧ buf' !! k = b !! k) ∧
    (∀ k, (∀ t, t ∈ ts → ¬ cells t k) → buf' !! k = buf !! k).
Proof.
  intros Hnd. revert buf.
  induction Hnd as [|t ts Hnotin Hnd IH]; intros buf Hfr Hloc Hdis Hlen.
  { exists buf. split_and!; [done..| |done]. by intros ?? ?%elem_of_nil. }
  apply Forall_cons in Hfr as [Hfr_t Hfr].
  apply Forall_cons in Hloc as [Hloc_t Hloc].
  assert (cells_disjoint cells ts) as Hdis'.
  { intros t1 t2 k ?? ??. apply (Hdis t1 t2 k); by try right. }
  destruct (Hfr_t buf Hlen) as (b1 & Hb1 & Hlen1 & Hframe1).
  destruct (IH b1 Hfr Hloc Hdis' Hlen1) as (buf' & Hrun & Hlen' & Hin & Hout).
  exists buf'. simpl. rewrite Hb1. simpl. split_and!; [done..| |].
  - intros t' k [->|Ht']%elem_of_cons Hk.
    + exists b1. split; [done|]. apply Hout. intros t2 Ht2 Hk2.
      assert (t = t2) as -> by (apply (Hdis t t2 k); [by left|by right|done..]).
      done.
    + destruct (Hin t' k Ht' Hk) as (b & Hb & Hbk).
      rewrite Forall_forall in Hfr. rewrite Forall_forall in Hloc.
      destruct (Hfr t' Ht' buf Hlen) as (b0 & Hb0 & _ & _).
      exists b0. split; [done|]. rewrite Hbk.
      apply (Hloc t' Ht' b1 buf b b0); [done..| |done|done|done].
      intros k' Hk'. apply Hframe1. intros Hk''.
      assert (t = t') as -> by (apply (Hdis t t' k'); [by left|by right|done..]).
      done.
  - intros k Hk. rewrite Hout.
    + apply Hframe1. apply Hk. by left.
    + intros t' Ht'. apply Hk. by right.
Qed.

Lemma run_update (active : T → bool) (off : T → Z) (upd : T → A → A) ts buf :
  NoDup ts → Forall (updates_cell body active off upd n) ts →
  off_inj active off ts → length buf = n →
  ∃ buf', run body ts buf = Some buf' ∧ length buf' = n ∧
    (∀ t, t ∈ ts → active t = true →
       buf' !! Z.to_nat (off t) = upd t <$> buf !! Z.to_nat (off t)) ∧
    (∀ k, (∀ t, t ∈ ts → active t = true → Z.to_nat (off t) ≠ k) →
       buf' !! k = buf !! k).
Proof.
  intros Hnd Hupd Hinj Hlen.
  set (cells := λ t k, active t = true ∧ k = Z.to_nat (off t)).
  destruct (run_parallel cells ts buf) as (buf' & Hrun & Hlen' & Hin & Hout);
    [done| | | |done|].
  - eapply Forall_impl; [exact Hupd|]. intros t Ht b Hb.
    unfold updates_cell in Ht. destruct (active t) eqn:Hact.
    + destruct Ht as [Hoff Ht].
      destruct (lookup_lt_is_Some_2 b (Z.to_nat (off t))) as [v Hv]; [lia|].
      eexists. split; [by apply Ht|]. split; [by rewrite length_insert|].
      intros k Hk. apply list_lookup_insert_ne. intros <-. by apply Hk.
    + exists b. split; [by apply Ht|done].
  - eapply Forall_impl; [exact Hupd|].
    intros t Ht b1 b2 b1' b2' Hl1 Hl2 Hagree H1 H2 k [Hact ->].
    unfold updates_cell in Ht. rewrite Hact in Ht. destruct Ht as [Hoff Ht].
    destruct (lookup_lt_is_Some_2 b1 (Z.to_nat (off t))) as [v Hv]; [lia|].
    assert (b2 !! Z.to_nat (off t) = Some v) as Hv2 by (by rewrite <- Hagree).
    rewrite (Ht b1 v) in H1 by done. rewrite (Ht b2 v) in H2 by done.
    injection H1 as <-. injection H2 as <-.
    rewrite !list_lookup_insert_eq by lia. done.
  - intros t1 t2 k Ht1 Ht2 [Ha1 ->] [Ha2 Heq]. apply Hinj; try done.
    rewrite Forall_forall in Hupd.
    pose proof (Hupd t1 Ht1) as H1. pose proof (Hupd t2 Ht2) as H2.
    unfold updates_cell in H1, H2. rewrite Ha1 in H1. rewrite Ha2 in H2. lia.
  - exists buf'. split_and!; [done..| |].
    + intros t Ht Hact.
      destruct (Hin t (Z.to_nat (off t)) Ht) as (b & Hb & ->); [done|].
      rewrite Forall_forall in Hupd. pose proof (Hupd t Ht) as H1.
      unfold updates_cell in H1. rewrite Hact in H1. destruct H1 as [Hoff H1].
      destruct (lookup_lt_is_Some_2 buf (Z.to_nat (off t))) as [v Hv]; [lia|].
      rewrite (H1 buf v) in Hb by done. injection Hb as <-.
      rewrite list_lookup_insert_eq by lia. by rewrite Hv.
    + intros k Hk. apply Hout. intros t Ht [Hact ->]. by apply (Hk t).
Qed.
End parallel_for.

(** ** One-dimensional launches *)

Lemma elem_of_threads_1d g bs t :
  t ∈ threads (Dim3 g 1 1) (Dim3 bs 1 1) →
  0 < bs ∧ 0 ≤ global_x t < g * bs ∧ t = thread_1d g bs (global_x t).
Proof.
  intros (Hg & Hb & Hbi & Hti)%elem_of_threads.
  apply elem_of_dim3_range in Hbi, Hti. simpl in *.
  destruct t as [gd bd [bx by_ bz] [tx ty tz]]; simpl in *. subst gd bd.
  unfold global_x, thread_1d; simpl.
  assert (by_ = 0 ∧ bz = 0 ∧ ty = 0 ∧ tz = 0) as (-> & -> & -> & ->) by lia.
  split; [lia|]. split; [nia|].
  rewrite Z.div_add_l, Z.div_small, Z.add_0_r by lia.
  rewrite Z.add_comm, Z.mod_add, Z.mod_small by lia. done.
Qed.

Lemma thread_1d_elem_of g bs i :
  0 < bs → 0 ≤ i < g * bs →
  thread_1d g bs i ∈ threads (Dim3 g 1 1) (Dim3 bs 1 1) ∧
  global_x (thread_1d g bs i) = i.
Proof.
  intros Hbs Hi. split.
  - apply elem_of_threads. split_and!; [done..| |]; apply elem_of_dim3_range; simpl.
    + split_and!; try lia. { apply Z.div_pos; lia. }
      apply Z.div_lt_upper_bound; lia.
    + pose proof (Z.mod_pos_bound i bs). lia.
  - unfold global_x, thread_1d; simpl. pose proof (Z.div_mod i bs). lia.
Qed.

(** [blockIdx.x * blockDim.x + threadIdx.x], converted to [int] *)
Lemma global_x_int t :
  0 ≤ t.(blockIdx).(x) → 0 ≤ t.(blockDim).(x) → 0 ≤ t.(threadIdx).(x) →
  global_x t ≤ INT_MAX →
  i32 (t.(blockIdx).(x) * t.(blockDim).(x) + t.(threadIdx).(x))%uint = global_x t.
Proof.
  unfold global_x, addu, mulu. intros ??? Hmax. rewrite INT_MAX_eq in Hmax.
  assert (0 ≤ x (blockIdx t) * x (blockDim t)) by nia.
  rewrite (u32_id (_ * _)) by (rewrite UINT_MAX_eq; lia).
  rewrite u32_id by (rewrite UINT_MAX_eq; lia).
  apply i32_id. rewrite INT_MAX_eq, INT_MIN_eq. lia.
Qed.

Lemma global_x_int_1d g bs t :
  t ∈ threads (Dim3 g 1 1) (Dim3 bs 1 1) → g * bs ≤ INT_MAX + 1 →
  i32 (t.(blockIdx).(x) * t.(blockDim).(x) + t.(threadIdx).(x))%uint = global_x t.
Proof.
  intros Ht Hmax. pose proof (elem_of_threads_1d _ _ _ Ht) as (Hbs & Hgx & _).
  apply elem_of_threads in Ht as (_ & Hb & Hbi & Hti).
  apply elem_of_dim3_range in Hbi, Hti. simpl in *.
  apply global_x_int; rewrite ?Hb; simpl; lia.
Qed.

Lemma thread_1d_inj g bs t1 t2 :
  t1 ∈ threads (Dim3 g 1 1) (Dim3 bs 1 1) →
  t2 ∈ threads (Dim3 g 1 1) (Dim3 bs 1 1) →
  global_x t1 = global_x t2 → t1 = t2.
Proof.
  intros (_ & _ & E1)%elem_of_threads_1d (_ & _ & E2)%elem_of_threads_1d Heq.
  rewrite E1, E2. by rewrite Heq.
Qed.

(** the grid of the one-dimensional launchers: [(n + 255) / 256] blocks
    of 256 threads *)
Lemma grid_256 n :
  0 ≤ n ≤ INT_MAX - 255 →
  dim3_1 (Z.quot (n + 255)%int 256) = Dim3 ((n + 255) `div` 256) 1 1 ∧
  n ≤ (n + 255) `div` 256 * 256 ≤ INT_MAX + 1.
Proof.
  rewrite INT_MAX_eq. intros Hn. unfold dim3_1, add32.
  rewrite i32_id by (rewrite INT_MAX_eq, INT_MIN_eq; lia).
  rewrite Z.quot_div_nonneg by lia.
  pose proof (Z.div_mod (n + 255) 256). pose proof (Z.mod_pos_bound (n + 255) 256).
  rewrite u32_id by (rewrite UINT_MAX_eq; lia). split; [done|lia].
Qed.

(** ** Position ids *)

Section UpdatePositionIds.
Variable T : elem_type.
Variable stream : cudaStream_t.

Lemma Launch_UpdatePositionIds_lookup positions n :
  0 ≤ n ≤ INT_MAX - 255 → n ≤ Z.of_nat (length positions) →
  ∃ positions',
    Launch_UpdatePositionIds T positions n stream = Some positions' ∧
    length positions' = length positions ∧
    ∀ k : nat, positions' !! k =
      if decide (Z.of_nat k < n)
      then (λ p, Int.signed (bits T) (p + 1)) <$> positions !! k
      else positions !! k.
Proof.
  intros Hn Hlen. unfold Launch_UpdatePositionIds, launch.
  destruct (grid_256 n Hn) as [-> Hg]. change (dim3_1 256) with (Dim3 256 1 1).
  set (g := (n + 255) `div` 256) in *.
  set (ts := order stream 0 builtins (threads (Dim3 g 1 1) (Dim3 256 1 1))).
  assert (∀ t, t ∈ ts ↔ t ∈ threads (Dim3 g 1 1) (Dim3 256 1 1)) as Hts
    by (intros; apply elem_of_order).
  destruct (run_update
              (λ cu positions, UpdatePositionIds T cu positions n)
              (length positions)
              (λ t, bool_decide (global_x t < n)) global_x
              (λ _ p, Int.signed (bits T) (p + 1))
              ts positions)
    as (positions' & Hrun & Hlen' & Hin & Hout); [| | |done|].
  - apply NoDup_order, NoDup_threads.
  - apply Forall_forall. intros t Ht%Hts. unfold updates_cell.
    pose proof (elem_of_threads_1d _ _ _ Ht) as (_ & Hgx & _).
    unfold UpdatePositionIds. rewrite (global_x_int_1d g 256) by (done || lia).
    case_bool_decide as Hact.
    + split; [lia|]. intros buf v Hbuf Hv. rewrite decide_True by done.
      unfold load. rewrite decide_True by lia. rewrite Hv. simpl.
      apply store_Some. lia.
    + intros buf _. by rewrite decide_False.
  - intros t1 t2 Ht1%Hts Ht2%Hts _ _. by apply (thread_1d_inj g 256).
  - exists positions'. split_and!; [done..|]. intros k. case_decide as Hk.
    + destruct (thread_1d_elem_of g 256 (Z.of_nat k)) as [Hin_t Hgx]; [lia..|].
      specialize (Hin _ (proj2 (Hts _) Hin_t)). rewrite Hgx, Nat2Z.id in Hin.
      apply Hin. by apply bool_decide_eq_true.
    + apply Hout. intros t Ht%Hts Hact%bool_decide_eq_true.
      pose proof (elem_of_threads_1d _ _ _ Ht) as (_ & Hgx & _). lia.
Qed.

Lemma Launch_UpdatePositionIds_fmap positions n :
  Z.of_nat (length positions) = n → n ≤ INT_MAX - 255 →
  Launch_UpdatePositionIds T positions n stream =
  Some ((λ p, Int.signed (bits T) (p + 1)) <$> positions).
Proof.
  intros Hlen Hn.
  destruct (Launch_UpdatePositionIds_lookup positions n)
    as (positions' & -> & Hlen' & Hlook); [lia..|].
  f_equal. apply list_eq. intros k. rewrite Hlook, list_lookup_fmap.
  case_decide as Hk; [done|].
  rewrite (lookup_ge_None_2 positions) by lia. done.
Qed.

Lemma advance_fmap k positions n :
  Forall (representable T) positions →
  Z.of_nat (length positions) = n → n ≤ INT_MAX - 255 →
  advance T k positions n stream =
  Some ((λ p, Int.signed (bits T) (p + Z.of_nat k)) <$> positions).
Proof.
  intros Hrep Hlen Hn. revert positions Hrep Hlen.
  induction k as [|k IH]; intros positions Hrep Hlen.
  - simpl. f_equal. symmetry. etrans; [|apply list_fmap_id].
    apply Forall_fmap_ext_1. eapply Forall_impl; [exact Hrep|].
    intros p Hp. simpl. rewrite Z.add_0_r. apply signed_id; [|done].
    by destruct T.
  - cbn [advance]. rewrite Launch_UpdatePositionIds_fmap by done. simpl.
    rewrite IH.
    + f_equal. rewrite <- list_fmap_compose. apply list_fmap_ext.
      intros _ p _. simpl. rewrite signed_add_idemp. f_equal. lia.
    + apply Forall_fmap, Forall_forall. intros p _. simpl.
      apply signed_range. by destruct T.
    + by rewrite length_fmap.
Qed.
End UpdatePositionIds.

(** C8 — position advance. For a buffer of [n] positions of element type
    [T] (32 or 64 bits), one launch adds 1 to every entry, and [k]
    successive launches add [k] to every entry, in the arithmetic of [T];
    the sums are the exact ones whenever they are representable in [T].
    This holds for every order in which the stream runs the threads. *)
Theorem position_advance (T : elem_type) (positions : list Z) (n : Z)
    (k : nat) (stream : cudaStream_t) :
  Z.of_nat (length positions) = n → n ≤ INT_MAX - 255 →
  Forall (representable T) positions →
  Launch_UpdatePositionIds T positions n stream
    = Some ((λ p, Int.signed (bits T) (p + 1)) <$> positions) ∧
  advance T k positions n stream
    = Some ((λ p, Int.signed (bits T) (p + Z.of_nat k)) <$> positions) ∧
  (Forall (λ p, representable T (p + 1)) positions →
   Launch_UpdatePositionIds T positions n stream
     = Some ((λ p, p + 1) <$> positions)) ∧
  (Forall (λ p, representable T (p + Z.of_nat k)) positions →
   advance T k positions n stream
     = Some ((λ p, p + Z.of_nat k) <$> positions)).
Proof.
  intros Hlen Hn Hrep.
  assert (0 < bits T) as Hbits by (by destruct T).
  split_and!.
  - by apply Launch_UpdatePositionIds_fmap.
  - by apply advance_fmap.
  - intros Hfit. rewrite Launch_UpdatePositionIds_fmap by done. f_equal.
    apply Forall_fmap_ext_1. eapply Forall_impl; [exact Hfit|].
    intros p Hp. by apply signed_id.
  - intros Hfit. rewrite advance_fmap by done. f_equal.
    apply Forall_fmap_ext_1. eapply Forall_impl; [exact Hfit|].
    intros p Hp. by apply signed_id.
Qed.

Lemma position_advance_witness :
  Launch_UpdatePositionIds int64_t [0; 5; 41] 3 reversed = Some [1; 6; 42] ∧
  advance int64_t 2 [0; 5; 41] 3 reversed = Some [2; 7; 43].
Proof.
  destruct (position_advance int64_t [0; 5; 41] 3 2 reversed)
    as (_ & _ & H1 & Hk).
  - reflexivity.
  - rewrite INT_MAX_eq. lia.
  - repeat constructor; vm_compute; discriminate.
  - split.
    + apply H1. repeat constructor; vm_compute; discriminate.
    + apply Hk. repeat constructor; vm_compute; discriminate.
Defined.

(** ** Attention mask *)

Section AttentionMask.
Variable stream : cudaStream_t.
Variables batch_beam_size current_length max_length : Z.
Hypothesis rows_nonneg : 0 ≤ batch_beam_size.

Lemma UpdateAttentionMask_lookup mask_data old_mask_data :
  0 ≤ current_length < max_length →
  batch_beam_size * max_length ≤ INT_MAX →
  batch_beam_size * max_length ≤ Z.of_nat (length mask_data) →
  ∃ mask',
    Launch_UpdateAttentionMask mask_data old_mask_data batch_beam_size
      current_length max_length true stream = Some mask' ∧
    length mask' = length mask_data ∧
    ∀ k : nat, mask' !! k =
      if decide (Z.of_nat k `div` max_length < batch_beam_size ∧
                 Z.of_nat k `mod` max_length = current_length)
      then Some 1 else mask_data !! k.
Proof.
  rewrite INT_MAX_eq. intros Hcl Hmax Hlen.
  unfold Launch_UpdateAttentionMask, launch.
  assert (batch_beam_size ≤ batch_beam_size * max_length) by nia.
  unfold dim3_1. rewrite (u32_small batch_beam_size) by lia.
  change (u32 1) with 1.
  set (ts := order stream 0 builtins
               (threads (Dim3 batch_beam_size 1 1) (Dim3 1 1 1))).
  assert (∀ t, t ∈ ts ↔ t ∈ threads (Dim3 batch_beam_size 1 1) (Dim3 1 1 1))
    as Hts by (intros; apply elem_of_order).
  assert (∀ t, t ∈ ts → 0 ≤ x (blockIdx t) < batch_beam_size) as Hbx.
  { intros t (_ & _ & Hb%elem_of_dim3_range & _)%Hts%elem_of_threads.
    simpl in Hb. lia. }
  destruct (run_update
              (λ cu mask_data, UpdateAttentionMask cu mask_data
                 batch_beam_size current_length max_length)
              (length mask_data)
              (λ _, true)
              (λ t, x (blockIdx t) * max_length + current_length)
              (λ _ _, 1) ts mask_data)
    as (mask' & Hrun & Hlen' & Hin & Hout); [| | |done|].
  - apply NoDup_order, NoDup_threads.
  - apply Forall_forall. intros t Ht. specialize (Hbx t Ht). simpl.
    destruct (offset_bound (x (blockIdx t)) current_length
                batch_beam_size max_length) as [? ?]; [lia..|].
    split; [lia|]. intros buf v Hbuf _. unfold UpdateAttentionMask.
    int_simpl. rewrite decide_True by lia. apply store_Some. lia.
  - intros t1 t2 Ht1 Ht2 _ _ Hoff.
    apply (thread_1d_inj batch_beam_size 1); [by apply Hts..|].
    apply Hts, elem_of_threads_1d in Ht1 as (_ & _ & E1).
    apply Hts, elem_of_threads_1d in Ht2 as (_ & _ & E2).
    rewrite E1, E2 in Hoff. unfold thread_1d in Hoff. simpl in Hoff.
    rewrite !Z.div_1_r in Hoff. nia.
  - exists mask'. split_and!; [done..|]. intros k.
    pose proof (Z.div_mod (Z.of_nat k) max_length ltac:(lia)) as Hdm.
    pose proof (Z.mod_pos_bound (Z.of_nat k) max_length ltac:(lia)) as Hmod.
    assert (0 ≤ Z.of_nat k `div` max_length) by (apply Z.div_pos; lia).
    case_decide as Hk.
    + destruct Hk as [Hrow Hcol].
      destruct (thread_1d_elem_of batch_beam_size 1 (Z.of_nat k `div` max_length))
        as [Hin_t Hgx]; [lia..|].
      specialize (Hin _ (proj2 (Hts _) Hin_t) eq_refl).
      unfold thread_1d in Hin. simpl in Hin. rewrite Z.div_1_r in Hin.
      replace (Z.of_nat k `div` max_length * max_length + current_length)
        with (Z.of_nat k) in Hin by lia.
      rewrite Nat2Z.id in Hin. rewrite Hin.
      destruct (lookup_lt_is_Some_2 mask_data k) as [v ->]; [nia|done].
    + apply Hout. intros t Ht _ Hoff. specialize (Hbx t Ht).
      assert (0 ≤ x (blockIdx t) * max_length) by nia.
      apply Hk. assert (Z.of_nat k = x (blockIdx t) * max_length + current_length)
        as -> by lia.
      destruct (offset_div_mod (x (blockIdx t)) current_length max_length)
        as [-> ->]; lia.
Qed.

Lemma CopyAndUpdateAttentionMask_lookup mask_data old_mask_data :
  1 ≤ current_length ≤ max_length →
  batch_beam_size * max_length ≤ INT_MAX - 255 →
  batch_beam_size * max_length ≤ Z.of_nat (length mask_data) →
  batch_beam_size * (current_length - 1) ≤ Z.of_nat (length old_mask_data) →
  ∃ mask',
    Launch_UpdateAttentionMask mask_data old_mask_data batch_beam_size
      current_length max_length false stream = Some mask' ∧
    length mask' = length mask_data ∧
    ∀ k : nat, mask' !! k =
      let i := Z.of_nat k `div` max_length in
      let j := Z.of_nat k `mod` max_length in
      if decide (i < batch_beam_size ∧ j < current_length) then
        if decide (j < current_length - 1)
        then old_mask_data !! Z.to_nat (i * (current_length - 1) + j)
        else Some 1
      else mask_data !! k.
Proof.
  intros Hcl Hmax Hlen Hold.
  unfold Launch_UpdateAttentionMask, launch.
  assert (0 ≤ batch_beam_size * max_length) by nia.
  assert (batch_beam_size * max_length ≤ 2147483647 - 255) as Hmax'
    by (by rewrite <- INT_MAX_eq).
  unfold mul32 at 1. rewrite i32_small by lia.
  destruct (grid_256 (batch_beam_size * max_length)) as [-> Hg]; [lia|].
  rewrite INT_MAX_eq in Hg. change (dim3_1 256) with (Dim3 256 1 1).
  set (g := (batch_beam_size * max_length + 255) `div` 256) in *.
  set (ts := order stream 0 builtins (threads (Dim3 g 1 1) (Dim3 256 1 1))).
  assert (∀ t, t ∈ ts ↔ t ∈ threads (Dim3 g 1 1) (Dim3 256 1 1)) as Hts
    by (intros; apply elem_of_order).
  set (row := λ t, global_x t `div` current_length).
  set (col := λ t, global_x t `mod` current_length).
  assert (∀ t, t ∈ ts →
            0 ≤ global_x t ≤ 2147483647 ∧ 0 ≤ row t ∧ 0 ≤ col t < current_length ∧
            global_x t = current_length * row t + col t) as Hrc.
  { intros t Ht%Hts. pose proof (elem_of_threads_1d _ _ _ Ht) as (_ & Hgx & _).
    unfold row, col. split; [lia|]. split; [apply Z.div_pos; lia|].
    split; [apply Z.mod_pos_bound; lia|]. apply Z.div_mod. lia. }
  destruct (run_update
              (λ cu mask_data, CopyAndUpdateAttentionMask cu mask_data
                 old_mask_data batch_beam_size current_length max_length)
              (length mask_data)
              (λ t, bool_decide (row t < batch_beam_size))
              (λ t, row t * max_length + col t)
              (λ t _, if decide (col t < current_length - 1)
                      then default 0 (old_mask_data
                                        !! Z.to_nat (row t * (current_length - 1) + col t))
                      else 1)
              ts mask_data)
    as (mask' & Hrun & Hlen' & Hin & Hout); [| | |done|].
  - apply NoDup_order, NoDup_threads.
  - apply Forall_forall. intros t Ht. unfold updates_cell.
    destruct (Hrc t Ht) as (Hgx & Hrow & Hcol & _).
    unfold CopyAndUpdateAttentionMask.
    rewrite (global_x_int_1d g 256) by (by apply Hts || (rewrite INT_MAX_eq; lia)).
    rewrite div32_nonneg, rem32_nonneg by lia. simpl. fold (row t) (col t).
    case_bool_decide as Hact.
    + destruct (offset_bound (row t) (col t) batch_beam_size max_length)
        as [? ?]; [lia..|].
      assert (max_length ≤ batch_beam_size * max_length) by nia.
      split; [lia|]. intros buf v Hbuf _. rewrite decide_True by done.
      int_simpl. case_decide as Hlast.
      * destruct (offset_bound (row t) (col t) batch_beam_size (current_length - 1))
          as [? ?]; [lia..|].
        assert (batch_beam_size * (current_length - 1)
                ≤ batch_beam_size * max_length) by nia.
        int_simpl. rewrite load_lookup by lia.
        destruct (lookup_lt_is_Some_2 old_mask_data
                    (Z.to_nat (row t * (current_length - 1) + col t)))
          as [v' ->]; [lia|].
        simpl. apply store_Some. lia.
      * apply store_Some. lia.
    + intros buf _. by rewrite decide_False.
  - intros t1 t2 Ht1 Ht2 _ _ Hoff.
    destruct (Hrc t1 Ht1) as (_ & _ & Hc1 & Hg1).
    destruct (Hrc t2 Ht2) as (_ & _ & Hc2 & Hg2).
    apply (thread_1d_inj g 256); [by apply Hts..|].
    destruct (offset_div_mod (row t1) (col t1) max_length) as [Hd1 Hm1]; [lia|].
    destruct (offset_div_mod (row t2) (col t2) max_length) as [Hd2 Hm2]; [lia|].
    rewrite Hoff in Hd1, Hm1. rewrite Hd2 in Hd1. rewrite Hm2 in Hm1.
    rewrite Hg1, Hg2, Hd1, Hm1. done.
  - exists mask'. split_and!; [done..|]. intros k. simpl.
    pose proof (Z.div_mod (Z.of_nat k) max_length ltac:(lia)) as Hdm.
    pose proof (Z.mod_pos_bound (Z.of_nat k) max_length ltac:(lia)) as Hmod.
    assert (0 ≤ Z.of_nat k `div` max_length) by (apply Z.div_pos; lia).
    set (i := Z.of_nat k `div` max_length) in *.
    set (j := Z.of_nat k `mod` max_length) in *.
    case_decide as Hk.
    + destruct Hk as [Hrow Hcol].
      destruct (offset_bound i j batch_beam_size current_length) as [? ?]; [lia..|].
      assert (batch_beam_size * current_length ≤ batch_beam_size * max_length) by nia.
      destruct (thread_1d_elem_of g 256 (i * current_length + j))
        as [Hin_t Hgx]; [lia..|].
      apply Hts in Hin_t.
      destruct (offset_div_mod i j current_length) as [Hd Hm]; [lia|].
      specialize (Hin _ Hin_t). unfold row, col in Hin.
      rewrite Hgx, Hd, Hm in Hin.
      replace (i * max_length + j) with (Z.of_nat k) in Hin by lia.
      rewrite Nat2Z.id in Hin. rewrite Hin by (by apply bool_decide_eq_true).
      destruct (offset_bound i j batch_beam_size max_length) as [? ?]; [lia..|].
      destruct (lookup_lt_is_Some_2 mask_data k) as [v ->]; [lia|]. simpl.
      case_decide as Hlast; [|done].
      destruct (offset_bound i j batch_beam_size (current_length - 1))
        as [? ?]; [lia..|].
      destruct (lookup_lt_is_Some_2 old_mask_data
                  (Z.to_nat (i * (current_length - 1) + j))) as [v' ->]; [lia|].
      done.
    + apply Hout. intros t Ht Hact%bool_decide_eq_true Hoff.
      destruct (Hrc t Ht) as (_ & Hr & Hc & _).
      assert (0 ≤ row t * max_length) by nia.
      apply Hk. unfold i, j.
      assert (Z.of_nat k = row t * max_length + col t) as -> by lia.
      destruct (offset_div_mod (row t) (col t) max_length) as [-> ->]; lia.
Qed.
End AttentionMask.

(** C5 — the grow path of the mask update. With [update_only] false, for
    every row [i] below [batch_beam_size] the launch copies the
    [current_length - 1] values of row [i] of the old mask (rows of width
    [current_length - 1]) to the same columns of row [i] of the new buffer
    (rows of width [max_length]) and stores 1 in column
    [current_length - 1]. *)
Theorem extend_mask_grow (stream : cudaStream_t)
    (mask_data old_mask_data : list Z)
    (batch_beam_size current_length max_length : Z) :
  0 ≤ batch_beam_size →
  1 ≤ current_length ≤ max_length →
  batch_beam_size * max_length ≤ INT_MAX - 255 →
  batch_beam_size * max_length ≤ Z.of_nat (length mask_data) →
  batch_beam_size * (current_length - 1) ≤ Z.of_nat (length old_mask_data) →
  ∃ mask',
    Launch_UpdateAttentionMask mask_data old_mask_data batch_beam_size
      current_length max_length false stream = Some mask' ∧
    ∀ i, 0 ≤ i < batch_beam_size →
      (∀ j, 0 ≤ j < current_length - 1 →
         is_Some (old_mask_data !! Z.to_nat (i * (current_length - 1) + j)) ∧
         mask' !! Z.to_nat (i * max_length + j)
           = old_mask_data !! Z.to_nat (i * (current_length - 1) + j)) ∧
      mask' !! Z.to_nat (i * max_length + (current_length - 1)) = Some 1.
Proof.
  intros Hrows Hcl Hmax Hlen Hold.
  destruct (CopyAndUpdateAttentionMask_lookup stream batch_beam_size
              current_length max_length Hrows mask_data old_mask_data)
    as (mask' & Hrun & _ & Hlook); [done..|].
  exists mask'. split; [done|]. intros i Hi. split.
  - intros j Hj.
    destruct (offset_bound i j batch_beam_size (current_length - 1))
      as [? ?]; [lia..|].
    split; [apply lookup_lt_is_Some_2; lia|].
    assert (0 ≤ i * max_length) by nia.
    rewrite Hlook. simpl. rewrite Z2Nat.id by lia.
    destruct (offset_div_mod i j max_length) as [-> ->]; [lia|].
    rewrite decide_True by lia. by rewrite decide_True by lia.
  - assert (0 ≤ i * max_length) by nia.
    rewrite Hlook. simpl. rewrite Z2Nat.id by lia.
    destruct (offset_div_mod i (current_length - 1) max_length) as [-> ->]; [lia|].
    rewrite decide_True by lia. by rewrite decide_False by lia.
Qed.

Lemma extend_mask_grow_witness :
  ∃ mask',
    Launch_UpdateAttentionMask [0; 0; 0; 0; 0; 0; 0; 0] [1; 0; 1; 1] 2 3 4
      false reversed = Some mask' ∧
    ∀ i, 0 ≤ i < 2 →
      (∀ j, 0 ≤ j < 3 - 1 →
         is_Some ([1; 0; 1; 1] !! Z.to_nat (i * (3 - 1) + j)) ∧
         mask' !! Z.to_nat (i * 4 + j)
           = [1; 0; 1; 1] !! Z.to_nat (i * (3 - 1) + j)) ∧
      mask' !! Z.to_nat (i * 4 + (3 - 1)) = Some 1.
Proof.
  apply extend_mask_grow.
  - lia.
  - lia.
  - rewrite INT_MAX_eq. lia.
  - simpl. lia.
  - simpl. lia.
Defined.

(** C7 — the fast path of the mask update. With [update_only] true the
    launch stores 1 in column [current_length] of every row below
    [batch_beam_size] and leaves every other cell of the buffer as it was:
    the other columns of these rows, and the rows from [batch_beam_size]
    on. *)
Theorem extend_mask_update_only (stream : cudaStream_t)
    (mask_data old_mask_data : list Z)
    (batch_beam_size current_length max_length : Z) :
  0 ≤ batch_beam_size →
  0 ≤ current_length < max_length →
  batch_beam_size * max_length ≤ INT_MAX →
  batch_beam_size * max_length ≤ Z.of_nat (length mask_data) →
  ∃ mask',
    Launch_UpdateAttentionMask mask_data old_mask_data batch_beam_size
      current_length max_length true stream = Some mask' ∧
    length mask' = length mask_data ∧
    (∀ i, 0 ≤ i < batch_beam_size →
       mask' !! Z.to_nat (i * max_length + current_length) = Some 1) ∧
    (∀ k : nat,
       (∀ i, 0 ≤ i < batch_beam_size →
          Z.of_nat k ≠ i * max_length + current_length) →
       mask' !! k = mask_data !! k).
Proof.
  intros Hrows Hcl Hmax Hlen.
  destruct (UpdateAttentionMask_lookup stream batch_beam_size current_length
              max_length Hrows mask_data old_mask_data)
    as (mask' & Hrun & Hlen' & Hlook); [done..|].
  exists mask'. split_and!; [done..| |].
  - intros i Hi. assert (0 ≤ i * max_length) by nia.
    rewrite Hlook, Z2Nat.id by lia.
    destruct (offset_div_mod i current_length max_length) as [-> ->]; [lia|].
    by rewrite decide_True by lia.
  - intros k Hk. rewrite Hlook. case_decide as Hdec; [|done].
    destruct Hdec as [Hrow Hcol]. exfalso.
    apply (Hk (Z.of_nat k `div` max_length)).
    + split; [apply Z.div_pos; lia|done].
    + pose proof (Z.div_mod (Z.of_nat k) max_length ltac:(lia)). lia.
Qed.

Lemma extend_mask_update_only_witness :
  ∃ mask',
    Launch_UpdateAttentionMask [1; 1; 0; 0; 1; 0; 0; 0; 7; 7] [] 2 2 4
      true reversed = Some mask' ∧
    length mask' = length [1; 1; 0; 0; 1; 0; 0; 0; 7; 7] ∧
    (∀ i, 0 ≤ i < 2 → mask' !! Z.to_nat (i * 4 + 2) = Some 1) ∧
    (∀ k : nat,
       (∀ i, 0 ≤ i < 2 → Z.of_nat k ≠ i * 4 + 2) →
       mask' !! k = [1; 1; 0; 0; 1; 0; 0; 0; 7; 7] !! k).
Proof.
  apply extend_mask_update_only.
  - lia.
  - lia.
  - rewrite INT_MAX_eq. lia.
  - simpl. lia.
Defined.

(** C10 — the fast path is idempotent. A second launch with [update_only]
    true and the same sizes, on the mask the first one produced, returns
    that mask unchanged, whatever the orders of the threads in the two
    launches. *)
Theorem extend_mask_update_only_idempotent (stream1 stream2 : cudaStream_t)
    (mask_data old_mask_data : list Z)
    (batch_beam_size current_length max_length : Z) :
  0 ≤ batch_beam_size →
  0 ≤ current_length < max_length →
  batch_beam_size * max_length ≤ INT_MAX →
  batch_beam_size * max_length ≤ Z.of_nat (length mask_data) →
  ∃ mask',
    Launch_UpdateAttentionMask mask_data old_mask_data batch_beam_size
      current_length max_length true stream1 = Some mask' ∧
    Launch_UpdateAttentionMask mask' old_mask_data batch_beam_size
      current_length max_length true stream2 = Some mask'.
Proof.
  intros Hrows Hcl Hmax Hlen.
  destruct (UpdateAttentionMask_lookup stream1 batch_beam_size current_length
              max_length Hrows mask_data old_mask_data)
    as (mask1 & Hrun1 & Hlen1 & Hlook1); [done..|].
  destruct (UpdateAttentionMask_lookup stream2 batch_beam_size current_length
              max_length Hrows mask1 old_mask_data)
    as (mask2 & Hrun2 & Hlen2 & Hlook2); [done|done|lia|].
  exists mask1. split; [done|]. rewrite Hrun2. f_equal.
  apply list_eq. intros k. rewrite Hlook2, Hlook1. by case_decide.
Qed.

Lemma extend_mask_update_only_idempotent_witness :
  ∃ mask',
    Launch_UpdateAttentionMask [1; 1; 0; 0; 1; 0; 0; 0] [] 2 2 4 true in_order
      = Some mask' ∧
    Launch_UpdateAttentionMask mask' [] 2 2 4 true reversed = Some mask'.
Proof.
  apply extend_mask_update_only_idempotent.
  - lia.
  - lia.
  - rewrite INT_MAX_eq. lia.
  - simpl. lia.
Defined.

(** C6 — the mask only grows. In both modes, an entry of the mask that is
    1 before the launch is 1 after it. On the fast path this holds for
    every cell of the buffer. On the grow path the mask before the launch
    is the old buffer: each of its entries that is 1 is copied as 1, and
    where the rows of the old mask are all 1 (the prefix of 1s of a causal
    mask) no cell of the new buffer that held 1 is reset either. *)
Theorem mask_monotone (stream : cudaStream_t)
    (mask_data old_mask_data : list Z)
    (batch_beam_size current_length max_length : Z) (update_only : bool) :
  0 ≤ batch_beam_size →
  (if update_only then 0 ≤ current_length < max_length
   else 1 ≤ current_length ≤ max_length) →
  batch_beam_size * max_length ≤ INT_MAX - 255 →
  batch_beam_size * max_length ≤ Z.of_nat (length mask_data) →
  (update_only = false →
   batch_beam_size * (current_length - 1) ≤ Z.of_nat (length old_mask_data)) →
  ∃ mask',
    Launch_UpdateAttentionMask mask_data old_mask_data batch_beam_size
      current_length max_length update_only stream = Some mask' ∧
    (update_only = false →
     ∀ i j, 0 ≤ i < batch_beam_size → 0 ≤ j < current_length - 1 →
       old_mask_data !! Z.to_nat (i * (current_length - 1) + j) = Some 1 →
       mask' !! Z.to_nat (i * max_length + j) = Some 1) ∧
    (∀ k : nat,
       (update_only = false →
        Z.of_nat k `div` max_length < batch_beam_size →
        ∀ j, 0 ≤ j < current_length - 1 →
          old_mask_data
            !! Z.to_nat (Z.of_nat k `div` max_length * (current_length - 1) + j)
          = Some 1) →
       mask_data !! k = Some 1 → mask' !! k = Some 1).
Proof.
  intros Hrows Hcl Hmax Hlen Hold. destruct update_only.
  - destruct (UpdateAttentionMask_lookup stream batch_beam_size current_length
                max_length Hrows mask_data old_mask_data)
      as (mask' & Hrun & _ & Hlook); [done|rewrite INT_MAX_eq in *; lia|done|].
    exists mask'. split_and!; [done|done|].
    intros k _ Hk. rewrite Hlook. by case_decide.
  - destruct (CopyAndUpdateAttentionMask_lookup stream batch_beam_size
                current_length max_length Hrows mask_data old_mask_data)
      as (mask' & Hrun & _ & Hlook); [done|done|done|by apply Hold|].
    exists mask'. split_and!; [done| |].
    + intros _ i j Hi Hj Hone. assert (0 ≤ i * max_length) by nia.
      rewrite Hlook. simpl. rewrite Z2Nat.id by lia.
      destruct (offset_div_mod i j max_length) as [-> ->]; [lia|].
      rewrite decide_True by lia. by rewrite decide_True by lia.
    + intros k Hprefix Hk. rewrite Hlook. simpl.
      case_decide as Hin; [|done]. destruct Hin as [Hrow Hcol].
      case_decide as Hlast; [|done].
      apply Hprefix; [done..|].
      split; [apply Z.mod_pos_bound; lia|done].
Qed.

Lemma mask_monotone_witness :
  (∃ mask',
     Launch_UpdateAttentionMask [1; 1; 0; 0; 1; 1; 0; 0] [] 2 2 4 true in_order
       = Some mask' ∧
     (true = false →
      ∀ i j, 0 ≤ i < 2 → 0 ≤ j < 2 - 1 →
        [] !! Z.to_nat (i * (2 - 1) + j) = Some 1 →
        mask' !! Z.to_nat (i * 4 + j) = Some 1) ∧
     (∀ k : nat,
        (true = false → Z.of_nat k `div` 4 < 2 →
         ∀ j, 0 ≤ j < 2 - 1 →
           [] !! Z.to_nat (Z.of_nat k `div` 4 * (2 - 1) + j) = Some 1) →
        [1; 1; 0; 0; 1; 1; 0; 0] !! k = Some 1 → mask' !! k = Some 1)) ∧
  (∃ mask',
     Launch_UpdateAttentionMask [1; 1; 0; 0; 1; 1; 0; 0] [1; 1; 1; 1] 2 3 4
       false in_order = Some mask' ∧
     (false = false →
      ∀ i j, 0 ≤ i < 2 → 0 ≤ j < 3 - 1 →
        [1; 1; 1; 1] !! Z.to_nat (i * (3 - 1) + j) = Some 1 →
        mask' !! Z.to_nat (i * 4 + j) = Some 1) ∧
     (∀ k : nat,
        (false = false → Z.of_nat k `div` 4 < 2 →
         ∀ j, 0 ≤ j < 3 - 1 →
           [1; 1; 1; 1] !! Z.to_nat (Z.of_nat k `div` 4 * (3 - 1) + j) = Some 1) →
        [1; 1; 0; 0; 1; 1; 0; 0] !! k = Some 1 → mask' !! k = Some 1)).
Proof.
  split.
  - apply (mask_monotone in_order [1; 1; 0; 0; 1; 1; 0; 0] [] 2 2 4 true).
    + lia.
    + lia.
    + rewrite INT_MAX_eq. lia.
    + simpl. lia.
    + discriminate.
  - apply (mask_monotone in_order [1; 1; 0; 0; 1; 1; 0; 0] [1; 1; 1; 1] 2 3 4 false).
    + lia.
    + lia.
    + rewrite INT_MAX_eq. lia.
    + simpl. lia.
    + intros _. simpl. lia.
Defined.

(** ** Beam cache indirection *)

(** the kernel writes the target table only *)
Lemma UpdateIndirectionKernel_const cu mem B W isl ml cl mem' :
  UpdateDecoderMaskedMultiHeadAttentionCacheIndirectionKernel
    cu mem B W isl ml cl = Some mem' →
  src_indir_cache mem' = src_indir_cache mem ∧ beam_ids mem' = beam_ids mem.
Proof.
  unfold UpdateDecoderMaskedMultiHeadAttentionCacheIndirectionKernel.
  intros Hk.
  apply bind_Some in Hk as (batch_id & _ & Hk).
  apply bind_Some in Hk as (beam_id & _ & Hk).
  case_decide; [by injection Hk as <-|].
  apply bind_Some in Hk as (beam & _ & Hk).
  apply bind_Some in Hk as (src_beam & _ & Hk).
  repeat case_decide.
  - apply fmap_Some in Hk as (tgt & _ & ->). done.
  - apply fmap_Some in Hk as (tgt & _ & ->). done.
  - apply bind_Some in Hk as (v & _ & Hk).
    apply fmap_Some in Hk as (tgt & _ & ->). done.
Qed.

(** so a run of the kernel is a run on the target table *)
Lemma run_indirection {T} (body : T → indirection → option indirection)
    ts tgt src beam :
  (∀ t tgt m', body t (Indirection tgt src beam) = Some m' →
               src_indir_cache m' = src ∧ beam_ids m' = beam) →
  run body ts (Indirection tgt src beam)
  = (λ tgt', Indirection tgt' src beam)
      <$> run (λ t tgt, tgt_indir_cache <$> body t (Indirection tgt src beam))
              ts tgt.
Proof.
  intros Hconst. revert tgt. induction ts as [|t ts IH]; intros tgt; [done|].
  simpl. destruct (body t (Indirection tgt src beam)) as [m'|] eqn:E; [|done].
  destruct (Hconst _ _ _ E) as [Hs Hb]. destruct m' as [tgt' src' beam'].
  simpl in *. subst. apply IH.
Qed.

Lemma elem_of_threads_2d gx gy cu :
  cu ∈ threads (Dim3 gx gy 1) (Dim3 32 1 1) →
  0 ≤ time_of cu < gx * 32 ∧ 0 ≤ cu.(blockIdx).(y) < gy ∧
  cu = thread_2d gx gy (time_of cu) cu.(blockIdx).(y).
Proof.
  intros (Hg & Hb & Hbi & Hti)%elem_of_threads.
  apply elem_of_dim3_range in Hbi, Hti. simpl in *.
  destruct cu as [gd bd [bx by_ bz] [tx ty tz]]; simpl in *. subst gd bd.
  unfold time_of, thread_2d; simpl.
  assert (bz = 0 ∧ ty = 0 ∧ tz = 0) as (-> & -> & ->) by lia.
  split; [lia|]. split; [lia|].
  rewrite Z.div_add, Z.div_small, Z.add_0_l by lia.
  rewrite Z.mod_add, Z.mod_small by lia. done.
Qed.

Lemma thread_2d_elem_of gx gy t bb :
  0 ≤ t < gx * 32 → 0 ≤ bb < gy →
  thread_2d gx gy t bb ∈ threads (Dim3 gx gy 1) (Dim3 32 1 1) ∧
  time_of (thread_2d gx gy t bb) = t.
Proof.
  intros Ht Hbb. split.
  - apply elem_of_threads. split_and!; [done..| |]; apply elem_of_dim3_range; simpl.
    + split_and!; try lia. { apply Z.div_pos; lia. }
      apply Z.div_lt_upper_bound; lia.
    + pose proof (Z.mod_pos_bound t 32). lia.
  - unfold time_of, thread_2d; simpl. pose proof (Z.div_mod t 32). lia.
Qed.

(** the offsets of the kernel for the row [bb] of the table *)
Lemma indirection_bounds B W ml bb t s :
  0 < W → 0 ≤ bb < B * W → 0 ≤ t < ml → 0 ≤ s < W →
  0 ≤ bb `div` W < B ∧
  0 ≤ bb `div` W * W ≤ bb ∧
  0 ≤ bb `div` W * W * ml ≤ bb * ml ∧
  0 ≤ bb `mod` W * ml ∧
  bb * ml = bb `div` W * W * ml + bb `mod` W * ml ∧
  bb * ml + t < B * W * ml ∧
  0 ≤ s * ml ∧
  bb `div` W * W * ml + s * ml + t < B * W * ml.
Proof.
  intros HW Hbb Ht Hs.
  pose proof (Z.div_mod bb W ltac:(lia)) as Hdm.
  pose proof (Z.mod_pos_bound bb W ltac:(lia)) as Hmod.
  assert (0 ≤ bb `div` W) by (apply Z.div_pos; lia).
  assert (bb `div` W < B) by (apply Z.div_lt_upper_bound; lia).
  set (q := bb `div` W) in *. set (r := bb `mod` W) in *. clearbody q r.
  assert (0 ≤ q * W) by nia.
  assert (0 ≤ q * W * ml) by nia.
  assert (0 ≤ r * ml) by nia.
  assert (0 ≤ s * ml) by nia.
  assert (bb * ml = q * W * ml + r * ml) by nia.
  assert ((q * W + s) * ml + t < (q * W + W) * ml) by nia.
  assert ((q + 1) * W * ml ≤ B * W * ml) by nia.
  assert ((bb + 1) * ml ≤ B * W * ml) by nia.
  split_and!; lia.
Qed.

Section UpdateIndirection.
Variable stream : cudaStream_t.
Variables batch_size beam_width input_seq_length max_seq_length current_length : Z.
Hypothesis batch_nonneg : 0 ≤ batch_size.
Hypothesis beam_pos : 0 < beam_width.
Hypothesis length_range : 1 ≤ current_length ≤ max_seq_length.
Hypothesis length_int : max_seq_length ≤ INT_MAX - 31.
Hypothesis size_int : batch_size * beam_width * max_seq_length ≤ INT_MAX.

Lemma UpdateIndirection_lookup mem :
  batch_size * beam_width * max_seq_length
    ≤ Z.of_nat (length mem.(tgt_indir_cache)) →
  batch_size * beam_width * max_seq_length
    ≤ Z.of_nat (length mem.(src_indir_cache)) →
  batch_size * beam_width ≤ Z.of_nat (length mem.(beam_ids)) →
  (∀ (k : nat) beam, Z.of_nat k < batch_size * beam_width →
     mem.(beam_ids) !! k = Some beam → 0 ≤ beam) →
  ∃ tgt',
    UpdateDecoderMaskedMultiHeadAttentionCacheIndirection mem batch_size
      beam_width input_seq_length max_seq_length current_length stream
    = Some (set_tgt mem tgt') ∧
    length tgt' = length mem.(tgt_indir_cache) ∧
    ∀ k : nat, tgt' !! k =
      let bb := Z.of_nat k `div` max_seq_length in
      let t := Z.of_nat k `mod` max_seq_length in
      if decide (bb < batch_size * beam_width ∧ t < current_length)
      then Some (indirection_value mem.(src_indir_cache) mem.(beam_ids)
                   beam_width input_seq_length max_seq_length current_length
                   bb t)
      else mem.(tgt_indir_cache) !! k.
Proof.
  destruct mem as [tgt src beam]. simpl. intros Htgt Hsrc Hbeam Hids.
  rewrite INT_MAX_eq in *.
  unfold UpdateDecoderMaskedMultiHeadAttentionCacheIndirection, launch.
  set (BW := batch_size * beam_width) in *.
  assert (0 ≤ BW) by (unfold BW; nia).
  assert (BW ≤ BW * max_seq_length) by nia.
  (* the grid *)
  change (dim3_1 32) with (Dim3 32 1 1). cbn [x].
  unfold dim3_2. unfold mul32 at 1. fold BW.
  rewrite (i32_small BW) by lia. rewrite (u32_small BW) by lia.
  unfold subu at 1, addu at 1. rewrite (u32_small current_length) by lia.
  rewrite (u32_small (current_length + 32)) by lia.
  rewrite (u32_small (current_length + 32 - 1)) by lia.
  set (gx := (current_length + 32 - 1) `div` 32).
  assert (current_length ≤ gx * 32 ≤ current_length + 31) as Hgx.
  { unfold gx. pose proof (Z.div_mod (current_length + 32 - 1) 32).
    pose proof (Z.mod_pos_bound (current_length + 32 - 1) 32). lia. }
  rewrite (u32_small gx) by lia.
  set (ts := order stream 0 builtins (threads (Dim3 gx BW 1) (Dim3 32 1 1))).
  assert (∀ t, t ∈ ts ↔ t ∈ threads (Dim3 gx BW 1) (Dim3 32 1 1)) as Hts
    by (intros; apply elem_of_order).
  rewrite run_indirection
    by (intros ???; apply (UpdateIndirectionKernel_const _ (Indirection _ _ _))).
  cbv beta.
  set (g := λ t tgt,
         tgt_indir_cache <$>
           UpdateDecoderMaskedMultiHeadAttentionCacheIndirectionKernel
             t (Indirection tgt src beam) batch_size beam_width
             input_seq_length max_seq_length current_length).
  destruct (run_update g (length tgt)
              (λ cu, bool_decide (time_of cu < current_length))
              (λ cu, y (blockIdx cu) * max_seq_length + time_of cu)
              (λ cu _, indirection_value src beam beam_width input_seq_length
                         max_seq_length current_length
                         (y (blockIdx cu)) (time_of cu))
              ts tgt)
    as (tgt' & Hrun & Hlen' & Hin & Hout); [| | |done|].
  - apply NoDup_order, NoDup_threads.
  - apply Forall_forall. intros cu Hcu%Hts. unfold updates_cell.
    pose proof (elem_of_threads_2d _ _ _ Hcu) as (Htime & Hbb & Ecu).
    set (t := time_of cu) in *. set (bb := y (blockIdx cu)) in *.
    unfold g, UpdateDecoderMaskedMultiHeadAttentionCacheIndirectionKernel.
    rewrite Ecu. cbn [thread_2d threadIdx blockIdx blockDim x y].
    pose proof (Z.div_mod t 32 ltac:(lia)) as Hdm.
    pose proof (Z.mod_pos_bound t 32 ltac:(lia)) as Hmod.
    assert (0 ≤ t `div` 32) by (apply Z.div_pos; lia).
    replace (i32 (t `mod` 32 + t `div` 32 * 32)%uint) with t
      by (int_simpl; lia).
    replace (i32 (0 + bb * 1)%uint) with bb by (int_simpl; lia).
    set (batch_id := bb `div` beam_width). set (beam_id := bb `mod` beam_width).
    replace (beam_width * batch_size)%int with BW
      by (unfold BW; int_simpl; lia).
    case_bool_decide as Hact.
    + destruct (indirection_bounds batch_size beam_width max_seq_length bb t 0)
        as (Hbid & Hbw & Hbase & Hbeam_off & Hrow & Hend & _ & _); [lia..|].
      fold batch_id beam_id BW in Hbid, Hbw, Hbase, Hbeam_off, Hrow, Hend.
      pose proof (Z.div_mod bb beam_width ltac:(lia)) as Hbdm.
      fold batch_id beam_id in Hbdm.
      split; [lia|]. intros buf v Hbuf _.
      rewrite div32_nonneg, rem32_nonneg by lia. rewrite !option_bind_Some.
      fold batch_id beam_id.
      rewrite decide_False by lia. cbn [beam_ids src_indir_cache tgt_indir_cache].
      replace (batch_id * beam_width + beam_id)%int with bb by (int_simpl; lia).
      rewrite load_lookup by lia.
      destruct (lookup_lt_is_Some_2 beam (Z.to_nat bb)) as [bm Hbm]; [lia|].
      rewrite Hbm. rewrite option_bind_Some.
      assert (0 ≤ bm) by (apply (Hids (Z.to_nat bb) bm); [lia|done]).
      rewrite rem32_nonneg by lia. rewrite option_bind_Some.
      pose proof (Z.mod_pos_bound bm beam_width ltac:(lia)) as Hsb.
      replace (batch_id * beam_width * max_seq_length
               + beam_id * max_seq_length + t)%int
        with (bb * max_seq_length + t) by (int_simpl; lia).
      unfold indirection_value. fold batch_id beam_id. rewrite Hbm.
      change (default 0 (Some bm)) with bm.
      case_decide as Hprompt.
      { rewrite store_Some by lia. done. }
      replace (current_length - 1)%int with (current_length - 1)
        by (int_simpl; lia).
      case_decide as Hlast.
      { rewrite store_Some by lia. done. }
      destruct (indirection_bounds batch_size beam_width max_seq_length bb t
                  (bm `mod` beam_width))
        as (_ & _ & _ & _ & _ & _ & Hsrc_off & Hsrc_end); [lia..|].
      fold batch_id BW in Hsrc_off, Hsrc_end.
      set (src_beam := bm `mod` beam_width) in *.
      replace (batch_id * beam_width * max_seq_length
               + src_beam * max_seq_length + t)%int
        with (batch_id * beam_width * max_seq_length
               + src_beam * max_seq_length + t) by (int_simpl; lia).
      rewrite load_lookup by lia.
      destruct (lookup_lt_is_Some_2 src
                  (Z.to_nat (batch_id * beam_width * max_seq_length
                             + src_beam * max_seq_length + t)))
        as [sv Hsv]; [lia|].
      rewrite Hsv. rewrite option_bind_Some.
      rewrite store_Some by lia. done.
    + intros buf _.
      rewrite div32_nonneg, rem32_nonneg by lia. rewrite !option_bind_Some.
      rewrite decide_True by lia. done.
  - intros t1 t2 Ht1%Hts Ht2%Hts Ha1%bool_decide_eq_true Ha2%bool_decide_eq_true Hoff.
    pose proof (elem_of_threads_2d _ _ _ Ht1) as (Htime1 & Hbb1 & E1).
    pose proof (elem_of_threads_2d _ _ _ Ht2) as (Htime2 & Hbb2 & E2).
    destruct (offset_div_mod (y (blockIdx t1)) (time_of t1) max_seq_length)
      as [Hd1 Hm1]; [lia|].
    destruct (offset_div_mod (y (blockIdx t2)) (time_of t2) max_seq_length)
      as [Hd2 Hm2]; [lia|].
    rewrite Hoff in Hd1, Hm1. rewrite E1, E2. congruence.
  - exists tgt'. split_and!; [by rewrite Hrun|done|]. intros k. simpl.
    pose proof (Z.div_mod (Z.of_nat k) max_seq_length ltac:(lia)) as Hdm.
    pose proof (Z.mod_pos_bound (Z.of_nat k) max_seq_length ltac:(lia)) as Hmod.
    assert (0 ≤ Z.of_nat k `div` max_seq_length) by (apply Z.div_pos; lia).
    set (bb := Z.of_nat k `div` max_seq_length) in *.
    set (t := Z.of_nat k `mod` max_seq_length) in *.
    case_decide as Hk.
    + destruct Hk as [Hrow Hcol].
      destruct (thread_2d_elem_of gx BW t bb) as [Hin_t Htime]; [lia..|].
      apply Hts in Hin_t. specialize (Hin _ Hin_t). rewrite Htime in Hin.
      cbn [thread_2d blockIdx y] in Hin.
      replace (bb * max_seq_length + t) with (Z.of_nat k) in Hin by lia.
      rewrite Nat2Z.id in Hin. rewrite Hin by (by apply bool_decide_eq_true).
      destruct (offset_bound bb t BW max_seq_length) as [? ?]; [lia..|].
      destruct (lookup_lt_is_Some_2 tgt k) as [v ->]; [lia|]. done.
    + apply Hout. intros cu Hcu%Hts Hact%bool_decide_eq_true Hoff.
      pose proof (elem_of_threads_2d _ _ _ Hcu) as (Htime & Hbb & _).
      assert (0 ≤ y (blockIdx cu) * max_seq_length)
        by (apply Z.mul_nonneg_nonneg; lia).
      apply Hk. unfold bb, t.
      assert (Z.of_nat k = y (blockIdx cu) * max_seq_length + time_of cu)
        as -> by lia.
      destruct (offset_div_mod (y (blockIdx cu)) (time_of cu) max_seq_length)
        as [-> ->]; lia.
Qed.
End UpdateIndirection.

(** the cell of batch entry [b], beam [w] and time step [t] belongs to the
    row [b * W + w] of the table *)
Lemma indirection_offset b w t B W ml :
  0 ≤ b < B → 0 ≤ w < W → 0 ≤ t < ml →
  let k := b * W * ml + w * ml + t in
  0 ≤ k ∧ k `div` ml = b * W + w ∧ k `mod` ml = t ∧
  b * W + w < B * W ∧ (b * W + w) `div` W = b ∧ (b * W + w) `mod` W = w.
Proof.
  intros Hb Hw Ht k.
  assert (k = (b * W + w) * ml + t) as -> by (unfold k; lia).
  destruct (offset_div_mod (b * W + w) t ml) as [-> ->]; [lia|].
  destruct (offset_div_mod b w W) as [-> ->]; [lia|].
  destruct (offset_bound b w B W) as [? ?]; [lia..|].
  split_and!; try done. nia.
Qed.

(** C2, as amended — the update of the indirection table. For every batch
    entry [b], beam [w] and time step [t] below [current_length], the
    launch writes 0 at the prompt positions ([t < input_seq_length]); at the
    other positions it writes [w] when [t = current_length - 1], and
    otherwise the entry of the source table for the beam
    [beam_ids[b,w] mod W] at the same time step. *)
Theorem update_indirection_cases (stream : cudaStream_t) (mem : indirection)
    (batch_size beam_width input_seq_length max_seq_length current_length : Z) :
  0 ≤ batch_size → 0 < beam_width →
  1 ≤ current_length ≤ max_seq_length →
  max_seq_length ≤ INT_MAX - 31 →
  batch_size * beam_width * max_seq_length ≤ INT_MAX →
  batch_size * beam_width * max_seq_length
    ≤ Z.of_nat (length mem.(tgt_indir_cache)) →
  batch_size * beam_width * max_seq_length
    ≤ Z.of_nat (length mem.(src_indir_cache)) →
  batch_size * beam_width ≤ Z.of_nat (length mem.(beam_ids)) →
  (∀ (k : nat) beam, Z.of_nat k < batch_size * beam_width →
     mem.(beam_ids) !! k = Some beam → 0 ≤ beam) →
  ∃ mem',
    UpdateDecoderMaskedMultiHeadAttentionCacheIndirection mem batch_size
      beam_width input_seq_length max_seq_length current_length stream
    = Some mem' ∧
    ∀ b w t, 0 ≤ b < batch_size → 0 ≤ w < beam_width →
             0 ≤ t < current_length →
      let tgt := mem'.(tgt_indir_cache)
                   !! Z.to_nat (b * beam_width * max_seq_length
                                + w * max_seq_length + t) in
      (t < input_seq_length → tgt = Some 0) ∧
      (input_seq_length ≤ t → t = current_length - 1 → tgt = Some w) ∧
      (input_seq_length ≤ t → t ≠ current_length - 1 →
       ∃ beam v,
         mem.(beam_ids) !! Z.to_nat (b * beam_width + w) = Some beam ∧
         mem.(src_indir_cache)
           !! Z.to_nat (b * beam_width * max_seq_length
                        + beam `mod` beam_width * max_seq_length + t) = Some v ∧
         tgt = Some v).
Proof.
  intros HB HW Hcl Hml Hsize Htgt Hsrc Hbeam Hids.
  destruct (UpdateIndirection_lookup stream batch_size beam_width
              input_seq_length max_seq_length current_length
              HB HW Hcl Hml Hsize mem Htgt Hsrc Hbeam Hids)
    as (tgt' & Hrun & Hlen & Hlook).
  exists (set_tgt mem tgt'). split; [done|]. intros b w t Hb Hw Ht. simpl.
  destruct (indirection_offset b w t batch_size beam_width max_seq_length)
    as (Hk & Hdiv & Hmod & Hbb & Hb' & Hw'); [lia..|].
  rewrite Hlook. simpl. rewrite Z2Nat.id by lia. rewrite Hdiv, Hmod.
  rewrite decide_True by lia. unfold indirection_value. rewrite Hb', Hw'.
  split_and!.
  - intros Hprompt. by rewrite decide_True.
  - intros Hgen Hlast. rewrite decide_False by lia. by rewrite decide_True.
  - intros Hgen Hmid. rewrite decide_False by lia. rewrite decide_False by done.
    assert (0 ≤ b * beam_width) by nia.
    destruct (lookup_lt_is_Some_2 mem.(beam_ids) (Z.to_nat (b * beam_width + w)))
      as [beam Hbm]; [lia|].
    assert (0 ≤ beam) by (apply (Hids (Z.to_nat (b * beam_width + w))); [lia|done]).
    pose proof (Z.mod_pos_bound beam beam_width ltac:(lia)) as Hsb.
    destruct (indirection_offset b (beam `mod` beam_width) t batch_size
                beam_width max_seq_length)
      as (Hk2 & Hdiv2 & _ & Hbb2 & _ & _); [lia..|].
    cbv zeta in Hk2, Hdiv2.
    set (k2 := b * beam_width * max_seq_length
               + beam `mod` beam_width * max_seq_length + t) in *.
    assert (k2 < batch_size * beam_width * max_seq_length).
    { pose proof (Z.div_mod k2 max_seq_length ltac:(lia)).
      pose proof (Z.mod_pos_bound k2 max_seq_length ltac:(lia)). nia. }
    destruct (lookup_lt_is_Some_2 mem.(src_indir_cache) (Z.to_nat k2))
      as [v Hv]; [lia|].
    exists beam, v. rewrite Hbm. simpl. fold k2. rewrite Hv. done.
Qed.

Lemma update_indirection_cases_witness :
  ∃ mem',
    UpdateDecoderMaskedMultiHeadAttentionCacheIndirection
      (Indirection (replicate 12 9)
                   [10; 11; 12; 13; 14; 15; 20; 21; 22; 23; 24; 25] [1; 1])
      1 2 3 6 5 reversed = Some mem' ∧
    tgt_indir_cache mem' !! Z.to_nat (0 * 2 * 6 + 1 * 6 + 2) = Some 0 ∧
    tgt_indir_cache mem' !! Z.to_nat (0 * 2 * 6 + 1 * 6 + 4) = Some 1 ∧
    tgt_indir_cache mem' !! Z.to_nat (0 * 2 * 6 + 0 * 6 + 3) = Some 23.
Proof.
  destruct (update_indirection_cases reversed
              (Indirection (replicate 12 9)
                 [10; 11; 12; 13; 14; 15; 20; 21; 22; 23; 24; 25] [1; 1])
              1 2 3 6 5) as (mem' & Hrun & Hcases).
  - lia.
  - lia.
  - lia.
  - rewrite INT_MAX_eq. lia.
  - rewrite INT_MAX_eq. lia.
  - simpl. lia.
  - simpl. lia.
  - simpl. lia.
  - intros [|[|k]] beam Hk; simpl; intros [= <-] || lia; lia.
  - exists mem'. split; [done|]. split_and!.
    + apply (Hcases 0 1 2); lia.
    + apply (Hcases 0 1 4); lia.
    + destruct (Hcases 0 0 3 ltac:(lia) ltac:(lia) ltac:(lia))
        as (_ & _ & (beam & v & Hbeam & Hv & ->)); [lia..|].
      injection Hbeam as <-. injection Hv as <-. done.
Defined.

(** C2, as stated, fails where the prompt fills the table: with
    [input_seq_length = current_length = 1] the time step 0 is both a
    prompt position and the newest one, and the kernel writes 0 for beam 1
    as well, not the beam's own index 1. *)
Lemma update_indirection_overlap :
  0 < 1 ≤ 1 ∧ 1 ≤ 2 ∧
  ∃ mem',
    UpdateDecoderMaskedMultiHeadAttentionCacheIndirection
      (Indirection [7; 7; 7; 7] [5; 5; 5; 5] [0; 1]) 1 2 1 2 1 in_order
    = Some mem' ∧
    (0 : Z) = 1 - 1 ∧
    tgt_indir_cache mem' !! Z.to_nat (0 * 2 * 2 + 1 * 2 + 0) = Some 0 ∧
    tgt_indir_cache mem' !! Z.to_nat (0 * 2 * 2 + 1 * 2 + 0) ≠ Some 1.
Proof.
  split; [lia|]. split; [lia|]. eexists. split; [vm_compute; reflexivity|].
  split; [reflexivity|]. split; [reflexivity|discriminate].
Qed.

(** C9 — the frame of the indirection update. The launch leaves the source
    table and the beam ids as they were, and in the target table it writes
    only the cells of the time steps below [current_length] of the
    [B * W] rows: every cell that is not one of these keeps its value, in
    particular those of the time steps from [current_length] to
    [max_seq_length]. *)
Theorem update_indirection_frame (stream : cudaStream_t) (mem : indirection)
    (batch_size beam_width input_seq_length max_seq_length current_length : Z) :
  0 ≤ batch_size → 0 < beam_width →
  1 ≤ current_length ≤ max_seq_length →
  max_seq_length ≤ INT_MAX - 31 →
  batch_size * beam_width * max_seq_length ≤ INT_MAX →
  batch_size * beam_width * max_seq_length
    ≤ Z.of_nat (length mem.(tgt_indir_cache)) →
  batch_size * beam_width * max_seq_length
    ≤ Z.of_nat (length mem.(src_indir_cache)) →
  batch_size * beam_width ≤ Z.of_nat (length mem.(beam_ids)) →
  (∀ (k : nat) beam, Z.of_nat k < batch_size * beam_width →
     mem.(beam_ids) !! k = Some beam → 0 ≤ beam) →
  ∃ mem',
    UpdateDecoderMaskedMultiHeadAttentionCacheIndirection mem batch_size
      beam_width input_seq_length max_seq_length current_length stream
    = Some mem' ∧
    mem'.(src_indir_cache) = mem.(src_indir_cache) ∧
    mem'.(beam_ids) = mem.(beam_ids) ∧
    length mem'.(tgt_indir_cache) = length mem.(tgt_indir_cache) ∧
    (∀ k : nat,
       (∀ b w t, 0 ≤ b < batch_size → 0 ≤ w < beam_width →
                 0 ≤ t < current_length →
          Z.of_nat k ≠ b * beam_width * max_seq_length + w * max_seq_length + t) →
       mem'.(tgt_indir_cache) !! k = mem.(tgt_indir_cache) !! k) ∧
    (∀ b w t, 0 ≤ b < batch_size → 0 ≤ w < beam_width →
              current_length ≤ t < max_seq_length →
       mem'.(tgt_indir_cache)
         !! Z.to_nat (b * beam_width * max_seq_length + w * max_seq_length + t)
       = mem.(tgt_indir_cache)
         !! Z.to_nat (b * beam_width * max_seq_length + w * max_seq_length + t)).
Proof.
  intros HB HW Hcl Hml Hsize Htgt Hsrc Hbeam Hids.
  destruct (UpdateIndirection_lookup stream batch_size beam_width
              input_seq_length max_seq_length current_length
              HB HW Hcl Hml Hsize mem Htgt Hsrc Hbeam Hids)
    as (tgt' & Hrun & Hlen & Hlook).
  exists (set_tgt mem tgt'). simpl. split_and!; [done..| |].
  - intros k Hk. rewrite Hlook. simpl. case_decide as Hin; [|done].
    destruct Hin as [Hrow Hcol]. exfalso.
    pose proof (Z.div_mod (Z.of_nat k) max_seq_length ltac:(lia)) as Hdm.
    pose proof (Z.mod_pos_bound (Z.of_nat k) max_seq_length ltac:(lia)) as Hmod.
    assert (0 ≤ Z.of_nat k `div` max_seq_length) as Hbb by (apply Z.div_pos; lia).
    set (bb := Z.of_nat k `div` max_seq_length) in *.
    pose proof (Z.div_mod bb beam_width ltac:(lia)) as Hbdm.
    pose proof (Z.mod_pos_bound bb beam_width ltac:(lia)) as Hbmod.
    apply (Hk (bb `div` beam_width) (bb `mod` beam_width)
              (Z.of_nat k `mod` max_seq_length)).
    + split; [apply Z.div_pos; lia|]. apply Z.div_lt_upper_bound; lia.
    + done.
    + lia.
    + nia.
  - intros b w t Hb Hw Ht.
    destruct (indirection_offset b w t batch_size beam_width max_seq_length)
      as (Hk & Hdiv & Hmod & _); [lia..|].
    rewrite Hlook. simpl. rewrite Z2Nat.id by lia. rewrite Hmod.
    by rewrite decide_False by lia.
Qed.

Lemma update_indirection_frame_witness :
  ∃ mem',
    UpdateDecoderMaskedMultiHeadAttentionCacheIndirection
      (Indirection (replicate 12 9)
                   [10; 11; 12; 13; 14; 15; 20; 21; 22; 23; 24; 25] [1; 1])
      1 2 3 6 5 in_order = Some mem' ∧
    src_indir_cache mem' = [10; 11; 12; 13; 14; 15; 20; 21; 22; 23; 24; 25] ∧
    beam_ids mem' = [1; 1] ∧
    tgt_indir_cache mem' !! Z.to_nat (0 * 2 * 6 + 1 * 6 + 5)
    = replicate 12 9 !! Z.to_nat (0 * 2 * 6 + 1 * 6 + 5).
Proof.
  destruct (update_indirection_frame in_order
              (Indirection (replicate 12 9)
                 [10; 11; 12; 13; 14; 15; 20; 21; 22; 23; 24; 25] [1; 1])
              1 2 3 6 5) as (mem' & Hrun & Hsrc & Hbeam & _ & _ & Hrest).
  - lia.
  - lia.
  - lia.
  - rewrite INT_MAX_eq. lia.
  - rewrite INT_MAX_eq. lia.
  - simpl. lia.
  - simpl. lia.
  - simpl. lia.
  - intros [|[|k]] beam Hk; simpl; intros [= <-] || lia; lia.
  - exists mem'. split_and!; [done..|]. apply (Hrest 0 1 5); lia.
Defined.

(** ** End-of-sequence tokens *)

Lemma SFltb_rank a b :
  SFltb a b = true ↔
  a ≠ S754_nan ∧ b ≠ S754_nan ∧ rank_lt (float_rank a) (float_rank b).
Proof.
  unfold SFltb, SFcompare, rank_lt.
  destruct a as [sa|sa| |sa ma ea], b as [sb|sb| |sb mb eb];
    try destruct sa; try destruct sb; simpl;
    try change (Pos.compare_cont Eq ma mb) with (Pos.compare ma mb);
    try destruct (Z.compare_spec ea eb);
    try destruct (Pos.compare_spec ma mb); simpl;
    (split; [intros Hlt; try done; split_and!; try done; lia
            |intros (Ha & Hb & Hlt); try done; lia]).
Qed.

Lemma SFltb_irrefl a : SFltb a a = false.
Proof.
  destruct (SFltb a a) eqn:E; [|done].
  apply SFltb_rank in E as (_ & _ & E). unfold rank_lt in E. lia.
Qed.

Lemma SFltb_trans a b c :
  SFltb a b = true → SFltb b c = true → SFltb a c = true.
Proof.
  rewrite !SFltb_rank. unfold rank_lt. intros (? & ? & ?) (? & ? & ?).
  split_and!; [done..|lia].
Qed.

(** a number that is not NaN is above [a] or below [c] when [a < c] *)
Lemma SFltb_cotrans a b c :
  SFltb a c = true → b ≠ S754_nan → SFltb a b = true ∨ SFltb b c = true.
Proof.
  rewrite !SFltb_rank. intros (? & ? & Hac) ?.
  assert (rank_lt (float_rank a) (float_rank b)
          ∨ rank_lt (float_rank b) (float_rank c)) as [Hab|Hbc]
    by (unfold rank_lt in *; lia).
  - by left.
  - by right.
Qed.

Lemma SFltb_not_nan a b : SFltb a b = true → a ≠ S754_nan ∧ b ≠ S754_nan.
Proof. rewrite SFltb_rank. tauto. Qed.

(** [lowest()] is finite: it is not the negative infinity, which is below it *)
Lemma float_lowest_finite :
  float_lowest ≠ float_neg_infinity ∧
  SFltb float_neg_infinity float_lowest = true.
Proof. split; [discriminate|reflexivity]. Qed.

Lemma float_lowest_eq s : SFcompare float_lowest s = Some Eq → s = float_lowest.
Proof.
  unfold float_lowest, SFcompare.
  destruct s as [s|s| |s m e]; try done; try (by destruct s).
  destruct s; [|done].
  destruct (Z.compare_spec 104 e); try done. subst e.
  change (Pos.compare_cont Eq ?a m) with (Pos.compare a m).
  destruct (Pos.compare_spec (2 ^ 24 - 1) m); try done. by subst m.
Qed.

(** the fold of [std::max] from a number [m]: the result is [m] or one of
    the scores, and neither [m] nor a score is above it *)
Lemma foldl_float_max_spec m scores :
  m ≠ S754_nan →
  let M := foldl float_max m scores in
  M ≠ S754_nan ∧ (M = m ∨ M ∈ scores) ∧ SFltb M m = false ∧
  (∀ s, s ∈ scores → SFltb M s = false).
Proof.
  revert m. induction scores as [|v scores IH]; intros m Hm; simpl.
  { split_and!; [done|by left|apply SFltb_irrefl|by intros ? ?%elem_of_nil]. }
  assert (float_max m v ≠ S754_nan) as Hm1.
  { unfold float_max. destruct (SFltb m v) eqn:Hmv; [|done].
    by apply SFltb_not_nan in Hmv as [_ ?]. }
  destruct (IH (float_max m v) Hm1) as (Hnan & Hin & Hge & Hall).
  set (M := foldl float_max (float_max m v) scores) in *.
  assert (SFltb M m = false ∧ SFltb M v = false) as [HMm HMv].
  { unfold float_max in Hge. destruct (SFltb m v) eqn:Hmv.
    - split; [|done]. destruct (SFltb M m) eqn:E; [|done].
      by rewrite (SFltb_trans M m v) in Hge.
    - split; [done|]. destruct (SFltb M v) eqn:E; [|done].
      destruct (SFltb_cotrans M m v E Hm) as [E'|E']; congruence. }
  split_and!; [done| |done|].
  - destruct Hin as [Hin|Hin]; [|by right; right].
    unfold float_max in Hin. destruct (SFltb m v).
    + right. rewrite Hin. by left.
    + by left.
  - intros s [->|Hs]%elem_of_cons; [done|by apply Hall].
Qed.

Lemma running_max_spec scores :
  let M := running_max scores in
  (M = float_lowest ∨ M ∈ scores) ∧
  SFltb M float_lowest = false ∧
  (∀ s, s ∈ scores → SFltb M s = false) ∧
  ((∃ s, s ∈ scores ∧ SFleb float_lowest s = true) → M ∈ scores).
Proof.
  destruct (foldl_float_max_spec float_lowest scores) as (_ & Hin & Hge & Hall);
    [done|].
  fold (running_max scores) in Hin, Hge, Hall. simpl.
  split_and!; [done..|].
  intros (s & Hs & Hle). destruct Hin as [Hin|Hin]; [|done].
  specialize (Hall s Hs). rewrite Hin in Hall |- *.
  unfold SFltb in Hall. unfold SFleb in Hle.
  destruct (SFcompare float_lowest s) as [[]|] eqn:E; try done.
  by rewrite <- (float_lowest_eq s E).
Qed.

Lemma length_clear_all l ids buf : length (clear_all l ids buf) = length buf.
Proof.
  revert buf. induction ids as [|e ids IH]; intros buf; [done|].
  unfold clear_all in *. simpl. by rewrite IH, length_insert.
Qed.

Lemma lookup_clear_all l ids buf (k : nat) :
  (∀ e, e ∈ ids → 0 ≤ l + e < Z.of_nat (length buf)) →
  clear_all l ids buf !! k =
  if decide (Z.of_nat k - l ∈ ids) then Some float_lowest else buf !! k.
Proof.
  revert buf. induction ids as [|e ids IH]; intros buf Hin.
  { change (clear_all l [] buf) with buf.
    rewrite decide_False; [done|]. by intros ?%elem_of_nil. }
  change (clear_all l (e :: ids) buf)
    with (clear_all l ids (<[Z.to_nat (l + e) := float_lowest]> buf)).
  assert (0 ≤ l + e < Z.of_nat (length buf)) as He by (apply Hin; by left).
  rewrite IH.
  2:{ intros e' He'. rewrite length_insert. apply Hin. by right. }
  destruct (decide (Z.of_nat k - l ∈ ids)) as [Hk|Hk].
  - rewrite decide_True; [done|by right].
  - destruct (decide (Z.of_nat k - l = e)) as [Heq|Hne].
    + rewrite decide_True by (rewrite Heq; by left).
      replace (Z.to_nat (l + e)) with k by lia.
      apply list_lookup_insert_eq. lia.
    + rewrite decide_False by (by intros [?|?]%elem_of_cons).
      apply list_lookup_insert_ne. lia.
Qed.

Lemma length_merged_row l ids buf : length (merged_row l ids buf) = length buf.
Proof.
  destruct ids as [|e0 ids]; [done|]. unfold merged_row.
  by rewrite length_insert, length_clear_all.
Qed.

Lemma lookup_merged_row l e0 ids buf (k : nat) :
  (∀ e, e ∈ e0 :: ids → 0 ≤ l + e < Z.of_nat (length buf)) →
  merged_row l (e0 :: ids) buf !! k =
  if decide (Z.of_nat k - l = e0)
  then Some (running_max (row_scores buf l (e0 :: ids)))
  else if decide (Z.of_nat k - l ∈ ids) then Some float_lowest
  else buf !! k.
Proof.
  intros Hin. unfold merged_row.
  assert (0 ≤ l + e0 < Z.of_nat (length buf)) as He by (apply Hin; by left).
  destruct (decide (Z.of_nat k - l = e0)) as [Heq|Hne].
  - replace (Z.to_nat (l + e0)) with k by lia.
    apply list_lookup_insert_eq. rewrite length_clear_all. lia.
  - rewrite list_lookup_insert_ne by lia. rewrite lookup_clear_all by done.
    destruct (decide (Z.of_nat k - l ∈ ids)) as [Hk|Hk].
    + rewrite decide_True; [done|by right].
    + rewrite decide_False; [done|]. by intros [?|?]%elem_of_cons.
Qed.

Lemma seqZ_cons_nat (m : Z) (n : nat) :
  seqZ m (Z.of_nat (S n)) = m :: seqZ (m + 1) (Z.of_nat n).
Proof.
  rewrite seqZ_cons by lia. f_equal. f_equal; lia.
Qed.

(** the loop of the kernel, from the id at index [length seen] on *)
Lemma eos_loop (l : Z) (eos_token_ids seen rest : list Z) m buf :
  eos_token_ids = seen ++ rest → NoDup rest →
  (∀ e, e ∈ rest → 0 ≤ l + e < Z.of_nat (length buf)) →
  run (λ i '(max, batch_logits),
         e ← load eos_token_ids i;
         v ← load batch_logits (l + e);
         batch_logits ← store batch_logits (l + e) float_lowest;
         Some (float_max max v, batch_logits))
      (seqZ (Z.of_nat (length seen)) (Z.of_nat (length rest))) (m, buf)
  = Some (foldl float_max m (row_scores buf l rest), clear_all l rest buf).
Proof.
  intros Heos. revert seen m buf Heos.
  induction rest as [|e rest IH]; intros seen m buf Heos Hnd Hin; [done|].
  apply NoDup_cons in Hnd as [Hnotin Hnd].
  assert (0 ≤ l + e < Z.of_nat (length buf)) as He by (apply Hin; by left).
  cbn [length]. rewrite seqZ_cons_nat. cbn [run].
  rewrite load_lookup by lia. rewrite Nat2Z.id.
  assert (eos_token_ids !! length seen = Some e) as Hl
    by (rewrite Heos; by apply list_lookup_middle).
  rewrite Hl. rewrite option_bind_Some.
  rewrite load_lookup by lia.
  destruct (lookup_lt_is_Some_2 buf (Z.to_nat (l + e))) as [v Hv]; [lia|].
  rewrite Hv, option_bind_Some, store_Some by done. rewrite !option_bind_Some.
  replace (Z.of_nat (length seen) + 1) with (Z.of_nat (length (seen ++ [e])))
    by (rewrite length_app; simpl; lia).
  rewrite (IH (seen ++ [e])).
  - f_equal. f_equal. simpl. rewrite Hv. simpl. f_equal.
    apply list_fmap_ext. intros _ e' He'%list_elem_of_lookup_2.
    rewrite list_lookup_insert_ne; [done|].
    assert (0 ≤ l + e') by (apply (Hin e'); by right).
    assert (e ≠ e') by (by intros ->). lia.
  - by rewrite Heos, <- app_assoc.
  - done.
  - intros e' He'. rewrite length_insert. apply Hin. by right.
Qed.

Section HandleEOSArray.
Variables batch_beam_size vocab_size : Z.
Variable eos_token_ids : list Z.
Hypothesis eos_nodup : NoDup eos_token_ids.
Hypothesis eos_range : ∀ e, e ∈ eos_token_ids → 0 ≤ e < vocab_size.
Hypothesis bbs_nonneg : 0 ≤ batch_beam_size.
Hypothesis size_int : batch_beam_size * vocab_size ≤ INT_MAX.

Lemma HandleEOSArray_thread cu batch_logits :
  eos_token_ids ≠ [] →
  0 ≤ x (blockIdx cu) → 0 ≤ x (blockDim cu) → 0 ≤ x (threadIdx cu) →
  global_x cu ≤ INT_MAX →
  batch_beam_size * vocab_size ≤ Z.of_nat (length batch_logits) →
  HandleEOSArray cu batch_logits batch_beam_size vocab_size eos_token_ids
                 (Z.of_nat (length eos_token_ids))
  = Some (if decide (global_x cu < batch_beam_size)
          then merged_row (global_x cu * vocab_size) eos_token_ids batch_logits
          else batch_logits).
Proof.
  intros Hne Hbx Hbd Htx Hgx Hlen. unfold HandleEOSArray.
  rewrite global_x_int by done.
  assert (0 ≤ global_x cu) by (unfold global_x; nia).
  rewrite INT_MAX_eq in *.
  destruct (decide (global_x cu < batch_beam_size)) as [Hact|Hact].
  2:{ by rewrite decide_True by lia. }
  rewrite decide_False by lia.
  destruct eos_token_ids as [|e0 ids] eqn:Heos; [done|].
  assert (0 ≤ e0 < vocab_size) by (apply eos_range; by left).
  destruct (offset_bound (global_x cu) e0 batch_beam_size vocab_size)
    as [? ?]; [lia..|].
  replace (global_x cu * vocab_size)%int with (global_x cu * vocab_size)
    by (unfold mul32; rewrite i32_small; lia).
  set (l := global_x cu * vocab_size) in *.
  assert (∀ e, e ∈ e0 :: ids → 0 ≤ l + e < Z.of_nat (length batch_logits)) as Hin.
  { intros e He. apply eos_range in He.
    destruct (offset_bound (global_x cu) e batch_beam_size vocab_size)
      as [? ?]; [lia..|]. unfold l. lia. }
  rewrite (eos_loop l (e0 :: ids) [] (e0 :: ids)) by done.
  rewrite option_bind_Some. cbn beta iota.
  rewrite load_lookup by lia. change ((e0 :: ids) !! Z.to_nat 0) with (Some e0).
  rewrite option_bind_Some. rewrite store_Some.
  - done.
  - rewrite length_clear_all. apply Hin. by left.
Qed.

Lemma LaunchHandleEOSArray_lookup stream batch_logits :
  eos_token_ids ≠ [] →
  batch_beam_size ≤ INT_MAX - 255 →
  batch_beam_size * vocab_size ≤ Z.of_nat (length batch_logits) →
  ∃ logits',
    LaunchHandleEOSArray batch_logits batch_beam_size vocab_size eos_token_ids
      (Z.of_nat (length eos_token_ids)) stream = Some logits' ∧
    length logits' = length batch_logits ∧
    ∀ k : nat, logits' !! k =
      if decide (Z.of_nat k `div` vocab_size < batch_beam_size)
      then merged_row (Z.of_nat k `div` vocab_size * vocab_size)
                      eos_token_ids batch_logits !! k
      else batch_logits !! k.
Proof.
  intros Hne Hbbs Hlen. unfold LaunchHandleEOSArray, launch.
  destruct (grid_256 batch_beam_size) as [-> Hg]; [lia|].
  change (dim3_1 256) with (Dim3 256 1 1).
  set (g := (batch_beam_size + 255) `div` 256) in *.
  set (ts := order stream 0 builtins (threads (Dim3 g 1 1) (Dim3 256 1 1))).
  assert (∀ t, t ∈ ts ↔ t ∈ threads (Dim3 g 1 1) (Dim3 256 1 1)) as Hts
    by (intros; apply elem_of_order).
  assert (∃ e0 ids, eos_token_ids = e0 :: ids) as (e0 & ids & Heos)
    by (destruct eos_token_ids; [done|eauto]).
  assert (0 ≤ e0 < vocab_size) as He0 by (apply eos_range; rewrite Heos; by left).
  set (body := λ cu bl, HandleEOSArray cu bl batch_beam_size vocab_size
                          eos_token_ids (Z.of_nat (length eos_token_ids))).
  assert (∀ t buf, t ∈ ts → length buf = length batch_logits →
            0 ≤ global_x t ∧
            body t buf = Some (if decide (global_x t < batch_beam_size)
                               then merged_row (global_x t * vocab_size)
                                               eos_token_ids buf
                               else buf)) as Hbody.
  { intros t buf Ht%Hts Hbuf.
    pose proof (elem_of_threads_1d _ _ _ Ht) as (_ & Hgx & _).
    apply elem_of_threads in Ht as (_ & Hb & Hbi & Hti).
    apply elem_of_dim3_range in Hbi, Hti. simpl in *.
    split; [lia|]. apply HandleEOSArray_thread; rewrite ?Hb, ?Heos; simpl; try done; lia. }
  assert (∀ t (buf : list float) e,
            global_x t < batch_beam_size → 0 ≤ global_x t →
            length buf = length batch_logits → e ∈ eos_token_ids →
            0 ≤ global_x t * vocab_size + e < Z.of_nat (length buf) ∧
            (global_x t * vocab_size + e) `div` vocab_size = global_x t) as Hrow.
  { intros t buf e Hact Hgx Hbuf He%eos_range.
    destruct (offset_bound (global_x t) e batch_beam_size vocab_size)
      as [? ?]; [lia..|].
    destruct (offset_div_mod (global_x t) e vocab_size) as [? _]; [lia|]. lia. }
  set (cells := λ (t : builtins) (k : nat),
         global_x t < batch_beam_size ∧ Z.of_nat k `div` vocab_size = global_x t).
  assert (∀ t buf (k : nat), t ∈ ts → length buf = length batch_logits →
            global_x t < batch_beam_size →
            merged_row (global_x t * vocab_size) eos_token_ids buf !! k =
            if decide (Z.of_nat k `div` vocab_size = global_x t)
            then merged_row (global_x t * vocab_size) eos_token_ids buf !! k
            else buf !! k) as Hframe.
  { intros t buf k Ht Hbuf Hact. case_decide as Hk; [done|].
    destruct (Hbody t buf Ht Hbuf) as [Hgx _].
    rewrite Heos, lookup_merged_row.
    2:{ intros e He. rewrite <- Heos in He. by apply Hrow. }
    rewrite decide_False.
    2:{ intros Hk0. apply Hk.
        destruct (Hrow t buf e0) as [_ Hd]; [done..|rewrite Heos; by left|].
        rewrite <- Hd. f_equal. lia. }
    rewrite decide_False; [done|]. intros Hk0. apply Hk.
    destruct (Hrow t buf (Z.of_nat k - global_x t * vocab_size))
      as [_ Hd]; [done..|rewrite Heos; by right|].
    rewrite <- Hd. f_equal. lia. }
  destruct (run_parallel body (length batch_logits) cells ts batch_logits)
    as (logits' & Hrun & Hlen' & Hin & Hout); [| | | |done|].
  - apply NoDup_order, NoDup_threads.
  - apply Forall_forall. intros t Ht buf Hbuf.
    destruct (Hbody t buf Ht Hbuf) as [Hgx ->]. eexists. split; [done|].
    case_decide as Hact; [|done]. split; [by rewrite length_merged_row|].
    intros k Hk. rewrite Hframe by done. rewrite decide_False; [done|].
    intros Heq. by apply Hk.
  - apply Forall_forall. intros t Ht b1 b2 b1' b2' Hl1 Hl2 Hagree H1 H2 k [Hact Hk].
    destruct (Hbody t b1 Ht Hl1) as [Hgx E1]. destruct (Hbody t b2 Ht Hl2) as [_ E2].
    rewrite E1 in H1. rewrite E2 in H2. rewrite decide_True in H1, H2 by done.
    injection H1 as <-. injection H2 as <-.
    assert (∀ e, e ∈ eos_token_ids →
              b1 !! Z.to_nat (global_x t * vocab_size + e)
              = b2 !! Z.to_nat (global_x t * vocab_size + e)) as Hsame.
    { intros e He. apply Hagree. split; [done|].
      destruct (Hrow t b1 e) as [? Hd]; [done..|].
      by rewrite Z2Nat.id by lia. }
    rewrite Heos, !lookup_merged_row.
    2,3: intros e He; rewrite <- Heos in He; by apply Hrow.
    rewrite <- Heos.
    replace (row_scores b2 (global_x t * vocab_size) eos_token_ids)
      with (row_scores b1 (global_x t * vocab_size) eos_token_ids).
    2:{ apply list_fmap_ext. intros _ e He%list_elem_of_lookup_2.
        by rewrite Hsame. }
    repeat case_decide; try done. by apply Hagree.
  - intros t1 t2 k Ht1 Ht2 [_ Hk1] [_ Hk2].
    apply (thread_1d_inj g 256); [by apply Hts..|congruence].
  - exists logits'. split_and!; [done..|]. intros k.
    assert (0 ≤ Z.of_nat k `div` vocab_size) by (apply Z.div_pos; lia).
    case_decide as Hk.
    + destruct (thread_1d_elem_of g 256 (Z.of_nat k `div` vocab_size))
        as [Hin_t Hgx]; [lia..|].
      apply Hts in Hin_t.
      destruct (Hin _ k Hin_t) as (b & Hb & ->).
      { split; rewrite Hgx; done. }
      destruct (Hbody _ batch_logits Hin_t eq_refl) as [_ E].
      rewrite E, Hgx in Hb. rewrite decide_True in Hb by done.
      by injection Hb as <-.
    + apply Hout. intros t Ht [Hact Heq]. lia.
Qed.
End HandleEOSArray.

(** C3, as amended — the merge of the end-of-sequence scores. For every row
    of the logits, with the ids non-empty, distinct and in the vocabulary,
    after the launch
    - the slot of the first id holds the maximum of [lowest()] and the
      scores the row had at the ids: it is [lowest()] or one of these
      scores, and none of them is above it; it is one of the scores as
      soon as one of them is not below [lowest()];
    - the slot of every other id holds [lowest()], the most negative
      finite [float], which is not the negative infinity. *)
Theorem merge_eos (stream : cudaStream_t) (batch_logits : list float)
    (batch_beam_size vocab_size : Z) (eos_token_ids : list Z) :
  NoDup eos_token_ids →
  (∀ e, e ∈ eos_token_ids → 0 ≤ e < vocab_size) →
  eos_token_ids ≠ [] →
  0 ≤ batch_beam_size ≤ INT_MAX - 255 →
  batch_beam_size * vocab_size ≤ INT_MAX →
  batch_beam_size * vocab_size ≤ Z.of_nat (length batch_logits) →
  ∃ logits',
    LaunchHandleEOSArray batch_logits batch_beam_size vocab_size eos_token_ids
      (Z.of_nat (length eos_token_ids)) stream = Some logits' ∧
    ∀ r e0 rest, 0 ≤ r < batch_beam_size → eos_token_ids = e0 :: rest →
      let scores := row_scores batch_logits (r * vocab_size) eos_token_ids in
      let M := running_max scores in
      Forall2 (λ e s, batch_logits !! Z.to_nat (r * vocab_size + e) = Some s)
              eos_token_ids scores ∧
      logits' !! Z.to_nat (r * vocab_size + e0) = Some M ∧
      (M = float_lowest ∨ M ∈ scores) ∧
      (∀ s, s ∈ scores → SFltb M s = false) ∧
      ((∃ s, s ∈ scores ∧ SFleb float_lowest s = true) → M ∈ scores) ∧
      (∀ e, e ∈ rest →
         logits' !! Z.to_nat (r * vocab_size + e) = Some float_lowest) ∧
      float_lowest ≠ float_neg_infinity.
Proof.
  intros Hnd Hrange Hne Hbbs Hsize Hlen.
  destruct (LaunchHandleEOSArray_lookup batch_beam_size vocab_size
              eos_token_ids Hnd Hrange (proj1 Hbbs) Hsize stream batch_logits)
    as (logits' & Hrun & _ & Hlook); [done|lia|done|].
  exists logits'. split; [done|]. intros r e0 rest Hr Heos. simpl.
  assert (∀ e, e ∈ eos_token_ids →
            0 ≤ r * vocab_size + e < Z.of_nat (length batch_logits) ∧
            (r * vocab_size + e) `div` vocab_size = r) as Hrow.
  { intros e He%Hrange.
    destruct (offset_bound r e batch_beam_size vocab_size) as [? ?]; [lia..|].
    destruct (offset_div_mod r e vocab_size) as [? _]; [lia|]. lia. }
  destruct (running_max_spec
              (row_scores batch_logits (r * vocab_size) eos_token_ids))
    as (Hin & _ & Hall & Hsome).
  assert (∀ e, e ∈ eos_token_ids →
            logits' !! Z.to_nat (r * vocab_size + e)
            = merged_row (r * vocab_size) (e0 :: rest) batch_logits
                !! Z.to_nat (r * vocab_size + e)) as Hmerged.
  { intros e He. destruct (Hrow e He) as [? Hd].
    rewrite Hlook, Z2Nat.id, Hd by lia. rewrite decide_True by lia.
    by rewrite Heos. }
  split_and!; [|
| done | done | done | | apply float_lowest_finite].
  - unfold row_scores. apply Forall2_fmap_r, Forall_Forall2_diag, Forall_forall.
    intros e He. destruct (Hrow e He) as [? _]. unfold compose.
    destruct (lookup_lt_is_Some_2 batch_logits (Z.to_nat (r * vocab_size + e)))
      as [s ->]; [lia|done].
  - rewrite Hmerged by (rewrite Heos; by left).
    rewrite lookup_merged_row by (intros e He; rewrite <- Heos in He; by apply Hrow).
    rewrite decide_True; [by rewrite Heos|].
    destruct (Hrow e0) as [? _]; [rewrite Heos; by left|]. lia.
  - intros e He. assert (e ∈ eos_token_ids) as He' by (rewrite Heos; by right).
    destruct (Hrow e He') as [? _].
    rewrite Hmerged by done.
    rewrite lookup_merged_row by (intros e' He''; rewrite <- Heos in He''; by apply Hrow).
    rewrite Heos in Hnd. apply NoDup_cons in Hnd as [Hnotin _].
    rewrite decide_False.
    2:{ rewrite Z2Nat.id by lia. intros Heq. apply Hnotin.
        by replace e0 with e by lia. }
    rewrite decide_True; [done|]. rewrite Z2Nat.id by lia.
    by replace (r * vocab_size + e - r * vocab_size) with e by lia.
Qed.

Lemma merge_eos_witness :
  ∃ logits',
    LaunchHandleEOSArray
      (eos_example_row float_two float_five
       ++ eos_example_row float_five float_two) 2 10 [7; 9] 2 reversed
    = Some logits' ∧
    logits' !! Z.to_nat (0 * 10 + 7) = Some float_five ∧
    logits' !! Z.to_nat (0 * 10 + 9) = Some float_lowest ∧
    logits' !! Z.to_nat (1 * 10 + 7) = Some float_five ∧
    logits' !! Z.to_nat (1 * 10 + 9) = Some float_lowest.
Proof.
  destruct (merge_eos reversed
              (eos_example_row float_two float_five
               ++ eos_example_row float_five float_two) 2 10 [7; 9])
    as (logits' & Hrun & Hrows).
  - apply NoDup_cons. split; [|apply NoDup_singleton].
    by intros [=]%list_elem_of_singleton.
  - intros e [->|[->|[]%elem_of_nil]%elem_of_cons]%elem_of_cons; lia.
  - done.
  - rewrite INT_MAX_eq. lia.
  - rewrite INT_MAX_eq. lia.
  - simpl. lia.
  - exists logits'. split; [exact Hrun|].
    destruct (Hrows 0 7 [9]) as (_ & H07 & _ & _ & _ & H09 & _); [lia|done|].
    destruct (Hrows 1 7 [9]) as (_ & H17 & _ & _ & _ & H19 & _); [lia|done|].
    split_and!.
    + exact H07.
    + apply H09. by left.
    + exact H17.
    + apply H19. by left.
Defined.

(** C3, as stated, fails on the example of the specification: the slot of
    the second id holds [lowest()], not the negative infinity. And where the
    scores of all the ids are the negative infinity, the slot of the first
    id holds [lowest()], which is above them all. *)
Lemma merge_eos_not_infinity :
  (∃ logits',
     LaunchHandleEOSArray (eos_example_row float_two float_five) 1 10 [7; 9] 2
       in_order = Some logits' ∧
     logits' !! Z.to_nat 7 = Some float_five ∧
     logits' !! Z.to_nat 9 = Some float_lowest ∧
     logits' !! Z.to_nat 9 ≠ Some float_neg_infinity) ∧
  (∃ logits',
     LaunchHandleEOSArray
       (eos_example_row float_neg_infinity float_neg_infinity) 1 10 [7; 9] 2
       in_order = Some logits' ∧
     logits' !! Z.to_nat 7 = Some float_lowest ∧
     SFltb float_neg_infinity float_lowest = true).
Proof.
  split.
  - eexists. split; [vm_compute; reflexivity|].
    split_and!; [reflexivity|reflexivity|discriminate].
  - eexists. split; [vm_compute; reflexivity|].
    split_and!; reflexivity.
Qed.

(** ** Past-state cache *)

(** the offsets of the cache of [BN] heads, in [float4] chunks *)
Lemma reorder_bounds BN Lmax H2 bn c t :
  0 ≤ bn < BN → 0 ≤ c < H2 → 0 ≤ t < Lmax →
  bn ≤ bn * Lmax ∧
  0 ≤ bn * Lmax ≤ BN * Lmax * H2 ∧
  0 ≤ bn * Lmax * H2 ∧
  bn * Lmax * H2 + Lmax * H2 ≤ BN * Lmax * H2 ∧
  0 ≤ t * H2 ∧ t * H2 + c < Lmax * H2 ∧
  0 ≤ c * Lmax ∧ c * Lmax + t < Lmax * H2.
Proof.
  intros Hbn Hc Ht.
  assert (bn ≤ bn * Lmax) by nia.
  assert (0 ≤ bn * Lmax) by nia.
  assert (bn * Lmax + Lmax ≤ BN * Lmax) by nia.
  assert (0 ≤ bn * Lmax * H2) by nia.
  assert ((bn * Lmax + Lmax) * H2 ≤ BN * Lmax * H2) by nia.
  assert (BN * Lmax ≤ BN * Lmax * H2) by nia.
  assert (0 ≤ t * H2) by nia.
  assert (t * H2 + c < Lmax * H2) by nia.
  assert (0 ≤ c * Lmax) by nia.
  assert (c * Lmax + t < Lmax * H2) by nia.
  split_and!; lia.
Qed.

(** the linear index of a thread in its block, and its transposition *)
Lemma tile_index H2 tx ty :
  0 ≤ tx < H2 → 0 ≤ ty < 16 →
  let tidx := tx + ty * H2 in
  0 ≤ tidx < 16 * H2 ∧ 0 ≤ tidx `mod` 16 < 16 ∧ 0 ≤ tidx `div` 16 < H2 ∧
  tidx = 16 * (tidx `div` 16) + tidx `mod` 16.
Proof.
  intros Htx Hty tidx. assert (0 ≤ tidx < 16 * H2) as Ht by (unfold tidx; nia).
  pose proof (Z.div_mod tidx 16 ltac:(lia)).
  pose proof (Z.mod_pos_bound tidx 16 ltac:(lia)).
  assert (0 ≤ tidx `div` 16) by (apply Z.div_pos; lia).
  assert (tidx `div` 16 < H2) by (apply Z.div_lt_upper_bound; lia).
  split_and!; lia.
Qed.

(** the offsets of head [n] of batch entry [b] *)
Lemma head_offsets batch_size num_heads max_length chunked_head_size b n c t :
  batch_size * num_heads * max_length * chunked_head_size ≤ INT_MAX →
  0 ≤ b < batch_size → 0 ≤ n < num_heads →
  0 ≤ c < chunked_head_size → 0 ≤ t < max_length →
  0 ≤ b * num_heads ∧ 0 ≤ b * num_heads + n ≤ 2147483647 ∧
  0 ≤ (b * num_heads + n) * max_length ≤ 2147483647 ∧
  0 ≤ head_base num_heads max_length chunked_head_size b n ∧
  head_base num_heads max_length chunked_head_size b n
    + max_length * chunked_head_size ≤ 2147483647 ∧
  head_base num_heads max_length chunked_head_size b n
    + max_length * chunked_head_size
    ≤ batch_size * num_heads * max_length * chunked_head_size ∧
  0 ≤ t * chunked_head_size ∧
  t * chunked_head_size + c < max_length * chunked_head_size ∧
  0 ≤ c * max_length ∧ c * max_length + t < max_length * chunked_head_size.
Proof.
  rewrite INT_MAX_eq. intros Hsize Hb Hn Hc Ht.
  destruct (offset_bound b n batch_size num_heads) as [? ?]; [lia..|].
  destruct (reorder_bounds (batch_size * num_heads) max_length
              chunked_head_size (b * num_heads + n) c t)
    as (? & ? & ? & ? & ? & ? & ? & ?); [lia..|].
  unfold head_base. split_and!; lia.
Qed.

Section ReorderPastStates.
Variable in_buffer : list float4.
Variables batch_size num_heads max_length chunked_head_size : Z.
Hypothesis batch_range : 0 ≤ batch_size ≤ INT_MAX.
Hypothesis heads_range : 0 ≤ num_heads ≤ INT_MAX.
Hypothesis length_range : 0 ≤ max_length ≤ INT_MAX - 31.
Hypothesis chunks_range : 0 ≤ chunked_head_size ≤ kTileSize.
Hypothesis size_int :
  batch_size * num_heads * max_length * chunked_head_size ≤ INT_MAX.
Hypothesis in_length :
  batch_size * num_heads * max_length * chunked_head_size
  ≤ Z.of_nat (length in_buffer).

Local Abbreviation base :=
  (head_base num_heads max_length chunked_head_size).
Local Abbreviation head_bounds :=
  (λ b n c t, head_offsets batch_size num_heads max_length chunked_head_size
                b n c t size_int).

(** what a thread does before the barrier *)
Lemma stage_thread gd bd bx n b tx ty tile :
  0 ≤ bx → bx * 16 < max_length →
  0 ≤ n < num_heads → 0 ≤ b < batch_size →
  0 ≤ tx < chunked_head_size → 0 ≤ ty < 16 →
  before_sync
    (ReorderPastStatesKernel (Builtins gd bd (Dim3 bx n b) (Dim3 tx ty 0))
       in_buffer batch_size num_heads max_length chunked_head_size) tile
  = if decide (bx * 16 + ty < max_length) then
      v ← in_buffer
             !! Z.to_nat (base b n + (bx * 16 + ty) * chunked_head_size + tx);
      tile_store tile ty tx v
    else Some tile.
Proof.
  intros Hbx Hbase Hn Hb Htx Hty.
  pose proof batch_range as HB. pose proof heads_range as HN.
  pose proof length_range as HL. rewrite INT_MAX_eq in HB, HN, HL.
  unfold ReorderPastStatesKernel, kSeqTileSize.
  cbn [before_sync blockIdx threadIdx x y z].
  replace (i32 (bx * 16)%uint) with (bx * 16) by (int_simpl; lia).
  replace (i32 (u32 (bx * 16) + ty)%uint) with (bx * 16 + ty) by (int_simpl; lia).
  case_decide as Hs; [|done].
  destruct (head_bounds b n tx (bx * 16 + ty))
    as (? & ? & ? & ? & ? & ? & ? & ? & _); [lia..|].
  unfold head_base in *.
  int_simpl.
  rewrite load_lookup by lia. done.
Qed.

(** what a thread does after the barrier *)
Lemma store_thread gd bd bx n b tx ty tile out_buffer :
  0 ≤ bx → bx * 16 < max_length →
  0 ≤ n < num_heads → 0 ≤ b < batch_size →
  0 ≤ tx < chunked_head_size → 0 ≤ ty < 16 →
  let tidx := tx + ty * chunked_head_size in
  after_sync
    (ReorderPastStatesKernel (Builtins gd bd (Dim3 bx n b) (Dim3 tx ty 0))
       in_buffer batch_size num_heads max_length chunked_head_size)
    tile out_buffer
  = if decide (bx * 16 + tidx `mod` 16 < max_length) then
      v ← tile_load tile (tidx `mod` 16) (tidx `div` 16);
      store out_buffer
            (base b n + tidx `div` 16 * max_length
             + (bx * 16 + tidx `mod` 16)) v
    else Some out_buffer.
Proof.
  intros Hbx Hbase Hn Hb Htx Hty tidx.
  pose proof batch_range as HB. pose proof heads_range as HN.
  pose proof length_range as HL. rewrite INT_MAX_eq in HB, HN, HL.
  pose proof chunks_range as HC. unfold kTileSize in HC.
  destruct (tile_index chunked_head_size tx ty) as (Ht & Hm & Hd & _); [lia..|].
  fold tidx in Ht, Hm, Hd.
  unfold ReorderPastStatesKernel, kSeqTileSize.
  cbn [after_sync blockIdx threadIdx x y z].
  replace (i32 (bx * 16)%uint) with (bx * 16) by (int_simpl; lia).
  assert (0 ≤ ty * chunked_head_size) by nia.
  replace (i32 (tx + ty * u32 chunked_head_size)%uint) with tidx
    by (unfold tidx; int_simpl; lia).
  rewrite (u32_small tidx) by lia.
  rewrite (i32_small (tidx `mod` 16)), (i32_small (tidx `div` 16)) by lia.
  int_simpl.
  case_decide as Hs; [|done].
  destruct (head_bounds b n (tidx `div` 16) (bx * 16 + tidx `mod` 16))
    as (? & ? & ? & ? & ? & ? & _ & _ & ? & ?); [lia..|].
  unfold head_base in *.
  int_simpl.
  done.
Qed.

Lemma elem_of_block_threads_tile gd blk t :
  t ∈ block_threads gd (Dim3 chunked_head_size 16 1) blk ↔
  ∃ tx ty, 0 ≤ tx < chunked_head_size ∧ 0 ≤ ty < 16 ∧
           t = Builtins gd (Dim3 chunked_head_size 16 1) blk (Dim3 tx ty 0).
Proof.
  rewrite elem_of_block_threads, elem_of_dim3_range. simpl. split.
  - intros (Hg & Hb & Hblk & Hx & Hy & Hz).
    destruct t as [gd' bd' blk' [tx ty tz]]; simpl in *. subst.
    exists tx, ty. split_and!; try lia. do 2 f_equal. lia.
  - intros (tx & ty & Hx & Hy & ->). simpl. split_and!; (done || lia).
Qed.

Lemma tile_uninit_lookup (k : nat) :
  (k < 528)%nat → length tile_uninit = 528%nat ∧ tile_uninit !! k = Some None.
Proof.
  intros Hk. unfold tile_uninit, kSeqTileSize, kTileSize.
  change (Z.to_nat (16 * (32 + 1))) with 528%nat.
  split; [apply length_replicate|by apply lookup_replicate_2].
Qed.

(** what a block does: it moves its tile of 16 time steps *)
Lemma run_block_reorder stream gd bx n b out_buffer :
  0 ≤ bx → bx * 16 < max_length →
  0 ≤ n < num_heads → 0 ≤ b < batch_size →
  batch_size * num_heads * max_length * chunked_head_size
    ≤ Z.of_nat (length out_buffer) →
  ∃ out',
    run_block stream gd (Dim3 chunked_head_size 16 1) tile_uninit
      (λ cu, ReorderPastStatesKernel cu in_buffer batch_size num_heads
               max_length chunked_head_size)
      (Dim3 bx n b) out_buffer = Some out' ∧
    length out' = length out_buffer ∧
    (∀ c t, 0 ≤ c < chunked_head_size → bx * 16 ≤ t < bx * 16 + 16 →
            t < max_length →
       out' !! Z.to_nat (base b n + c * max_length + t)
       = in_buffer !! Z.to_nat (base b n + t * chunked_head_size + c)) ∧
    (∀ k : nat,
       (∀ c t, 0 ≤ c < chunked_head_size → bx * 16 ≤ t < bx * 16 + 16 →
               t < max_length →
          k ≠ Z.to_nat (base b n + c * max_length + t)) →
       out' !! k = out_buffer !! k).
Proof.
  intros Hbx Hbase Hn Hb Hout. unfold run_block.
  pose proof chunks_range as HC. unfold kTileSize in HC.
  set (block := Dim3 chunked_head_size 16 1).
  set (blk := Dim3 bx n b).
  (* before the barrier *)
  set (ts1 := order stream 1 builtins (block_threads gd block blk)).
  assert (∀ t, t ∈ ts1 ↔ t ∈ block_threads gd block blk) as Hts1
    by (intros; apply elem_of_order).
  destruct (run_update (λ t, before_sync
                           (ReorderPastStatesKernel t in_buffer batch_size
                                 num_heads max_length chunked_head_size))
              528%nat
              (λ t, bool_decide (bx * 16 + y (threadIdx t) < max_length))
              (λ t, y (threadIdx t) * 33 + x (threadIdx t))
              (λ t _, in_buffer
                        !! Z.to_nat (base b n
                                     + (bx * 16 + y (threadIdx t))
                                       * chunked_head_size
                                     + x (threadIdx t)))
              ts1 tile_uninit)
    as (sh & Hrun1 & Hlen1 & Hin1 & _).
  { apply NoDup_order, NoDup_block_threads. }
  { apply Forall_forall.
    intros t (tx & ty & Htx & Hty & ->)%Hts1%elem_of_block_threads_tile.
    unfold updates_cell, blk, block. cbv beta. cbn [threadIdx x y].
    case_bool_decide as Hact.
    - split; [lia|]. intros tile v Htile _.
      rewrite stage_thread by done. rewrite decide_True by done.
      destruct (head_bounds b n tx (bx * 16 + ty))
        as (_ & _ & _ & ? & _ & ? & ? & ? & _); [lia..|].
      destruct (lookup_lt_is_Some_2 in_buffer
                  (Z.to_nat (base b n + (bx * 16 + ty) * chunked_head_size + tx)))
        as [v' Hv']; [pose proof in_length; lia|].
      rewrite Hv', option_bind_Some. unfold tile_store, kSeqTileSize, kTileSize.
      rewrite decide_True by lia.
      replace (ty * (32 + 1) + tx) with (ty * 33 + tx) by lia.
      apply store_Some. lia.
    - intros tile _. rewrite stage_thread by done. by rewrite decide_False. }
  { intros t1 t2 (tx1 & ty1 & ? & ? & ->)%Hts1%elem_of_block_threads_tile
      (tx2 & ty2 & ? & ? & ->)%Hts1%elem_of_block_threads_tile _ _.
    cbn [threadIdx x y]. intros Hoff.
    assert (ty1 = ty2 ∧ tx1 = tx2) as [-> ->] by lia. done. }
  { apply (tile_uninit_lookup 0). lia. }
  (* the tile holds the chunks of the input *)
  assert (∀ c r, 0 ≤ c < chunked_head_size → 0 ≤ r < 16 →
            bx * 16 + r < max_length →
            ∃ v, in_buffer
                   !! Z.to_nat (base b n + (bx * 16 + r) * chunked_head_size + c)
                 = Some v ∧
                 tile_load sh r c = Some v) as Htile.
  { intros c r Hc Hr Hs.
    destruct (head_bounds b n c (bx * 16 + r))
      as (_ & _ & _ & ? & _ & ? & ? & ? & _); [lia..|].
    destruct (lookup_lt_is_Some_2 in_buffer
                (Z.to_nat (base b n + (bx * 16 + r) * chunked_head_size + c)))
      as [v Hv]; [pose proof in_length; lia|].
    exists v. split; [done|].
    specialize (Hin1 (Builtins gd block blk (Dim3 c r 0))).
    cbn [threadIdx x y] in Hin1.
    destruct (tile_uninit_lookup (Z.to_nat (r * 33 + c))) as [_ Hnone]; [lia|].
    unfold tile_load, kSeqTileSize, kTileSize. rewrite decide_True by lia.
    replace (r * (32 + 1) + c) with (r * 33 + c) by lia.
    rewrite load_lookup by lia. rewrite Hin1.
    - by rewrite Hv, Hnone.
    - apply Hts1, elem_of_block_threads_tile. by exists c, r.
    - by apply bool_decide_eq_true. }
  (* after the barrier *)
  set (ts2 := order stream 2 builtins (block_threads gd block blk)).
  assert (∀ t, t ∈ ts2 ↔ t ∈ block_threads gd block blk) as Hts2
    by (intros; apply elem_of_order).
  set (tidx := λ t : builtins,
         x (threadIdx t) + y (threadIdx t) * chunked_head_size).
  destruct (run_update (λ t, after_sync
                           (ReorderPastStatesKernel t in_buffer batch_size
                                 num_heads max_length chunked_head_size) sh)
              (length out_buffer)
              (λ t, bool_decide (bx * 16 + tidx t `mod` 16 < max_length))
              (λ t, base b n + tidx t `div` 16 * max_length
                    + (bx * 16 + tidx t `mod` 16))
              (λ t _, default (Float4 0 0 0 0)
                        (in_buffer
                           !! Z.to_nat (base b n
                                        + (bx * 16 + tidx t `mod` 16)
                                          * chunked_head_size
                                        + tidx t `div` 16)))
              ts2 out_buffer)
    as (out' & Hrun2 & Hlen2 & Hin2 & Hout2); [| | |done|].
  { apply NoDup_order, NoDup_block_threads. }
  { apply Forall_forall.
    intros t (tx & ty & Htx & Hty & ->)%Hts2%elem_of_block_threads_tile.
    unfold updates_cell, tidx, blk, block. cbv beta.
    cbn [threadIdx x y].
    destruct (tile_index chunked_head_size tx ty) as (Ht & Hm & Hd & _); [lia..|].
    cbv zeta in Ht, Hm, Hd. set (i := tx + ty * chunked_head_size) in *.
    case_bool_decide as Hact.
    - destruct (head_bounds b n (i `div` 16) (bx * 16 + i `mod` 16))
        as (_ & _ & _ & ? & _ & ? & _ & _ & ? & ?); [lia..|].
      split; [lia|]. intros buf v Hbuf _.
      rewrite store_thread by done. cbv zeta. fold i.
      rewrite decide_True by done.
      destruct (Htile (i `div` 16) (i `mod` 16)) as (v' & Hv' & ->); [lia..|].
      rewrite option_bind_Some, Hv'. apply store_Some. lia.
    - intros buf _. rewrite store_thread by done. cbv zeta. fold i.
      by rewrite decide_False. }
  { intros t1 t2 (tx1 & ty1 & ? & ? & ->)%Hts2%elem_of_block_threads_tile
      (tx2 & ty2 & ? & ? & ->)%Hts2%elem_of_block_threads_tile
      Ha1%bool_decide_eq_true Ha2%bool_decide_eq_true.
    unfold tidx in *. cbn [threadIdx x y] in *. intros Hoff.
    destruct (tile_index chunked_head_size tx1 ty1) as (? & ? & ? & E1); [lia..|].
    destruct (tile_index chunked_head_size tx2 ty2) as (? & ? & ? & E2); [lia..|].
    cbv zeta in *.
    set (i1 := tx1 + ty1 * chunked_head_size) in *.
    set (i2 := tx2 + ty2 * chunked_head_size) in *.
    destruct (offset_div_mod (i1 `div` 16) (bx * 16 + i1 `mod` 16) max_length)
      as [Hd1 Hm1]; [lia|].
    destruct (offset_div_mod (i2 `div` 16) (bx * 16 + i2 `mod` 16) max_length)
      as [Hd2 Hm2]; [lia|].
    assert (i1 `div` 16 * max_length + (bx * 16 + i1 `mod` 16)
            = i2 `div` 16 * max_length + (bx * 16 + i2 `mod` 16)) as Heq by lia.
    rewrite Heq in Hd1, Hm1.
    assert (i1 = i2) as Hi by lia.
    destruct (offset_div_mod ty1 tx1 chunked_head_size) as [Hq1 Hr1]; [lia|].
    destruct (offset_div_mod ty2 tx2 chunked_head_size) as [Hq2 Hr2]; [lia|].
    assert (ty1 * chunked_head_size + tx1 = ty2 * chunked_head_size + tx2)
      as Hlin by (unfold i1, i2 in Hi; lia).
    rewrite Hlin in Hq1, Hr1. assert (ty1 = ty2 ∧ tx1 = tx2) as [-> ->] by lia.
    done. }
  exists out'. split_and!; [by rewrite Hrun1, option_bind_Some|done| |].
  - intros c t Hc Ht Hlt.
    (* the thread that stores column [c] of time step [t] *)
    set (r := t - bx * 16). set (i := 16 * c + r).
    assert (0 ≤ i < 16 * chunked_head_size) by (unfold i, r; lia).
    pose proof (Z.div_mod i chunked_head_size ltac:(lia)) as Hdm.
    pose proof (Z.mod_pos_bound i chunked_head_size ltac:(lia)) as Hmod.
    assert (0 ≤ i `div` chunked_head_size) by (apply Z.div_pos; lia).
    assert (i `div` chunked_head_size < 16)
      by (apply Z.div_lt_upper_bound; lia).
    specialize (Hin2 (Builtins gd block blk
                        (Dim3 (i `mod` chunked_head_size)
                              (i `div` chunked_head_size) 0))).
    unfold tidx in Hin2. cbn [threadIdx x y] in Hin2.
    replace (i `mod` chunked_head_size
             + i `div` chunked_head_size * chunked_head_size)
      with i in Hin2 by lia.
    destruct (offset_div_mod c r 16) as [Hq Hr]; [unfold r; lia|].
    replace (c * 16 + r) with i in Hq, Hr by (unfold i; lia).
    rewrite Hq, Hr in Hin2.
    replace (bx * 16 + r) with t in Hin2 by (unfold r; lia).
    rewrite Hin2.
    + destruct (head_bounds b n c t)
        as (_ & _ & _ & ? & _ & ? & ? & ? & ? & ?); [lia..|].
      destruct (lookup_lt_is_Some_2 out_buffer
                  (Z.to_nat (base b n + c * max_length + t))) as [v ->]; [lia|].
      destruct (lookup_lt_is_Some_2 in_buffer
                  (Z.to_nat (base b n + t * chunked_head_size + c)))
        as [v' ->]; [pose proof in_length; lia|].
      done.
    + apply Hts2, elem_of_block_threads_tile.
      exists (i `mod` chunked_head_size), (i `div` chunked_head_size). done.
    + by apply bool_decide_eq_true.
  - intros k Hk. apply Hout2.
    intros t (tx & ty & Htx & Hty & ->)%Hts2%elem_of_block_threads_tile
      Hact%bool_decide_eq_true.
    unfold tidx in *. cbn [threadIdx x y] in *.
    destruct (tile_index chunked_head_size tx ty) as (? & ? & ? & _); [lia..|].
    cbv zeta in *. set (i := tx + ty * chunked_head_size) in *.
    intros Heq. apply (Hk (i `div` 16) (bx * 16 + i `mod` 16)); [lia..|].
    by rewrite <- Heq.
Qed.

(** a chunk of the cache has one batch entry, head, column and time step *)
Lemma read_offset_inj b1 n1 c1 t1 b2 n2 c2 t2 :
  0 ≤ n1 < num_heads → 0 ≤ c1 < chunked_head_size → 0 ≤ t1 < max_length →
  0 ≤ n2 < num_heads → 0 ≤ c2 < chunked_head_size → 0 ≤ t2 < max_length →
  base b1 n1 + c1 * max_length + t1 = base b2 n2 + c2 * max_length + t2 →
  b1 = b2 ∧ n1 = n2 ∧ c1 = c2 ∧ t1 = t2.
Proof.
  intros Hn1 Hc1 Ht1 Hn2 Hc2 Ht2. unfold head_base. intros Heq.
  assert (((b1 * num_heads + n1) * chunked_head_size + c1) * max_length + t1
          = ((b2 * num_heads + n2) * chunked_head_size + c2) * max_length + t2)
    as Heq' by lia. clear Heq.
  destruct (offset_div_mod ((b1 * num_heads + n1) * chunked_head_size + c1)
              t1 max_length) as [Hd1 Hm1]; [lia|].
  destruct (offset_div_mod ((b2 * num_heads + n2) * chunked_head_size + c2)
              t2 max_length) as [Hd2 Hm2]; [lia|].
  rewrite Heq' in Hd1, Hm1. assert (t1 = t2) as -> by lia.
  assert ((b1 * num_heads + n1) * chunked_head_size + c1
          = (b2 * num_heads + n2) * chunked_head_size + c2) as Heq2 by lia.
  destruct (offset_div_mod (b1 * num_heads + n1) c1 chunked_head_size)
    as [Hd3 Hm3]; [lia|].
  destruct (offset_div_mod (b2 * num_heads + n2) c2 chunked_head_size)
    as [Hd4 Hm4]; [lia|].
  rewrite Heq2 in Hd3, Hm3. assert (c1 = c2) as -> by lia.
  assert (b1 * num_heads + n1 = b2 * num_heads + n2) as Heq3 by lia.
  destruct (offset_div_mod b1 n1 num_heads) as [Hd5 Hm5]; [lia|].
  destruct (offset_div_mod b2 n2 num_heads) as [Hd6 Hm6]; [lia|].
  rewrite Heq3 in Hd5, Hm5. split_and!; lia.
Qed.

(** what the grid does: every block moves its tile *)
Lemma launch_sync_reorder stream gx out_buffer :
  (∀ bx, 0 ≤ bx < gx ↔ 0 ≤ bx ∧ bx * 16 < max_length) →
  batch_size * num_heads * max_length * chunked_head_size
    ≤ Z.of_nat (length out_buffer) →
  ∃ out',
    launch_sync stream (Dim3 gx num_heads batch_size)
      (Dim3 chunked_head_size 16 1) tile_uninit
      (λ cu, ReorderPastStatesKernel cu in_buffer batch_size num_heads
               max_length chunked_head_size)
      out_buffer = Some out' ∧
    length out' = length out_buffer ∧
    (∀ b n c t, 0 ≤ b < batch_size → 0 ≤ n < num_heads →
                0 ≤ c < chunked_head_size → 0 ≤ t < max_length →
       out' !! Z.to_nat (base b n + c * max_length + t)
       = in_buffer !! Z.to_nat (base b n + t * chunked_head_size + c)) ∧
    (∀ k : nat,
       (∀ b n c t, 0 ≤ b < batch_size → 0 ≤ n < num_heads →
                   0 ≤ c < chunked_head_size → 0 ≤ t < max_length →
          k ≠ Z.to_nat (base b n + c * max_length + t)) →
       out' !! k = out_buffer !! k).
Proof.
  intros Hgx Hout. unfold launch_sync.
  set (grid := Dim3 gx num_heads batch_size).
  set (block := Dim3 chunked_head_size 16 1).
  set (ts := order stream 0 dim3 (dim3_range grid)).
  assert (∀ blk, blk ∈ ts →
            0 ≤ x blk ∧ x blk * 16 < max_length ∧
            0 ≤ y blk < num_heads ∧ 0 ≤ z blk < batch_size) as Hts.
  { intros blk (Hx & Hy & Hz)%elem_of_order%elem_of_dim3_range.
    simpl in *. apply Hgx in Hx. lia. }
  set (cells := λ (blk : dim3) (k : nat),
         ∃ c t, 0 ≤ c < chunked_head_size ∧
                x blk * 16 ≤ t < x blk * 16 + 16 ∧ t < max_length ∧
                k = Z.to_nat (base (z blk) (y blk) + c * max_length + t)).
  set (body := run_block stream grid block tile_uninit
                 (λ cu, ReorderPastStatesKernel cu in_buffer batch_size
                          num_heads max_length chunked_head_size)).
  assert (∀ blk buf, blk ∈ ts → length buf = length out_buffer →
            ∃ buf', body blk buf = Some buf' ∧ length buf' = length buf ∧
              (∀ k, cells blk k →
                 ∃ c t, 0 ≤ c < chunked_head_size ∧ 0 ≤ t < max_length ∧
                   k = Z.to_nat (base (z blk) (y blk) + c * max_length + t) ∧
                   buf' !! k
                   = in_buffer
                       !! Z.to_nat (base (z blk) (y blk)
                                    + t * chunked_head_size + c)) ∧
              (∀ k, ¬ cells blk k → buf' !! k = buf !! k)) as Hblock.
  { intros blk buf Hblk Hbuf. destruct (Hts blk Hblk) as (Hx & Hx' & Hy & Hz).
    destruct blk as [bx n b]. simpl in Hx, Hx', Hy, Hz.
    destruct (run_block_reorder stream grid bx n b buf)
      as (buf' & Hrun & Hlen & Hin & Hframe); [lia..|].
    exists buf'. split_and!; [done..| |].
    - intros k (c & t & Hc & Ht & Hlt & ->). simpl in *.
      exists c, t. split_and!; [lia..|done|]. by apply Hin.
    - intros k Hk. apply Hframe. intros c t Hc Ht Hlt ->. apply Hk.
      exists c, t. done. }
  destruct (run_parallel body (length out_buffer) cells ts out_buffer)
    as (out' & Hrun & Hlen & Hin & Hframe); [| | | |done|].
  - apply NoDup_order, NoDup_dim3_range.
  - apply Forall_forall. intros blk Hblk buf Hbuf.
    destruct (Hblock blk buf Hblk Hbuf) as (buf' & ? & ? & _ & ?).
    exists buf'. split_and!; [done|congruence|done].
  - apply Forall_forall. intros blk Hblk b1 b2 b1' b2' Hl1 Hl2 _ H1 H2 k Hk.
    destruct (Hblock blk b1 Hblk Hl1) as (? & E1 & _ & Hc1 & _).
    destruct (Hblock blk b2 Hblk Hl2) as (? & E2 & _ & Hc2 & _).
    rewrite H1 in E1. rewrite H2 in E2.
    injection E1 as <-. injection E2 as <-.
    destruct (Hc1 k Hk) as (c & t & Hc & Ht & Hkeq & ->).
    destruct (Hc2 k Hk) as (c' & t' & Hc' & Ht' & Hkeq' & ->).
    destruct (Hts blk Hblk) as (_ & _ & Hy & Hz).
    destruct (head_bounds (z blk) (y blk) c t)
      as (_ & _ & _ & ? & _ & _ & _ & _ & ? & _); [lia..|].
    destruct (head_bounds (z blk) (y blk) c' t')
      as (_ & _ & _ & ? & _ & _ & _ & _ & ? & _); [lia..|].
    destruct (read_offset_inj (z blk) (y blk) c t (z blk) (y blk) c' t')
      as (_ & _ & -> & ->); [lia..|done].
  - intros blk1 blk2 k Hblk1 Hblk2 (c1 & t1 & Hc1 & Ht1 & Hlt1 & ->)
      (c2 & t2 & Hc2 & Ht2 & Hlt2 & Heq).
    destruct (Hts blk1 Hblk1) as (? & ? & ? & ?).
    destruct (Hts blk2 Hblk2) as (? & ? & ? & ?).
    destruct (head_bounds (z blk1) (y blk1) c1 t1)
      as (_ & _ & _ & ? & _ & _ & _ & _ & ? & _); [lia..|].
    destruct (head_bounds (z blk2) (y blk2) c2 t2)
      as (_ & _ & _ & ? & _ & _ & _ & _ & ? & _); [lia..|].
    destruct (read_offset_inj (z blk1) (y blk1) c1 t1 (z blk2) (y blk2) c2 t2)
      as (Hz & Hy & _ & Ht); [lia..|].
    destruct blk1, blk2; simpl in *. f_equal; lia.
  - exists out'. split_and!; [done..| |].
    + intros b n c t Hb Hn Hc Ht.
      set (blk := Dim3 (t `div` 16) n b).
      pose proof (Z.div_mod t 16 ltac:(lia)) as Hdm.
      pose proof (Z.mod_pos_bound t 16 ltac:(lia)) as Hmod.
      assert (0 ≤ t `div` 16) by (apply Z.div_pos; lia).
      assert (blk ∈ ts) as Hblk.
      { apply elem_of_order, elem_of_dim3_range. simpl.
        split_and!; try lia. apply Hgx. lia. }
      assert (cells blk (Z.to_nat (base b n + c * max_length + t))) as Hcell.
      { exists c, t. simpl. split_and!; (done || lia). }
      destruct (Hin blk _ Hblk Hcell) as (buf' & Hbuf' & ->).
      destruct (Hblock blk out_buffer Hblk eq_refl) as (? & E & _ & Hc' & _).
      rewrite Hbuf' in E. injection E as <-.
      destruct (Hc' _ Hcell) as (c' & t' & Hc2 & Ht2 & Hkeq & ->). simpl in *.
      destruct (head_bounds b n c t)
        as (_ & _ & _ & ? & _ & _ & _ & _ & ? & _); [lia..|].
      destruct (head_bounds b n c' t')
        as (_ & _ & _ & ? & _ & _ & _ & _ & ? & _); [lia..|].
      destruct (read_offset_inj b n c t b n c' t')
        as (_ & _ & -> & ->); [lia..|done].
    + intros k Hk. apply Hframe. intros blk Hblk (c & t & Hc & Ht & Hlt & ->).
      destruct (Hts blk Hblk) as (? & ? & ? & ?).
      by apply (Hk (z blk) (y blk) c t); [lia..|].
Qed.
End ReorderPastStates.

Lemma reorder_grid max_length :
  0 ≤ max_length ≤ 2147483647 - 31 →
  let gx := (max_length + 15) `div` 16 in
  u32 ((u32 max_length + kSeqTileSize - 1)%uint `div` kSeqTileSize) = gx ∧
  ∀ bx, 0 ≤ bx < gx ↔ 0 ≤ bx ∧ bx * 16 < max_length.
Proof.
  intros HL gx. unfold kSeqTileSize.
  pose proof (Z.div_mod (max_length + 15) 16 ltac:(lia)) as Hdm.
  pose proof (Z.mod_pos_bound (max_length + 15) 16 ltac:(lia)) as Hmod.
  fold gx in Hdm. split.
  - unfold subu, addu. rewrite (u32_small max_length) by lia.
    rewrite (u32_small (max_length + 16)) by lia.
    rewrite (u32_small (max_length + 16 - 1)) by lia.
    replace (max_length + 16 - 1) with (max_length + 15) by lia. fold gx.
    apply u32_small. lia.
  - intros bx. lia.
Qed.

(** C1 — the transform of the cache layout. For a chunk width of 4 or 8 and
    at most 32 chunks per head, the launcher writes, at every batch entry
    [b], head [n], chunk [c] and time step [t] in range, the chunk that the
    input has at [b, n, t, c]:  out[b,n,c,t] = in[b,n,t,c], whole [float4]
    chunks, for every [max_length], a multiple of the tile of 16 time steps
    or not. Swapping the two axes back gives the input again. *)
Theorem reorder_past_states (stream : cudaStream_t)
    (out_buffer in_buffer : list float4)
    (batch_size num_heads max_length head_size chunk_size : Z) :
  chunk_size = 4 ∨ chunk_size = 8 →
  0 ≤ head_size →
  let H2 := head_size `div` chunk_size in
  let total := batch_size * num_heads * max_length * H2 in
  H2 ≤ kTileSize →
  0 ≤ batch_size ≤ INT_MAX → 0 ≤ num_heads ≤ INT_MAX →
  0 ≤ max_length ≤ INT_MAX - 31 →
  total ≤ INT_MAX →
  total ≤ Z.of_nat (length in_buffer) →
  total ≤ Z.of_nat (length out_buffer) →
  ∃ out',
    ReorderPastStatesKernelLauncher out_buffer in_buffer batch_size num_heads
      max_length head_size chunk_size stream = Some out' ∧
    length out' = length out_buffer ∧
    (∀ b n c t, 0 ≤ b < batch_size → 0 ≤ n < num_heads →
                0 ≤ c < H2 → 0 ≤ t < max_length →
       is_Some (in_buffer !! Z.to_nat (offset_write num_heads max_length H2 b n t c)) ∧
       out' !! Z.to_nat (offset_read num_heads max_length H2 b n c t)
       = in_buffer !! Z.to_nat (offset_write num_heads max_length H2 b n t c)) ∧
    inverse_axis_swap batch_size num_heads max_length H2 out'
    = Some (take (Z.to_nat total) in_buffer).
Proof.
  intros Hchunk Hhead H2 total HH2 HB HN HL Htotal Hin_len Hout_len.
  assert (0 < chunk_size) as Hpos by lia.
  assert (0 ≤ H2) as HH2' by (apply Z.div_pos; lia).
  unfold ReorderPastStatesKernelLauncher.
  rewrite div32_nonneg, option_bind_Some by lia. fold H2.
  rewrite decide_True by done.
  unfold kTileSize in HH2.
  destruct (reorder_grid max_length) as [Hgrid Hgx];
    [rewrite INT_MAX_eq in HL; lia|].
  unfold dim3_3, dim3_2. rewrite Hgrid.
  rewrite (u32_small num_heads), (u32_small batch_size), (u32_small H2)
    by (rewrite INT_MAX_eq in *; lia).
  change (u32 kSeqTileSize) with 16.
  destruct (launch_sync_reorder in_buffer batch_size num_heads max_length H2
              HB HN HL (conj HH2' HH2) Htotal Hin_len stream
              ((max_length + 15) `div` 16) out_buffer Hgx Hout_len)
    as (out' & Hrun & Hlen & Hmoved & _).
  assert (∀ b n c t, 0 ≤ b < batch_size → 0 ≤ n < num_heads →
            0 ≤ c < H2 → 0 ≤ t < max_length →
            0 ≤ offset_write num_heads max_length H2 b n t c < total ∧
            0 ≤ offset_read num_heads max_length H2 b n c t < total ∧
            out' !! Z.to_nat (offset_read num_heads max_length H2 b n c t)
            = in_buffer !! Z.to_nat (offset_write num_heads max_length H2 b n t c))
    as Hcell.
  { intros b n c t Hb Hn Hc Ht.
    destruct (head_offsets batch_size num_heads max_length H2 b n c t Htotal)
      as (_ & _ & _ & ? & _ & ? & ? & ? & ? & ?); [lia..|].
    replace (offset_write num_heads max_length H2 b n t c)
      with (head_base num_heads max_length H2 b n + t * H2 + c)
      by (unfold offset_write, head_base; ring).
    replace (offset_read num_heads max_length H2 b n c t)
      with (head_base num_heads max_length H2 b n + c * max_length + t)
      by (unfold offset_read, head_base; ring).
    unfold total. split_and!; try lia. by apply Hmoved. }
  exists out'. split_and!; [done..| |].
  - intros b n c t Hb Hn Hc Ht.
    destruct (Hcell b n c t) as (? & ? & ?); [done..|].
    split; [apply lookup_lt_is_Some_2; lia|done].
  - unfold inverse_axis_swap. fold total. apply mapM_Some.
    apply Forall2_same_length_lookup.
    split; [rewrite length_seqZ, length_take; lia|].
    intros i k v Hk Hv. apply lookup_seqZ in Hk as [-> Hi].
    apply lookup_take_Some in Hv as [Hv _]. rewrite Z.add_0_l. cbv zeta.
    (* the four indices of the chunk [i] *)
    assert (0 < H2 ∧ 0 < max_length ∧ 0 < num_heads) as (? & ? & ?).
    { unfold total in Hi. nia. }
    set (c := Z.of_nat i `mod` H2).
    set (q := Z.of_nat i `div` H2).
    set (t := q `mod` max_length). set (bn := q `div` max_length).
    pose proof (Z.div_mod (Z.of_nat i) H2 ltac:(lia)) as E1.
    pose proof (Z.mod_pos_bound (Z.of_nat i) H2 ltac:(lia)) as B1.
    pose proof (Z.div_mod q max_length ltac:(lia)) as E2.
    pose proof (Z.mod_pos_bound q max_length ltac:(lia)) as B2.
    pose proof (Z.div_mod bn num_heads ltac:(lia)) as E3.
    pose proof (Z.mod_pos_bound bn num_heads ltac:(lia)) as B3.
    fold c q in E1, B1. fold t bn in E2, B2.
    assert (0 ≤ q) by (apply Z.div_pos; lia).
    assert (0 ≤ bn) by (apply Z.div_pos; lia).
    assert (0 ≤ bn `div` num_heads) by (apply Z.div_pos; lia).
    assert (q < batch_size * num_heads * max_length)
      by (apply Z.div_lt_upper_bound; unfold total in Hi; lia).
    assert (bn < batch_size * num_heads)
      by (apply Z.div_lt_upper_bound; lia).
    assert (bn `div` num_heads < batch_size)
      by (apply Z.div_lt_upper_bound; lia).
    destruct (Hcell (bn `div` num_heads) (bn `mod` num_heads) c t)
      as (_ & Hread & Hsame); [lia..|].
    unfold offset_read, offset_write in Hread, Hsame.
    replace (bn `div` num_heads * num_heads + bn `mod` num_heads)
      with bn in Hread, Hsame by lia.
    replace ((bn * max_length + t) * H2 + c) with (Z.of_nat i) in Hsame by lia.
    rewrite Nat2Z.id in Hsame. rewrite load_lookup by lia.
    by rewrite Hsame.
Qed.

Lemma reorder_past_states_witness :
  (∃ out',
     ReorderPastStatesKernelLauncher (replicate 34 (chunk_of 0))
       (chunk_of <$> seqZ 0 34) 1 1 17 8 4 reversed = Some out' ∧
     out' !! Z.to_nat (offset_read 1 17 (8 `div` 4) 0 0 1 16)
     = (chunk_of <$> seqZ 0 34)
         !! Z.to_nat (offset_write 1 17 (8 `div` 4) 0 0 16 1) ∧
     inverse_axis_swap 1 1 17 (8 `div` 4) out'
     = Some (take (Z.to_nat (1 * 1 * 17 * (8 `div` 4))) (chunk_of <$> seqZ 0 34))) ∧
  (∃ out',
     ReorderPastStatesKernelLauncher (replicate 32 (chunk_of 0))
       (chunk_of <$> seqZ 0 32) 1 2 16 8 8 in_order = Some out' ∧
     out' !! Z.to_nat (offset_read 2 16 (8 `div` 8) 0 1 0 15)
     = (chunk_of <$> seqZ 0 32)
         !! Z.to_nat (offset_write 2 16 (8 `div` 8) 0 1 15 0)).
Proof.
  split.
  - destruct (reorder_past_states reversed (replicate 34 (chunk_of 0))
                (chunk_of <$> seqZ 0 34) 1 1 17 8 4)
      as (out' & Hrun & _ & Hmoved & Hback).
    + by left.
    + lia.
    + vm_compute. discriminate.
    + rewrite INT_MAX_eq. lia.
    + rewrite INT_MAX_eq. lia.
    + rewrite INT_MAX_eq. lia.
    + rewrite INT_MAX_eq. vm_compute. discriminate.
    + vm_compute. discriminate.
    + vm_compute. discriminate.
    + exists out'. split_and!; [done| |done].
      apply (Hmoved 0 0 1 16); try lia.
      change (8 `div` 4) with 2. lia.
  - destruct (reorder_past_states in_order (replicate 32 (chunk_of 0))
                (chunk_of <$> seqZ 0 32) 1 2 16 8 8)
      as (out' & Hrun & _ & Hmoved & _).
    + by right.
    + lia.
    + vm_compute. discriminate.
    + rewrite INT_MAX_eq. lia.
    + rewrite INT_MAX_eq. lia.
    + rewrite INT_MAX_eq. lia.
    + rewrite INT_MAX_eq. vm_compute. discriminate.
    + vm_compute. discriminate.
    + vm_compute. discriminate.
    + exists out'. split; [done|].
      apply (Hmoved 0 1 0 15); try lia.
      change (8 `div` 8) with 1. lia.
Defined.

(** C4, as amended — a chunk width that is not supported. For a positive
    chunk width other than 4 and 8 the launcher launches nothing: it
    returns normally and the output buffer is as it was, with no signal to
    the caller. *)
Theorem reorder_unsupported_chunk (stream : cudaStream_t)
    (out_buffer in_buffer : list float4)
    (batch_size num_heads max_length head_size chunk_size : Z) :
  0 < chunk_size → chunk_size ≠ 4 → chunk_size ≠ 8 →
  ReorderPastStatesKernelLauncher out_buffer in_buffer batch_size num_heads
    max_length head_size chunk_size stream = Some out_buffer.
Proof.
  intros Hpos H4 H8. unfold ReorderPastStatesKernelLauncher, div32.
  rewrite decide_False by lia. rewrite option_bind_Some.
  rewrite decide_False by lia. done.
Qed.

Lemma reorder_unsupported_chunk_witness :
  ReorderPastStatesKernelLauncher [chunk_of 7; chunk_of 7]
    [chunk_of 1; chunk_of 2] 1 1 1 4 2 in_order
  = Some [chunk_of 7; chunk_of 7].
Proof. apply reorder_unsupported_chunk; lia. Defined.

(** C4, as stated, fails: with a chunk width of 2 the launcher does not
    fail, it returns and leaves the output unwritten. *)
Lemma reorder_chunk_2_skipped :
  2 ≠ 4 ∧ 2 ≠ 8 ∧
  ReorderPastStatesKernelLauncher [chunk_of 7; chunk_of 7]
    [chunk_of 1; chunk_of 2] 1 1 1 4 2 in_order ≠ None ∧
  ReorderPastStatesKernelLauncher [chunk_of 7; chunk_of 7]
    [chunk_of 1; chunk_of 2] 1 1 1 4 2 in_order
  = Some [chunk_of 7; chunk_of 7].
Proof. split_and!; [lia|lia|by vm_compute|by vm_compute]. Qed.

(** * Further properties *)

(** ** Failing and empty launches *)

(** a run fails as soon as one of its steps fails on every state that the
    run can reach *)
Lemma run_None {T S} (body : T → S → option S) (inv : S → Prop) ts t s :
  t ∈ ts → inv s →
  (∀ t' s s', t' ∈ ts → inv s → body t' s = Some s' → inv s') →
  (∀ s, inv s → body t s = None) →
  run body ts s = None.
Proof.
  intros Ht Hs Hinv Hfail. revert s Hs.
  induction ts as [|t0 ts IH]; intros s Hs; [by apply elem_of_nil in Ht|].
  simpl. destruct (body t0 s) as [s'|] eqn:E; [|done]. simpl.
  apply elem_of_cons in Ht as [->|Ht].
  { by rewrite Hfail in E. }
  apply IH; [done| |].
  - intros t' s1 s2 Ht'. apply Hinv. by right.
  - apply (Hinv t0 s); [by left|done..].
Qed.





(** ** Conversions *)

Lemma global_x_int_1d_rev g bs t :
  t ∈ threads (Dim3 g 1 1) (Dim3 bs 1 1) → g * bs ≤ INT_MAX + 1 →
  i32 (t.(threadIdx).(x) + t.(blockIdx).(x) * t.(blockDim).(x))%uint = global_x t.
Proof.
  intros Ht Hmax. rewrite <- (global_x_int_1d g bs t Ht Hmax).
  unfold addu. by rewrite Z.add_comm.
Qed.

(** the grid of the conversion launchers:
    [(count + block_size - 1) / block_size] blocks of [block_size = 256] *)
Lemma grid_block_size n :
  0 ≤ n ≤ INT_MAX - 256 →
  dim3_1 (Z.quot (n + 256 - 1)%int 256) = Dim3 ((n + 255) `div` 256) 1 1 ∧
  n ≤ (n + 255) `div` 256 * 256 ≤ INT_MAX + 1.
Proof.
  intros Hn. destruct (grid_256 n) as [<- Hg]; [lia|]. split; [|done].
  rewrite INT_MAX_eq in Hn. do 2 f_equal. int_simpl. f_equal. lia.
Qed.

Lemma lookup_converted {A B} (f : A → B) src dst count (k : nat) :
  0 ≤ count → count ≤ Z.of_nat (length src) → count ≤ Z.of_nat (length dst) →
  converted f src dst count !! k =
  if decide (Z.of_nat k < count) then f <$> src !! k else dst !! k.
Proof.
  intros H0 Hsrc Hdst. unfold converted.
  assert (length (f <$> take (Z.to_nat count) src) = Z.to_nat count) as Hl
    by (rewrite length_fmap, length_take; lia).
  case_decide as Hk.
  - rewrite lookup_app_l by lia. rewrite list_lookup_fmap.
    by rewrite lookup_take_lt by lia.
  - rewrite lookup_app_r by lia. rewrite Hl, lookup_drop. f_equal. lia.
Qed.

Section convert.
Context {A B : Type}.
Variable f : A → B.
Variable stream : cudaStream_t.

Lemma launch_convert src dst count :
  0 ≤ count ≤ INT_MAX - 256 →
  count ≤ Z.of_nat (length src) → count ≤ Z.of_nat (length dst) →
  launch stream (dim3_1 (Z.quot (count + 256 - 1)%int 256)) (dim3_1 256)
         (λ cu dst, convert_thread f cu src dst count) dst
  = Some (converted f src dst count).
Proof.
  intros Hn Hsrc Hdst. unfold launch.
  destruct (grid_block_size count Hn) as [-> Hg].
  change (dim3_1 256) with (Dim3 256 1 1).
  set (g := (count + 255) `div` 256) in *.
  set (ts := order stream 0 builtins (threads (Dim3 g 1 1) (Dim3 256 1 1))).
  assert (∀ t, t ∈ ts ↔ t ∈ threads (Dim3 g 1 1) (Dim3 256 1 1)) as Hts
    by (intros; apply elem_of_order).
  destruct (run_update
              (λ cu dst, convert_thread f cu src dst count)
              (length dst)
              (λ t, bool_decide (global_x t < count)) global_x
              (λ t old, from_option f old (src !! Z.to_nat (global_x t)))
              ts dst)
    as (dst' & Hrun & Hlen' & Hin & Hout); [| | |done|].
  - apply NoDup_order, NoDup_threads.
  - apply Forall_forall. intros t Ht%Hts. unfold updates_cell.
    pose proof (elem_of_threads_1d _ _ _ Ht) as (_ & Hgx & _).
    unfold convert_thread. rewrite (global_x_int_1d_rev g 256) by (done || lia).
    case_bool_decide as Hact.
    + split; [lia|]. intros buf v Hbuf Hv. rewrite decide_True by done.
      rewrite load_lookup by lia.
      destruct (lookup_lt_is_Some_2 src (Z.to_nat (global_x t))) as [a Ha]; [lia|].
      rewrite Ha. simpl. apply store_Some. lia.
    + intros buf _. by rewrite decide_False.
  - intros t1 t2 Ht1%Hts Ht2%Hts _ _. by apply (thread_1d_inj g 256).
  - rewrite Hrun. f_equal. apply list_eq. intros k.
    rewrite lookup_converted by lia. case_decide as Hk.
    + destruct (thread_1d_elem_of g 256 (Z.of_nat k)) as [Hin_t Hgx]; [lia..|].
      specialize (Hin _ (proj2 (Hts _) Hin_t)). rewrite Hgx, Nat2Z.id in Hin.
      rewrite Hin by (by apply bool_decide_eq_true).
      destruct (lookup_lt_is_Some_2 src k) as [a ->]; [lia|].
      destruct (lookup_lt_is_Some_2 dst k) as [b ->]; [lia|]. done.
    + apply Hout. intros t Ht%Hts Hact%bool_decide_eq_true.
      pose proof (elem_of_threads_1d _ _ _ Ht) as (_ & Hgx & _). lia.
Qed.
End convert.

Lemma signed_64_int32 v : representable int32_t v → Int.signed 64 v = v.
Proof.
  unfold representable. simpl. intros Hv. apply signed_id; [lia|].
  unfold Int.min_signed, Int.max_signed in *. simpl in *. lia.
Qed.

(** X1 — widening of [int32_t] to [int64_t]. The launch copies the first
    [count] values of [src] to the same cells of [dst] and changes no value
    on the way: a 32-bit value is the same number as a 64-bit value. The
    cells of [dst] from [count] on keep what they held. *)
Theorem convert_int32_to_int64 (stream : cudaStream_t) (src dst : list Z)
    (count : Z) :
  0 ≤ count ≤ INT_MAX - 256 →
  count ≤ Z.of_nat (length src) → count ≤ Z.of_nat (length dst) →
  Forall (representable int32_t) src →
  LaunchInt32ToInt64 src dst count stream
  = Some (take (Z.to_nat count) src ++ drop (Z.to_nat count) dst).
Proof.
  intros Hn Hsrc Hdst Hrep. unfold LaunchInt32ToInt64. cbv zeta.
  change (λ cu dst0, ConvertInt32ToInt64 cu src dst0 count)
    with (λ cu dst0, convert_thread (Int.signed 64) cu src dst0 count).
  rewrite launch_convert by done. unfold converted. do 2 f_equal.
  etrans; [|apply list_fmap_id]. apply Forall_fmap_ext_1.
  apply Forall_take. eapply Forall_impl; [exact Hrep|].
  intros v Hv. by apply signed_64_int32.
Qed.

Lemma convert_int32_to_int64_witness :
  LaunchInt32ToInt64 [5; -7; 2147483647; 11] [0; 0; 0; 99] 3 reversed
  = Some (take (Z.to_nat 3) [5; -7; 2147483647; 11]
          ++ drop (Z.to_nat 3) [0; 0; 0; 99]).
Proof.
  apply convert_int32_to_int64.
  - rewrite INT_MAX_eq. lia.
  - simpl. lia.
  - simpl. lia.
  - repeat constructor; vm_compute; discriminate.
Defined.

Lemma LaunchFp16ToFp32_converted {half : Type} (__half2float : half → float)
    stream (fp16 : list half) (fp32 : list float) count :
  0 ≤ count ≤ INT_MAX - 256 →
  count ≤ Z.of_nat (length fp16) → count ≤ Z.of_nat (length fp32) →
  LaunchFp16ToFp32 __half2float fp16 fp32 count stream
  = Some (converted __half2float fp16 fp32 count).
Proof.
  intros. unfold LaunchFp16ToFp32. cbv zeta.
  change (λ cu dst, ConvertFp16ToFp32 __half2float cu fp16 dst count)
    with (λ cu dst, convert_thread __half2float cu fp16 dst count).
  by rewrite launch_convert.
Qed.

Lemma LaunchFp32ToFp16_converted {half : Type} (__float2half : float → half)
    stream (fp32 : list float) (fp16 : list half) count :
  0 ≤ count ≤ INT_MAX - 256 →
  count ≤ Z.of_nat (length fp32) → count ≤ Z.of_nat (length fp16) →
  LaunchFp32ToFp16 __float2half fp32 fp16 count stream
  = Some (converted __float2half fp32 fp16 count).
Proof.
  intros. unfold LaunchFp32ToFp16. cbv zeta.
  change (λ cu dst, ConvertFp32ToFp16 __float2half cu fp32 dst count)
    with (λ cu dst, convert_thread __float2half cu fp32 dst count).
  by rewrite launch_convert.
Qed.

(** X2 — the conversions between half and single precision. Each launch
    applies the conversion of the device to the first [count] values of its
    input, cell by cell, whatever the order of the threads, and leaves the
    cells of the output from [count] on as they were. *)
Theorem convert_fp16_fp32 {half : Type} (__half2float : half → float)
    (__float2half : float → half) (stream : cudaStream_t)
    (fp16 : list half) (fp32 : list float) (count : Z) :
  0 ≤ count ≤ INT_MAX - 256 →
  count ≤ Z.of_nat (length fp16) → count ≤ Z.of_nat (length fp32) →
  LaunchFp16ToFp32 __half2float fp16 fp32 count stream
  = Some ((__half2float <$> take (Z.to_nat count) fp16)
          ++ drop (Z.to_nat count) fp32) ∧
  LaunchFp32ToFp16 __float2half fp32 fp16 count stream
  = Some ((__float2half <$> take (Z.to_nat count) fp32)
          ++ drop (Z.to_nat count) fp16).
Proof.
  intros Hn H16 H32. split.
  - by apply LaunchFp16ToFp32_converted.
  - by apply LaunchFp32ToFp16_converted.
Qed.

Lemma convert_fp16_fp32_witness :
  LaunchFp16ToFp32 half2float_ieee
    [half_one_and_half; half_min_subnormal; half_one_and_half]
    [float_two; float_two; float_five] 2 reversed
  = Some ((half2float_ieee
             <$> take (Z.to_nat 2)
                   [half_one_and_half; half_min_subnormal; half_one_and_half])
          ++ drop (Z.to_nat 2) [float_two; float_two; float_five]) ∧
  LaunchFp32ToFp16 float2half_ieee [float_two; float_two; float_five]
    [half_one_and_half; half_min_subnormal; half_one_and_half] 2 reversed
  = Some ((float2half_ieee
             <$> take (Z.to_nat 2) [float_two; float_two; float_five])
          ++ drop (Z.to_nat 2)
               [half_one_and_half; half_min_subnormal; half_one_and_half]).
Proof.
  apply convert_fp16_fp32.
  - rewrite INT_MAX_eq. lia.
  - simpl. lia.
  - simpl. lia.
Defined.

(** X3 — the round trip through single precision. Where converting a half
    to single precision and back gives the half again, converting the first
    [count] values of a buffer of halves to [float] and the result back
    restores these values; with the buffer itself as the output of the
    second launch, the buffer is as it was. *)
Theorem fp16_round_trip {half : Type} (__half2float : half → float)
    (__float2half : float → half) (stream1 stream2 : cudaStream_t)
    (fp16 out : list half) (fp32 : list float) (count : Z) :
  0 ≤ count ≤ INT_MAX - 256 →
  count ≤ Z.of_nat (length fp16) → count ≤ Z.of_nat (length fp32) →
  count ≤ Z.of_nat (length out) →
  (∀ h, h ∈ take (Z.to_nat count) fp16 → __float2half (__half2float h) = h) →
  ∃ fp32',
    LaunchFp16ToFp32 __half2float fp16 fp32 count stream1 = Some fp32' ∧
    LaunchFp32ToFp16 __float2half fp32' out count stream2
    = Some (take (Z.to_nat count) fp16 ++ drop (Z.to_nat count) out) ∧
    LaunchFp32ToFp16 __float2half fp32' fp16 count stream2 = Some fp16.
Proof.
  intros Hn H16 H32 Hout Hrt.
  rewrite LaunchFp16ToFp32_converted by done.
  set (fp32' := converted __half2float fp16 fp32 count).
  exists fp32'. split; [done|].
  assert (length fp32' = length fp32) as Hlen.
  { unfold fp32', converted.
    rewrite length_app, length_fmap, length_take, length_drop. lia. }
  assert (__float2half <$> take (Z.to_nat count) fp32'
          = take (Z.to_nat count) fp16) as Hback.
  { unfold fp32', converted. rewrite take_app_length'
      by (rewrite length_fmap, length_take; lia).
    rewrite <- list_fmap_compose. etrans; [|apply list_fmap_id].
    apply Forall_fmap_ext_1, Forall_forall. intros h Hh. by apply Hrt. }
  rewrite !LaunchFp32ToFp16_converted by (done || lia).
  unfold converted. rewrite Hback. by rewrite take_drop.
Qed.

Lemma fp16_round_trip_witness :
  ∃ fp32',
    LaunchFp16ToFp32 half2float_ieee
      [half_one_and_half; half_min_subnormal; half_one_and_half]
      [float_two; float_two; float_five] 2 in_order = Some fp32' ∧
    LaunchFp32ToFp16 float2half_ieee fp32'
      [half_min_subnormal; half_min_subnormal; half_min_subnormal] 2 reversed
    = Some (take (Z.to_nat 2)
              [half_one_and_half; half_min_subnormal; half_one_and_half]
            ++ drop (Z.to_nat 2)
                 [half_min_subnormal; half_min_subnormal; half_min_subnormal]) ∧
    LaunchFp32ToFp16 float2half_ieee fp32'
      [half_one_and_half; half_min_subnormal; half_one_and_half] 2 reversed
    = Some [half_one_and_half; half_min_subnormal; half_one_and_half].
Proof.
  apply (fp16_round_trip half2float_ieee float2half_ieee).
  - rewrite INT_MAX_eq. lia.
  - simpl. lia.
  - simpl. lia.
  - simpl. lia.
  - intros h [->|[->|[]%elem_of_nil]%elem_of_cons]%elem_of_cons;
      vm_compute; reflexivity.
Defined.

(** ** Position ids *)

(** X4 — the position update and the size of the buffer. The launch
    succeeds exactly when the buffer holds at least [batch_beam_size]
    positions: the kernel checks its index against [batch_beam_size] only,
    and a shorter buffer is read outside of its bounds. When it succeeds the
    first [batch_beam_size] positions are advanced by one and the others
    are left as they were. *)
Theorem update_position_ids_bounds (T : elem_type) (positions : list Z)
    (n : Z) (stream : cudaStream_t) :
  0 ≤ n ≤ INT_MAX - 255 →
  (n ≤ Z.of_nat (length positions) →
   Launch_UpdatePositionIds T positions n stream
   = Some (((λ p, Int.signed (bits T) (p + 1)) <$> take (Z.to_nat n) positions)
           ++ drop (Z.to_nat n) positions)) ∧
  (Z.of_nat (length positions) < n →
   Launch_UpdatePositionIds T positions n stream = None).
Proof.
  intros Hn. split.
  - intros Hlen.
    destruct (Launch_UpdatePositionIds_lookup T stream positions n)
      as (positions' & -> & Hlen' & Hlook); [done..|].
    f_equal. apply list_eq. intros k. rewrite Hlook.
    fold (converted (λ p, Int.signed (bits T) (p + 1)) positions positions n).
    by rewrite lookup_converted by lia.
  - intros Hlen. unfold Launch_UpdatePositionIds, launch.
    destruct (grid_256 n Hn) as [-> Hg]. change (dim3_1 256) with (Dim3 256 1 1).
    set (g := (n + 255) `div` 256) in *.
    destruct (thread_1d_elem_of g 256 (Z.of_nat (length positions)))
      as [Hin_t Hgx]; [lia..|].
    apply (run_None _ (λ s, length s = length positions) _
             (thread_1d g 256 (Z.of_nat (length positions)))).
    + by apply elem_of_order.
    + done.
    + intros t s s' _ Hs. unfold UpdatePositionIds. case_decide; [|congruence].
      intros (p & _ & Hst)%bind_Some. unfold store in Hst.
      case_decide; [|done]. injection Hst as <-. by rewrite length_insert.
    + intros s Hs. unfold UpdatePositionIds.
      rewrite (global_x_int_1d g 256) by (done || lia). rewrite Hgx.
      rewrite decide_True by done. rewrite load_lookup by lia.
      rewrite Nat2Z.id, lookup_ge_None_2 by lia. done.
Qed.

Lemma update_position_ids_bounds_witness :
  Launch_UpdatePositionIds int32_t [4; 5; 6; 7] 3 reversed = Some [5; 6; 7; 7] ∧
  Launch_UpdatePositionIds int32_t [4; 5] 3 reversed = None.
Proof.
  split.
  - apply (update_position_ids_bounds int32_t [4; 5; 6; 7] 3 reversed).
    + rewrite INT_MAX_eq. lia.
    + simpl. lia.
  - apply (update_position_ids_bounds int32_t [4; 5] 3 reversed).
    + rewrite INT_MAX_eq. lia.
    + simpl. lia.
Defined.

(** ** Attention mask *)

(** X5 — the frame of the grow path. With [update_only] false the launch
    writes the first [current_length] columns of the first
    [batch_beam_size] rows of the new buffer and nothing else: the columns
    from [current_length] on of these rows, and the cells after the rows,
    keep what they held, and the buffer keeps its length. *)
Theorem extend_mask_grow_frame (stream : cudaStream_t)
    (mask_data old_mask_data : list Z)
    (batch_beam_size current_length max_length : Z) :
  0 ≤ batch_beam_size →
  1 ≤ current_length ≤ max_length →
  batch_beam_size * max_length ≤ INT_MAX - 255 →
  batch_beam_size * max_length ≤ Z.of_nat (length mask_data) →
  batch_beam_size * (current_length - 1) ≤ Z.of_nat (length old_mask_data) →
  ∃ mask',
    Launch_UpdateAttentionMask mask_data old_mask_data batch_beam_size
      current_length max_length false stream = Some mask' ∧
    length mask' = length mask_data ∧
    (∀ i j, 0 ≤ i < batch_beam_size → current_length ≤ j < max_length →
       mask' !! Z.to_nat (i * max_length + j)
       = mask_data !! Z.to_nat (i * max_length + j)) ∧
    (∀ k : nat, batch_beam_size * max_length ≤ Z.of_nat k →
       mask' !! k = mask_data !! k).
Proof.
  intros Hrows Hcl Hmax Hlen Hold.
  destruct (CopyAndUpdateAttentionMask_lookup stream batch_beam_size
              current_length max_length Hrows mask_data old_mask_data)
    as (mask' & Hrun & Hlen' & Hlook); [done..|].
  exists mask'. split_and!; [done..| |].
  - intros i j Hi Hj. assert (0 ≤ i * max_length) by nia.
    rewrite Hlook. simpl. rewrite Z2Nat.id by lia.
    destruct (offset_div_mod i j max_length) as [-> ->]; [lia|].
    by rewrite decide_False by lia.
  - intros k Hk. rewrite Hlook. simpl. rewrite decide_False; [done|].
    intros [Hrow _].
    pose proof (Z.div_mod (Z.of_nat k) max_length ltac:(lia)).
    pose proof (Z.mod_pos_bound (Z.of_nat k) max_length ltac:(lia)). nia.
Qed.

Lemma extend_mask_grow_frame_witness :
  ∃ mask',
    Launch_UpdateAttentionMask [5; 5; 5; 5; 6; 6; 6; 6; 7] [1; 1] 2 2 4
      false reversed = Some mask' ∧
    length mask' = length [5; 5; 5; 5; 6; 6; 6; 6; 7] ∧
    (∀ i j, 0 ≤ i < 2 → 2 ≤ j < 4 →
       mask' !! Z.to_nat (i * 4 + j)
       = [5; 5; 5; 5; 6; 6; 6; 6; 7] !! Z.to_nat (i * 4 + j)) ∧
    (∀ k : nat, 2 * 4 ≤ Z.of_nat k →
       mask' !! k = [5; 5; 5; 5; 6; 6; 6; 6; 7] !! k).
Proof.
  apply extend_mask_grow_frame.
  - lia.
  - lia.
  - rewrite INT_MAX_eq. lia.
  - simpl. lia.
  - simpl. lia.
Defined.

(** X6 — the grow path makes causal rows. Where the rows of the old mask
    hold 1 in all their [current_length - 1] columns and the rows of the new
    buffer are zero, after the launch with [update_only] false every row
    holds 1 in its first [current_length] columns and 0 in the others. *)
Theorem mask_causal_grow (stream : cudaStream_t)
    (mask_data old_mask_data : list Z)
    (batch_beam_size current_length max_length : Z) :
  0 ≤ batch_beam_size →
  1 ≤ current_length ≤ max_length →
  batch_beam_size * max_length ≤ INT_MAX - 255 →
  batch_beam_size * max_length ≤ Z.of_nat (length mask_data) →
  batch_beam_size * (current_length - 1) ≤ Z.of_nat (length old_mask_data) →
  (∀ i, 0 ≤ i < batch_beam_size →
     causal_row old_mask_data (current_length - 1) i (current_length - 1)) →
  (∀ i, 0 ≤ i < batch_beam_size → causal_row mask_data max_length i 0) →
  ∃ mask',
    Launch_UpdateAttentionMask mask_data old_mask_data batch_beam_size
      current_length max_length false stream = Some mask' ∧
    ∀ i, 0 ≤ i < batch_beam_size → causal_row mask' max_length i current_length.
Proof.
  intros Hrows Hcl Hmax Hlen Hold Hones Hzero.
  destruct (CopyAndUpdateAttentionMask_lookup stream batch_beam_size
              current_length max_length Hrows mask_data old_mask_data)
    as (mask' & Hrun & _ & Hlook); [done..|].
  exists mask'. split; [done|]. intros i Hi j Hj.
  assert (0 ≤ i * max_length) by nia.
  rewrite Hlook. simpl. rewrite Z2Nat.id by lia.
  destruct (offset_div_mod i j max_length) as [-> ->]; [lia|].
  destruct (decide (j < current_length)) as [Hin|Hout].
  - rewrite decide_True by lia. case_decide as Hlast; [|done].
    rewrite (Hones i Hi j) by lia. by rewrite decide_True.
  - rewrite decide_False by lia. rewrite (Hzero i Hi j) by lia.
    by rewrite decide_False by lia.
Qed.

Lemma mask_causal_grow_witness :
  ∃ mask',
    Launch_UpdateAttentionMask [0; 0; 0; 0; 0; 0; 0; 0] [1; 1; 1; 1] 2 3 4
      false reversed = Some mask' ∧
    ∀ i, 0 ≤ i < 2 → causal_row mask' 4 i 3.
Proof.
  apply mask_causal_grow.
  - lia.
  - lia.
  - rewrite INT_MAX_eq. lia.
  - simpl. lia.
  - simpl. lia.
  - intros i Hi j Hj. assert (i = 0 ∨ i = 1) as [-> | ->] by lia;
      (assert (j = 0 ∨ j = 1) as [-> | ->] by lia); reflexivity.
  - intros i Hi j Hj. assert (i = 0 ∨ i = 1) as [-> | ->] by lia;
      (assert (j = 0 ∨ j = 1 ∨ j = 2 ∨ j = 3) as [-> | [-> | [-> | ->]]] by lia);
      reflexivity.
Defined.

(** X7 — the fast path keeps the rows causal. Where every row holds 1 in
    its first [current_length] columns and 0 in the others, after the launch
    with [update_only] true every row holds 1 in its first
    [current_length + 1] columns and 0 in the others: the valid prefix has
    grown by one column. *)
Theorem mask_causal_update_only (stream : cudaStream_t)
    (mask_data old_mask_data : list Z)
    (batch_beam_size current_length max_length : Z) :
  0 ≤ batch_beam_size →
  0 ≤ current_length < max_length →
  batch_beam_size * max_length ≤ INT_MAX →
  batch_beam_size * max_length ≤ Z.of_nat (length mask_data) →
  (∀ i, 0 ≤ i < batch_beam_size →
     causal_row mask_data max_length i current_length) →
  ∃ mask',
    Launch_UpdateAttentionMask mask_data old_mask_data batch_beam_size
      current_length max_length true stream = Some mask' ∧
    ∀ i, 0 ≤ i < batch_beam_size →
      causal_row mask' max_length i (current_length + 1).
Proof.
  intros Hrows Hcl Hmax Hlen Hcausal.
  destruct (UpdateAttentionMask_lookup stream batch_beam_size current_length
              max_length Hrows mask_data old_mask_data)
    as (mask' & Hrun & _ & Hlook); [done..|].
  exists mask'. split; [done|]. intros i Hi j Hj.
  assert (0 ≤ i * max_length) by nia.
  rewrite Hlook. rewrite Z2Nat.id by lia.
  destruct (offset_div_mod i j max_length) as [-> ->]; [lia|].
  destruct (decide (j = current_length)) as [->|Hne].
  - rewrite decide_True by lia. by rewrite decide_True by lia.
  - rewrite decide_False by lia. rewrite (Hcausal i Hi j) by lia.
    do 2 case_decide; (done || lia).
Qed.

Lemma mask_causal_update_only_witness :
  ∃ mask',
    Launch_UpdateAttentionMask [1; 1; 0; 0; 1; 1; 0; 0] [] 2 2 4
      true reversed = Some mask' ∧
    ∀ i, 0 ≤ i < 2 → causal_row mask' 4 i (2 + 1).
Proof.
  apply mask_causal_update_only.
  - lia.
  - lia.
  - rewrite INT_MAX_eq. lia.
  - simpl. lia.
  - intros i Hi j Hj. assert (i = 0 ∨ i = 1) as [-> | ->] by lia;
      (assert (j = 0 ∨ j = 1 ∨ j = 2 ∨ j = 3) as [-> | [-> | [-> | ->]]] by lia);
      reflexivity.
Defined.

(** the fast path stores in the cell [i * max_length + current_length] of
    every row [i], whatever the column *)
Lemma UpdateAttentionMask_cells stream mask_data old_mask_data
    batch_beam_size current_length max_length :
  0 ≤ batch_beam_size → 0 < max_length → 0 ≤ current_length →
  batch_beam_size * max_length + current_length ≤ INT_MAX →
  (∀ i, 0 ≤ i < batch_beam_size →
     i * max_length + current_length < Z.of_nat (length mask_data)) →
  ∃ mask',
    Launch_UpdateAttentionMask mask_data old_mask_data batch_beam_size
      current_length max_length true stream = Some mask' ∧
    length mask' = length mask_data ∧
    (∀ i, 0 ≤ i < batch_beam_size →
       mask' !! Z.to_nat (i * max_length + current_length) = Some 1) ∧
    (∀ k : nat,
       (∀ i, 0 ≤ i < batch_beam_size →
          Z.of_nat k ≠ i * max_length + current_length) →
       mask' !! k = mask_data !! k).
Proof.
  rewrite INT_MAX_eq. intros Hrows Hml Hcl Hmax Hlen.
  unfold Launch_UpdateAttentionMask, launch.
  assert (batch_beam_size ≤ batch_beam_size * max_length) by nia.
  unfold dim3_1. rewrite (u32_small batch_beam_size) by lia.
  change (u32 1) with 1.
  set (ts := order stream 0 builtins
               (threads (Dim3 batch_beam_size 1 1) (Dim3 1 1 1))).
  assert (∀ t, t ∈ ts ↔ t ∈ threads (Dim3 batch_beam_size 1 1) (Dim3 1 1 1))
    as Hts by (intros; apply elem_of_order).
  assert (∀ t, t ∈ ts → 0 ≤ x (blockIdx t) < batch_beam_size) as Hbx.
  { intros t (_ & _ & Hb%elem_of_dim3_range & _)%Hts%elem_of_threads.
    simpl in Hb. lia. }
  destruct (run_update
              (λ cu mask_data, UpdateAttentionMask cu mask_data
                 batch_beam_size current_length max_length)
              (length mask_data)
              (λ _, true)
              (λ t, x (blockIdx t) * max_length + current_length)
              (λ _ _, 1) ts mask_data)
    as (mask' & Hrun & Hlen' & Hin & Hout); [| | |done|].
  - apply NoDup_order, NoDup_threads.
  - apply Forall_forall. intros t Ht. specialize (Hbx t Ht). simpl.
    specialize (Hlen _ Hbx).
    assert (0 ≤ x (blockIdx t) * max_length ≤ batch_beam_size * max_length)
      by nia.
    split; [lia|]. intros buf v Hbuf _. unfold UpdateAttentionMask.
    int_simpl. rewrite decide_True by lia. apply store_Some. lia.
  - intros t1 t2 Ht1 Ht2 _ _ Hoff.
    apply (thread_1d_inj batch_beam_size 1); [by apply Hts..|].
    apply Hts, elem_of_threads_1d in Ht1 as (_ & _ & E1).
    apply Hts, elem_of_threads_1d in Ht2 as (_ & _ & E2).
    rewrite E1, E2 in Hoff. unfold thread_1d in Hoff. simpl in Hoff.
    rewrite !Z.div_1_r in Hoff. nia.
  - exists mask'. split_and!; [done..| |].
    + intros i Hi.
      destruct (thread_1d_elem_of batch_beam_size 1 i) as [Hin_t Hgx]; [lia..|].
      specialize (Hin _ (proj2 (Hts _) Hin_t) eq_refl).
      unfold thread_1d in Hin. simpl in Hin. rewrite Z.div_1_r in Hin.
      rewrite Hin. specialize (Hlen _ Hi). assert (0 ≤ i * max_length) by nia.
      destruct (lookup_lt_is_Some_2 mask_data
                  (Z.to_nat (i * max_length + current_length)))
        as [v ->]; [lia|done].
    + intros k Hk. apply Hout. intros t Ht _ Hoff. specialize (Hbx t Ht).
      assert (0 ≤ x (blockIdx t) * max_length) by nia.
      apply (Hk _ Hbx). lia.
Qed.

(** X8 — the fast path on a full mask. The kernel does not compare
    [current_length] with [max_length]: with [current_length = max_length]
    the 1 of row [i] lands in column 0 of row [i + 1], and the 1 of the last
    row lands after the rows. Where the buffer ends with the rows this store
    is outside of the buffer; where it is longer, the launch succeeds and
    has overwritten the first column of the rows that follow. *)
Theorem extend_mask_update_only_full (stream : cudaStream_t)
    (mask_data old_mask_data : list Z) (batch_beam_size max_length : Z) :
  1 ≤ batch_beam_size → 1 ≤ max_length →
  (batch_beam_size + 1) * max_length ≤ INT_MAX →
  (Z.of_nat (length mask_data) = batch_beam_size * max_length →
   Launch_UpdateAttentionMask mask_data old_mask_data batch_beam_size
     max_length max_length true stream = None) ∧
  (batch_beam_size * max_length < Z.of_nat (length mask_data) →
   ∃ mask',
     Launch_UpdateAttentionMask mask_data old_mask_data batch_beam_size
       max_length max_length true stream = Some mask' ∧
     (∀ i, 0 ≤ i < batch_beam_size →
        mask' !! Z.to_nat ((i + 1) * max_length + 0) = Some 1) ∧
     (∀ k : nat,
        (∀ i, 0 ≤ i < batch_beam_size →
           Z.of_nat k ≠ (i + 1) * max_length + 0) →
        mask' !! k = mask_data !! k)).
Proof.
  intros Hrows Hml Hmax. split.
  - intros Hlen. rewrite INT_MAX_eq in Hmax.
    unfold Launch_UpdateAttentionMask, launch.
    assert (batch_beam_size ≤ batch_beam_size * max_length) by nia.
    unfold dim3_1. rewrite (u32_small batch_beam_size) by lia.
    change (u32 1) with 1.
    destruct (thread_1d_elem_of batch_beam_size 1 (batch_beam_size - 1))
      as [Hin_t _]; [lia..|].
    apply (run_None _ (λ s, length s = length mask_data) _
             (thread_1d batch_beam_size 1 (batch_beam_size - 1))).
    + by apply elem_of_order.
    + done.
    + intros t s s' _ Hs. unfold UpdateAttentionMask. case_decide; [|congruence].
      unfold store. case_decide; [|done]. intros [= <-].
      by rewrite length_insert.
    + intros s Hs. unfold UpdateAttentionMask, thread_1d. simpl.
      rewrite Z.div_1_r.
      assert ((batch_beam_size - 1) * max_length + max_length
              = batch_beam_size * max_length) as Heq by lia.
      assert (0 ≤ (batch_beam_size - 1) * max_length) by nia.
      int_simpl. rewrite decide_True by lia.
      unfold store. rewrite decide_False; [done|]. lia.
  - intros Hlen.
    destruct (UpdateAttentionMask_cells stream mask_data old_mask_data
                batch_beam_size max_length max_length)
      as (mask' & Hrun & _ & Hin & Hout); [lia..| |].
    { intros i Hi. nia. }
    exists mask'. split; [done|]. split.
    + intros i Hi. rewrite <- (Hin i Hi). f_equal. lia.
    + intros k Hk. apply Hout. intros i Hi. specialize (Hk i Hi). lia.
Qed.

Lemma extend_mask_update_only_full_witness :
  Launch_UpdateAttentionMask [1; 1; 1; 1] [] 2 2 2 true in_order = None ∧
  ∃ mask',
    Launch_UpdateAttentionMask [1; 1; 1; 1; 0; 0; 0; 0] [] 2 2 2 true in_order
    = Some mask' ∧
    mask' !! Z.to_nat ((0 + 1) * 2 + 0) = Some 1 ∧
    mask' !! Z.to_nat ((1 + 1) * 2 + 0) = Some 1.
Proof.
  split.
  - apply (extend_mask_update_only_full in_order [1; 1; 1; 1] [] 2 2).
    + lia.
    + lia.
    + rewrite INT_MAX_eq. lia.
    + reflexivity.
  - destruct (extend_mask_update_only_full in_order
                [1; 1; 1; 1; 0; 0; 0; 0] [] 2 2) as [_ Hsome].
    + lia.
    + lia.
    + rewrite INT_MAX_eq. lia.
    + destruct Hsome as (mask' & Hrun & Hin & _); [simpl; lia|].
      exists mask'. split; [done|]. split; apply Hin; lia.
Defined.

(** X9 — the grow path needs a length. With [update_only] false and
    [current_length = 0] every thread divides its index by zero: as soon as
    one thread is launched (the mask has a cell) the launch is undefined,
    whatever the buffers. *)
Theorem extend_mask_grow_zero_length (stream : cudaStream_t)
    (mask_data old_mask_data : list Z) (batch_beam_size max_length : Z) :
  1 ≤ batch_beam_size * max_length ≤ INT_MAX - 255 →
  Launch_UpdateAttentionMask mask_data old_mask_data batch_beam_size
    0 max_length false stream = None.
Proof.
  intros Hsize. unfold Launch_UpdateAttentionMask, launch.
  assert (batch_beam_size * max_length ≤ 2147483647 - 255) as Hmax'
    by (rewrite <- INT_MAX_eq; lia).
  unfold mul32 at 1. rewrite i32_small by lia.
  destruct (grid_256 (batch_beam_size * max_length)) as [-> Hg]; [lia|].
  change (dim3_1 256) with (Dim3 256 1 1).
  set (g := (batch_beam_size * max_length + 255) `div` 256) in *.
  destruct (thread_1d_elem_of g 256 0) as [Hin_t _]; [lia..|].
  apply (run_None _ (λ _, True) _ (thread_1d g 256 0)).
  - by apply elem_of_order.
  - done.
  - done.
  - intros s _. unfold CopyAndUpdateAttentionMask, div32.
    rewrite decide_True by (by left). done.
Qed.

Lemma extend_mask_grow_zero_length_witness :
  Launch_UpdateAttentionMask [0; 0; 0; 0] [] 2 0 2 false in_order = None.
Proof.
  apply extend_mask_grow_zero_length. rewrite INT_MAX_eq. lia.
Defined.

(** ** End-of-sequence tokens *)

(** the cell of the token [v] in the row [r] of the logits *)
Lemma logits_cell r v batch_beam_size vocab_size :
  0 ≤ r < batch_beam_size → 0 ≤ v < vocab_size →
  0 ≤ r * vocab_size + v < batch_beam_size * vocab_size ∧
  (r * vocab_size + v) `div` vocab_size = r.
Proof.
  intros Hr Hv.
  destruct (offset_bound r v batch_beam_size vocab_size) as [? ?]; [lia..|].
  destruct (offset_div_mod r v vocab_size) as [? _]; [lia|]. lia.
Qed.

(** the loop of the kernel on ids that may be repeated: the slot of an id
    that was seen before holds [lowest()], which does not change the
    maximum *)
Lemma eos_loop_repeated (l : Z) (eos_token_ids seen rest : list Z) buf :
  eos_token_ids = seen ++ rest →
  (∀ e, e ∈ eos_token_ids → 0 ≤ l + e < Z.of_nat (length buf)) →
  run (λ i '(max, batch_logits),
         e ← load eos_token_ids i;
         v ← load batch_logits (l + e);
         batch_logits ← store batch_logits (l + e) float_lowest;
         Some (float_max max v, batch_logits))
      (seqZ (Z.of_nat (length seen)) (Z.of_nat (length rest)))
      (running_max (row_scores buf l seen), clear_all l seen buf)
  = Some (running_max (row_scores buf l eos_token_ids),
          clear_all l eos_token_ids buf).
Proof.
  intros Heos Hin. revert seen Heos.
  induction rest as [|e rest IH]; intros seen Heos.
  { rewrite app_nil_r in Heos. by subst. }
  assert (e ∈ eos_token_ids) as He
    by (rewrite Heos; apply elem_of_app; right; by left).
  assert (∀ e', e' ∈ seen → 0 ≤ l + e' < Z.of_nat (length buf)) as Hseen.
  { intros e' He'. apply Hin. rewrite Heos. apply elem_of_app. by left. }
  pose proof (Hin e He) as Hle.
  cbn [length]. rewrite seqZ_cons_nat. cbn [run].
  rewrite load_lookup by lia. rewrite Nat2Z.id.
  assert (eos_token_ids !! length seen = Some e) as Hl
    by (rewrite Heos; by apply list_lookup_middle).
  rewrite Hl. rewrite option_bind_Some.
  rewrite load_lookup by lia. rewrite lookup_clear_all by done.
  rewrite Z2Nat.id by lia. replace (l + e - l) with e by lia.
  destruct (lookup_lt_is_Some_2 buf (Z.to_nat (l + e))) as [s Hs]; [lia|].
  assert (row_scores buf l (seen ++ [e])
          = row_scores buf l seen ++ [s]) as Hscores.
  { unfold row_scores. rewrite fmap_app. simpl. by rewrite Hs. }
  assert (float_max (running_max (row_scores buf l seen))
            (if decide (e ∈ seen) then float_lowest else s)
          = running_max (row_scores buf l (seen ++ [e]))) as Hmax.
  { rewrite Hscores. unfold running_max at 2. rewrite foldl_app. simpl.
    fold (running_max (row_scores buf l seen)).
    destruct (running_max_spec (row_scores buf l seen)) as (_ & Hlow & Hall & _).
    case_decide as Hdup; [|done].
    unfold float_max. rewrite Hlow. rewrite Hall; [done|].
    unfold row_scores. apply list_elem_of_fmap. exists e. by rewrite Hs. }
  replace (Z.of_nat (length seen) + 1) with (Z.of_nat (length (seen ++ [e])))
    by (rewrite length_app; simpl; lia).
  assert (store (clear_all l seen buf) (l + e) float_lowest
          = Some (clear_all l (seen ++ [e]) buf)) as Hstore.
  { rewrite store_Some by (rewrite length_clear_all; lia).
    f_equal. unfold clear_all. by rewrite foldl_app. }
  case_decide as Hdup; rewrite ?Hs, !option_bind_Some, Hstore,
    !option_bind_Some, Hmax; apply IH; by rewrite Heos, <- app_assoc.
Qed.

Lemma HandleEOSArray_thread_repeated cu batch_logits batch_beam_size
    vocab_size eos_token_ids :
  eos_token_ids ≠ [] →
  (∀ e, e ∈ eos_token_ids → 0 ≤ e < vocab_size) →
  0 ≤ batch_beam_size → batch_beam_size * vocab_size ≤ INT_MAX →
  0 ≤ x (blockIdx cu) → 0 ≤ x (blockDim cu) → 0 ≤ x (threadIdx cu) →
  global_x cu ≤ INT_MAX →
  batch_beam_size * vocab_size ≤ Z.of_nat (length batch_logits) →
  HandleEOSArray cu batch_logits batch_beam_size vocab_size eos_token_ids
                 (Z.of_nat (length eos_token_ids))
  = Some (if decide (global_x cu < batch_beam_size)
          then merged_row (global_x cu * vocab_size) eos_token_ids batch_logits
          else batch_logits).
Proof.
  intros Hne Hrange Hbbs Hsize Hbx Hbd Htx Hgx Hlen. unfold HandleEOSArray.
  rewrite global_x_int by done.
  assert (0 ≤ global_x cu) by (unfold global_x; nia).
  rewrite INT_MAX_eq in *.
  destruct (decide (global_x cu < batch_beam_size)) as [Hact|Hact].
  2:{ by rewrite decide_True by lia. }
  rewrite decide_False by lia.
  destruct eos_token_ids as [|e0 ids] eqn:Heos; [done|].
  assert (0 ≤ e0 < vocab_size) by (apply Hrange; by left).
  destruct (logits_cell (global_x cu) e0 batch_beam_size vocab_size)
    as [? _]; [lia..|].
  replace (global_x cu * vocab_size)%int with (global_x cu * vocab_size)
    by (unfold mul32; rewrite i32_small; nia).
  set (l := global_x cu * vocab_size) in *.
  assert (∀ e, e ∈ e0 :: ids → 0 ≤ l + e < Z.of_nat (length batch_logits)) as Hin.
  { intros e He. apply Hrange in He.
    destruct (logits_cell (global_x cu) e batch_beam_size vocab_size)
      as [? _]; [lia..|]. unfold l. lia. }
  pose proof (eos_loop_repeated l (e0 :: ids) [] (e0 :: ids) batch_logits
                eq_refl Hin) as Hloop.
  change (running_max (row_scores batch_logits l []), clear_all l [] batch_logits)
    with (float_lowest, batch_logits) in Hloop.
  change (Z.of_nat (length (@nil Z))) with 0 in Hloop.
  rewrite Hloop.
  rewrite option_bind_Some. cbn beta iota.
  rewrite load_lookup by lia. change ((e0 :: ids) !! Z.to_nat 0) with (Some e0).
  rewrite option_bind_Some. rewrite store_Some.
  - done.
  - rewrite length_clear_all. apply Hin. by left.
Qed.

Lemma LaunchHandleEOSArray_repeated_lookup stream batch_logits
    batch_beam_size vocab_size eos_token_ids :
  eos_token_ids ≠ [] →
  (∀ e, e ∈ eos_token_ids → 0 ≤ e < vocab_size) →
  0 ≤ batch_beam_size ≤ INT_MAX - 255 →
  batch_beam_size * vocab_size ≤ INT_MAX →
  batch_beam_size * vocab_size ≤ Z.of_nat (length batch_logits) →
  ∃ logits',
    LaunchHandleEOSArray batch_logits batch_beam_size vocab_size eos_token_ids
      (Z.of_nat (length eos_token_ids)) stream = Some logits' ∧
    length logits' = length batch_logits ∧
    ∀ k : nat, logits' !! k =
      if decide (Z.of_nat k `div` vocab_size < batch_beam_size)
      then merged_row (Z.of_nat k `div` vocab_size * vocab_size)
                      eos_token_ids batch_logits !! k
      else batch_logits !! k.
Proof.
  intros Hne eos_range Hbbs Hsize Hlen. unfold LaunchHandleEOSArray, launch.
  destruct (grid_256 batch_beam_size) as [-> Hg]; [lia|].
  change (dim3_1 256) with (Dim3 256 1 1).
  set (g := (batch_beam_size + 255) `div` 256) in *.
  set (ts := order stream 0 builtins (threads (Dim3 g 1 1) (Dim3 256 1 1))).
  assert (∀ t, t ∈ ts ↔ t ∈ threads (Dim3 g 1 1) (Dim3 256 1 1)) as Hts
    by (intros; apply elem_of_order).
  assert (∃ e0 ids, eos_token_ids = e0 :: ids) as (e0 & ids & Heos)
    by (destruct eos_token_ids; [done|eauto]).
  assert (0 ≤ e0 < vocab_size) as He0 by (apply eos_range; rewrite Heos; by left).
  set (body := λ cu bl, HandleEOSArray cu bl batch_beam_size vocab_size
                          eos_token_ids (Z.of_nat (length eos_token_ids))).
  assert (∀ t buf, t ∈ ts → length buf = length batch_logits →
            0 ≤ global_x t ∧
            body t buf = Some (if decide (global_x t < batch_beam_size)
                               then merged_row (global_x t * vocab_size)
                                               eos_token_ids buf
                               else buf)) as Hbody.
  { intros t buf Ht%Hts Hbuf.
    pose proof (elem_of_threads_1d _ _ _ Ht) as (_ & Hgx & _).
    apply elem_of_threads in Ht as (_ & Hb & Hbi & Hti).
    apply elem_of_dim3_range in Hbi, Hti. simpl in *.
    split; [lia|].
    apply HandleEOSArray_thread_repeated; rewrite ?Hb; simpl; try done; lia. }
  assert (∀ t (buf : list float) e,
            global_x t < batch_beam_size → 0 ≤ global_x t →
            length buf = length batch_logits → e ∈ eos_token_ids →
            0 ≤ global_x t * vocab_size + e < Z.of_nat (length buf) ∧
            (global_x t * vocab_size + e) `div` vocab_size = global_x t) as Hrow.
  { intros t buf e Hact Hgx Hbuf He%eos_range.
    destruct (logits_cell (global_x t) e batch_beam_size vocab_size)
      as [? ?]; [lia..|]. lia. }
  set (cells := λ (t : builtins) (k : nat),
         global_x t < batch_beam_size ∧ Z.of_nat k `div` vocab_size = global_x t).
  assert (∀ t buf (k : nat), t ∈ ts → length buf = length batch_logits →
            global_x t < batch_beam_size →
            merged_row (global_x t * vocab_size) eos_token_ids buf !! k =
            if decide (Z.of_nat k `div` vocab_size = global_x t)
            then merged_row (global_x t * vocab_size) eos_token_ids buf !! k
            else buf !! k) as Hframe.
  { intros t buf k Ht Hbuf Hact. case_decide as Hk; [done|].
    destruct (Hbody t buf Ht Hbuf) as [Hgx _].
    rewrite Heos, lookup_merged_row.
    2:{ intros e He. rewrite <- Heos in He. by apply Hrow. }
    rewrite decide_False.
    2:{ intros Hk0. apply Hk.
        destruct (Hrow t buf e0) as [_ Hd]; [done..|rewrite Heos; by left|].
        rewrite <- Hd. f_equal. lia. }
    rewrite decide_False; [done|]. intros Hk0. apply Hk.
    destruct (Hrow t buf (Z.of_nat k - global_x t * vocab_size))
      as [_ Hd]; [done..|rewrite Heos; by right|].
    rewrite <- Hd. f_equal. lia. }
  destruct (run_parallel body (length batch_logits) cells ts batch_logits)
    as (logits' & Hrun & Hlen' & Hin & Hout); [| | | |done|].
  - apply NoDup_order, NoDup_threads.
  - apply Forall_forall. intros t Ht buf Hbuf.
    destruct (Hbody t buf Ht Hbuf) as [Hgx ->]. eexists. split; [done|].
    case_decide as Hact; [|done]. split; [by rewrite length_merged_row|].
    intros k Hk. rewrite Hframe by done. rewrite decide_False; [done|].
    intros Heq. by apply Hk.
  - apply Forall_forall. intros t Ht b1 b2 b1' b2' Hl1 Hl2 Hagree H1 H2 k [Hact Hk].
    destruct (Hbody t b1 Ht Hl1) as [Hgx E1]. destruct (Hbody t b2 Ht Hl2) as [_ E2].
    rewrite E1 in H1. rewrite E2 in H2. rewrite decide_True in H1, H2 by done.
    injection H1 as <-. injection H2 as <-.
    assert (∀ e, e ∈ eos_token_ids →
              b1 !! Z.to_nat (global_x t * vocab_size + e)
              = b2 !! Z.to_nat (global_x t * vocab_size + e)) as Hsame.
    { intros e He. apply Hagree. split; [done|].
      destruct (Hrow t b1 e) as [? Hd]; [done..|].
      by rewrite Z2Nat.id by lia. }
    rewrite Heos, !lookup_merged_row.
    2,3: intros e He; rewrite <- Heos in He; by apply Hrow.
    rewrite <- Heos.
    replace (row_scores b2 (global_x t * vocab_size) eos_token_ids)
      with (row_scores b1 (global_x t * vocab_size) eos_token_ids).
    2:{ apply list_fmap_ext. intros _ e He%list_elem_of_lookup_2.
        by rewrite Hsame. }
    repeat case_decide; try done. by apply Hagree.
  - intros t1 t2 k Ht1 Ht2 [_ Hk1] [_ Hk2].
    apply (thread_1d_inj g 256); [by apply Hts..|congruence].
  - exists logits'. split_and!; [done..|]. intros k.
    assert (0 ≤ Z.of_nat k `div` vocab_size) by (apply Z.div_pos; lia).
    case_decide as Hk.
    + destruct (thread_1d_elem_of g 256 (Z.of_nat k `div` vocab_size))
        as [Hin_t Hgx]; [lia..|].
      apply Hts in Hin_t.
      destruct (Hin _ k Hin_t) as (b & Hb & ->).
      { split; rewrite Hgx; done. }
      destruct (Hbody _ batch_logits Hin_t eq_refl) as [_ E].
      rewrite E, Hgx in Hb. rewrite decide_True in Hb by done.
      by injection Hb as <-.
    + apply Hout. intros t Ht [Hact Heq]. lia.
Qed.

(** X10 — the frame of the merge. The launch writes the slots of the
    end-of-sequence ids in the first [batch_beam_size] rows and nothing
    else: the score of every other token of these rows, and the cells after
    the rows, are as they were, and the buffer keeps its length. *)
Theorem merge_eos_frame (stream : cudaStream_t) (batch_logits : list float)
    (batch_beam_size vocab_size : Z) (eos_token_ids : list Z) :
  (∀ e, e ∈ eos_token_ids → 0 ≤ e < vocab_size) →
  eos_token_ids ≠ [] →
  0 ≤ batch_beam_size ≤ INT_MAX - 255 →
  batch_beam_size * vocab_size ≤ INT_MAX →
  batch_beam_size * vocab_size ≤ Z.of_nat (length batch_logits) →
  ∃ logits',
    LaunchHandleEOSArray batch_logits batch_beam_size vocab_size eos_token_ids
      (Z.of_nat (length eos_token_ids)) stream = Some logits' ∧
    length logits' = length batch_logits ∧
    (∀ r v, 0 ≤ r < batch_beam_size → 0 ≤ v < vocab_size →
       v ∉ eos_token_ids →
       logits' !! Z.to_nat (r * vocab_size + v)
       = batch_logits !! Z.to_nat (r * vocab_size + v)) ∧
    (∀ k : nat, batch_beam_size * vocab_size ≤ Z.of_nat k →
       logits' !! k = batch_logits !! k).
Proof.
  intros Hrange Hne Hbbs Hsize Hlen.
  destruct (LaunchHandleEOSArray_repeated_lookup stream batch_logits
              batch_beam_size vocab_size eos_token_ids)
    as (logits' & Hrun & Hlen' & Hlook); [done..|].
  destruct eos_token_ids as [|e0 rest] eqn:Heos; [done|].
  assert (0 ≤ e0 < vocab_size) as He0 by (apply Hrange; by left).
  exists logits'. split_and!; [done..| |].
  - intros r v Hr Hv Hnotin.
    destruct (logits_cell r v batch_beam_size vocab_size) as [? Hd]; [done..|].
    rewrite Hlook, Z2Nat.id, Hd by lia. rewrite decide_True by lia.
    rewrite lookup_merged_row.
    2:{ intros e He%Hrange.
        destruct (logits_cell r e batch_beam_size vocab_size) as [? _]; [done..|].
        lia. }
    rewrite Z2Nat.id by lia.
    replace (r * vocab_size + v - r * vocab_size) with v by lia.
    rewrite decide_False by (intros ->; apply Hnotin; by left).
    rewrite decide_False by (intros ?; apply Hnotin; by right). done.
  - intros k Hk. rewrite Hlook. rewrite decide_False; [done|].
    pose proof (Z.div_mod (Z.of_nat k) vocab_size ltac:(lia)).
    pose proof (Z.mod_pos_bound (Z.of_nat k) vocab_size ltac:(lia)). nia.
Qed.

Lemma merge_eos_frame_witness :
  ∃ logits',
    LaunchHandleEOSArray
      (eos_example_row float_two float_five ++ [float_five]) 1 10 [7; 9] 2
      reversed = Some logits' ∧
    length logits'
    = length (eos_example_row float_two float_five ++ [float_five]) ∧
    logits' !! Z.to_nat (0 * 10 + 8)
    = (eos_example_row float_two float_five ++ [float_five])
        !! Z.to_nat (0 * 10 + 8) ∧
    logits' !! 10%nat
    = (eos_example_row float_two float_five ++ [float_five]) !! 10%nat.
Proof.
  destruct (merge_eos_frame reversed
              (eos_example_row float_two float_five ++ [float_five]) 1 10 [7; 9])
    as (logits' & Hrun & Hlen & Hin & Hout).
  - intros e [->|[->|[]%elem_of_nil]%elem_of_cons]%elem_of_cons; lia.
  - done.
  - rewrite INT_MAX_eq. lia.
  - rewrite INT_MAX_eq. lia.
  - simpl. lia.
  - exists logits'. split_and!; [done..| |].
    + apply Hin; [lia..|].
      intros [[=]|[[=]|[]%elem_of_nil]%elem_of_cons]%elem_of_cons.
    + apply Hout. lia.
Defined.

(** X11 — the merge leaves usable scores. After the launch no slot of an
    end-of-sequence id holds a NaN, the negative infinity or any value
    below [lowest()], whatever the scores were: a NaN never wins a
    [std::max], and the maximum starts from [lowest()]. *)
Theorem merge_eos_sanitized (stream : cudaStream_t) (batch_logits : list float)
    (batch_beam_size vocab_size : Z) (eos_token_ids : list Z) :
  (∀ e, e ∈ eos_token_ids → 0 ≤ e < vocab_size) →
  eos_token_ids ≠ [] →
  0 ≤ batch_beam_size ≤ INT_MAX - 255 →
  batch_beam_size * vocab_size ≤ INT_MAX →
  batch_beam_size * vocab_size ≤ Z.of_nat (length batch_logits) →
  ∃ logits',
    LaunchHandleEOSArray batch_logits batch_beam_size vocab_size eos_token_ids
      (Z.of_nat (length eos_token_ids)) stream = Some logits' ∧
    ∀ r e, 0 ≤ r < batch_beam_size → e ∈ eos_token_ids →
      ∃ s, logits' !! Z.to_nat (r * vocab_size + e) = Some s ∧
           s ≠ S754_nan ∧ s ≠ float_neg_infinity ∧
           SFltb s float_lowest = false.
Proof.
  intros Hrange Hne Hbbs Hsize Hlen.
  destruct (LaunchHandleEOSArray_repeated_lookup stream batch_logits
              batch_beam_size vocab_size eos_token_ids)
    as (logits' & Hrun & Hlen' & Hlook); [done..|].
  exists logits'. split; [done|]. intros r e Hr He.
  destruct eos_token_ids as [|e0 rest] eqn:Heos; [done|].
  destruct (logits_cell r e batch_beam_size vocab_size) as [? Hd];
    [done|by apply Hrange|].
  rewrite Hlook, Z2Nat.id, Hd by lia. rewrite decide_True by lia.
  rewrite lookup_merged_row.
  2:{ intros e' He'%Hrange.
      destruct (logits_cell r e' batch_beam_size vocab_size) as [? _]; [done..|].
      lia. }
  rewrite Z2Nat.id by lia.
  replace (r * vocab_size + e - r * vocab_size) with e by lia.
  assert (∀ s, s ≠ S754_nan → SFltb s float_lowest = false →
            s ≠ float_neg_infinity) as Hinf.
  { intros s _ Hs ->. by vm_compute in Hs. }
  case_decide as He0.
  - destruct (foldl_float_max_spec float_lowest
                (row_scores batch_logits (r * vocab_size) (e0 :: rest)))
      as (Hnan & _ & Hge & _); [done|].
    eexists. split; [done|]. split_and!; [done| |done]. by apply Hinf.
  - rewrite decide_True by (by apply elem_of_cons in He as [?|?]).
    exists float_lowest. split_and!; done.
Qed.

Lemma merge_eos_sanitized_witness :
  ∃ logits',
    LaunchHandleEOSArray (eos_example_row S754_nan float_neg_infinity) 1 10
      [7; 9] 2 reversed = Some logits' ∧
    ∀ r e, 0 ≤ r < 1 → e ∈ [7; 9] →
      ∃ s, logits' !! Z.to_nat (r * 10 + e) = Some s ∧
           s ≠ S754_nan ∧ s ≠ float_neg_infinity ∧
           SFltb s float_lowest = false.
Proof.
  apply (merge_eos_sanitized reversed
           (eos_example_row S754_nan float_neg_infinity) 1 10 [7; 9]).
  - intros e [->|[->|[]%elem_of_nil]%elem_of_cons]%elem_of_cons; lia.
  - done.
  - rewrite INT_MAX_eq. lia.
  - rewrite INT_MAX_eq. lia.
  - simpl. lia.
Defined.

(** X12 — the merge with repeated ids. The ids need not be distinct: the
    slot of an id that the loop meets again holds [lowest()], which leaves
    the maximum as it is. For every row, the slot of the first id holds the
    maximum of [lowest()] and the scores the row had at the ids, and the
    slot of every id other than the first one holds [lowest()]. *)
Theorem merge_eos_repeated_ids (stream : cudaStream_t)
    (batch_logits : list float) (batch_beam_size vocab_size : Z)
    (eos_token_ids : list Z) :
  (∀ e, e ∈ eos_token_ids → 0 ≤ e < vocab_size) →
  eos_token_ids ≠ [] →
  0 ≤ batch_beam_size ≤ INT_MAX - 255 →
  batch_beam_size * vocab_size ≤ INT_MAX →
  batch_beam_size * vocab_size ≤ Z.of_nat (length batch_logits) →
  ∃ logits',
    LaunchHandleEOSArray batch_logits batch_beam_size vocab_size eos_token_ids
      (Z.of_nat (length eos_token_ids)) stream = Some logits' ∧
    ∀ r e0 rest, 0 ≤ r < batch_beam_size → eos_token_ids = e0 :: rest →
      let scores := row_scores batch_logits (r * vocab_size) eos_token_ids in
      let M := running_max scores in
      Forall2 (λ e s, batch_logits !! Z.to_nat (r * vocab_size + e) = Some s)
              eos_token_ids scores ∧
      logits' !! Z.to_nat (r * vocab_size + e0) = Some M ∧
      (M = float_lowest ∨ M ∈ scores) ∧
      (∀ s, s ∈ scores → SFltb M s = false) ∧
      (∀ e, e ∈ rest → e ≠ e0 →
         logits' !! Z.to_nat (r * vocab_size + e) = Some float_lowest).
Proof.
  intros Hrange Hne Hbbs Hsize Hlen.
  destruct (LaunchHandleEOSArray_repeated_lookup stream batch_logits
              batch_beam_size vocab_size eos_token_ids)
    as (logits' & Hrun & _ & Hlook); [done..|].
  exists logits'. split; [done|]. intros r e0 rest Hr Heos. simpl.
  assert (∀ e, e ∈ eos_token_ids →
            0 ≤ r * vocab_size + e < Z.of_nat (length batch_logits) ∧
            (r * vocab_size + e) `div` vocab_size = r) as Hrow.
  { intros e He%Hrange.
    destruct (logits_cell r e batch_beam_size vocab_size) as [? ?]; [lia..|].
    lia. }
  destruct (running_max_spec
              (row_scores batch_logits (r * vocab_size) eos_token_ids))
    as (Hin & _ & Hall & _).
  assert (∀ e, e ∈ eos_token_ids →
            logits' !! Z.to_nat (r * vocab_size + e)
            = merged_row (r * vocab_size) (e0 :: rest) batch_logits
                !! Z.to_nat (r * vocab_size + e)) as Hmerged.
  { intros e He. destruct (Hrow e He) as [? Hd].
    rewrite Hlook, Z2Nat.id, Hd by lia. rewrite decide_True by lia.
    by rewrite Heos. }
  split_and!; [| |done|done|].
  - unfold row_scores. apply Forall2_fmap_r, Forall_Forall2_diag, Forall_forall.
    intros e He. destruct (Hrow e He) as [? _]. unfold compose.
    destruct (lookup_lt_is_Some_2 batch_logits (Z.to_nat (r * vocab_size + e)))
      as [s ->]; [lia|done].
  - rewrite Hmerged by (rewrite Heos; by left).
    rewrite lookup_merged_row by (intros e He; rewrite <- Heos in He; by apply Hrow).
    rewrite decide_True; [by rewrite Heos|].
    destruct (Hrow e0) as [? _]; [rewrite Heos; by left|]. lia.
  - intros e He Hne0. assert (e ∈ eos_token_ids) as He' by (rewrite Heos; by right).
    destruct (Hrow e He') as [? _].
    rewrite Hmerged by done.
    rewrite lookup_merged_row by (intros e' He''; rewrite <- Heos in He''; by apply Hrow).
    rewrite decide_False by lia.
    rewrite decide_True; [done|]. rewrite Z2Nat.id by lia.
    by replace (r * vocab_size + e - r * vocab_size) with e by lia.
Qed.

Lemma merge_eos_repeated_ids_witness :
  ∃ logits',
    LaunchHandleEOSArray (eos_example_row float_two float_five) 1 10
      [7; 9; 7; 9] 4 reversed = Some logits' ∧
    logits' !! Z.to_nat (0 * 10 + 7) = Some float_five ∧
    logits' !! Z.to_nat (0 * 10 + 9) = Some float_lowest.
Proof.
  destruct (merge_eos_repeated_ids reversed
              (eos_example_row float_two float_five) 1 10 [7; 9; 7; 9])
    as (logits' & Hrun & Hrows).
  - intros e He. repeat (apply elem_of_cons in He as [->|He]; [lia|]).
    by apply elem_of_nil in He.
  - done.
  - rewrite INT_MAX_eq. lia.
  - rewrite INT_MAX_eq. lia.
  - simpl. lia.
  - exists logits'. split; [exact Hrun|].
    destruct (Hrows 0 7 [9; 7; 9]) as (_ & H7 & _ & _ & H9); [lia|done|].
    split.
    + exact H7.
    + apply H9; [|lia]. by left.
Defined.

(** a number that is neither below nor above [lowest()] is [lowest()] *)
Lemma float_max_lowest M :
  M ≠ S754_nan → SFltb M float_lowest = false →
  float_max float_lowest M = M ∧ float_max M float_lowest = M.
Proof.
  intros Hnan Hge. unfold float_max. rewrite Hge. split; [|done].
  destruct (SFltb float_lowest M) eqn:Hlt; [done|].
  assert (¬ rank_lt (float_rank M) (float_rank float_lowest)) as H1.
  { intros H. by rewrite (proj2 (SFltb_rank M float_lowest)) in Hge. }
  assert (¬ rank_lt (float_rank float_lowest) (float_rank M)) as H2.
  { intros H. by rewrite (proj2 (SFltb_rank float_lowest M)) in Hlt. }
  unfold rank_lt, float_lowest in *.
  destruct M as [[]|[]| |[] m e]; simpl in H1, H2; try lia; try done.
  assert (e = 104) as -> by lia. f_equal. lia.
Qed.

(** the scores of the ids after the merge: the maximum, then [lowest()] *)
Lemma row_scores_merged_row l e0 rest buf :
  NoDup (e0 :: rest) →
  (∀ e, e ∈ e0 :: rest → 0 ≤ l + e < Z.of_nat (length buf)) →
  row_scores (merged_row l (e0 :: rest) buf) l (e0 :: rest)
  = running_max (row_scores buf l (e0 :: rest)) :: ((λ _, float_lowest) <$> rest).
Proof.
  intros [Hnotin Hnd]%NoDup_cons Hin. unfold row_scores at 1.
  rewrite fmap_cons. f_equal.
  - rewrite lookup_merged_row by done. rewrite decide_True; [done|].
    assert (0 ≤ l + e0) by (apply Hin; by left). lia.
  - apply list_fmap_ext. intros _ e He%list_elem_of_lookup_2.
    assert (0 ≤ l + e) by (apply Hin; by right).
    rewrite lookup_merged_row by done. rewrite Z2Nat.id by lia.
    replace (l + e - l) with e by lia.
    rewrite decide_False by (by intros ->). by rewrite decide_True.
Qed.

Lemma running_max_merged_row l e0 rest buf :
  NoDup (e0 :: rest) →
  (∀ e, e ∈ e0 :: rest → 0 ≤ l + e < Z.of_nat (length buf)) →
  running_max (row_scores (merged_row l (e0 :: rest) buf) l (e0 :: rest))
  = running_max (row_scores buf l (e0 :: rest)).
Proof.
  intros Hnd Hin. rewrite row_scores_merged_row by done.
  destruct (foldl_float_max_spec float_lowest
              (row_scores buf l (e0 :: rest))) as (Hnan & _ & Hge & _); [done|].
  fold (running_max (row_scores buf l (e0 :: rest))) in Hnan, Hge.
  set (M := running_max (row_scores buf l (e0 :: rest))) in *.
  destruct (float_max_lowest M Hnan Hge) as [Hl Hr].
  clearbody M. clear Hnd Hin. unfold running_max. simpl. rewrite Hl.
  induction rest as [|e rest IH]; [done|]. simpl. by rewrite Hr.
Qed.

(** X13 — the merge is idempotent. A second launch with the same ids, on
    the logits that the first one produced, returns them unchanged,
    whatever the orders of the threads: the maximum of the merged scores is
    the score of the first id again. *)
Theorem merge_eos_idempotent (stream1 stream2 : cudaStream_t)
    (batch_logits : list float) (batch_beam_size vocab_size : Z)
    (eos_token_ids : list Z) :
  NoDup eos_token_ids →
  (∀ e, e ∈ eos_token_ids → 0 ≤ e < vocab_size) →
  eos_token_ids ≠ [] →
  0 ≤ batch_beam_size ≤ INT_MAX - 255 →
  batch_beam_size * vocab_size ≤ INT_MAX →
  batch_beam_size * vocab_size ≤ Z.of_nat (length batch_logits) →
  ∃ logits',
    LaunchHandleEOSArray batch_logits batch_beam_size vocab_size eos_token_ids
      (Z.of_nat (length eos_token_ids)) stream1 = Some logits' ∧
    LaunchHandleEOSArray logits' batch_beam_size vocab_size eos_token_ids
      (Z.of_nat (length eos_token_ids)) stream2 = Some logits'.
Proof.
  intros Hnd Hrange Hne Hbbs Hsize Hlen.
  destruct (LaunchHandleEOSArray_lookup batch_beam_size vocab_size
              eos_token_ids Hnd Hrange (proj1 Hbbs) Hsize stream1 batch_logits)
    as (logits1 & Hrun1 & Hlen1 & Hlook1); [done|lia|done|].
  destruct (LaunchHandleEOSArray_lookup batch_beam_size vocab_size
              eos_token_ids Hnd Hrange (proj1 Hbbs) Hsize stream2 logits1)
    as (logits2 & Hrun2 & Hlen2 & Hlook2); [done|lia|lia|].
  exists logits1. split; [done|]. rewrite Hrun2. f_equal.
  apply list_eq. intros k. rewrite Hlook2. case_decide as Hrow; [|done].
  destruct eos_token_ids as [|e0 rest] eqn:Heos; [done|].
  assert (0 < vocab_size) by (specialize (Hrange e0 ltac:(by left)); lia).
  assert (0 ≤ Z.of_nat k `div` vocab_size) as Hr0 by (apply Z.div_pos; lia).
  set (r := Z.of_nat k `div` vocab_size) in *.
  assert (∀ (buf : list float), length buf = length batch_logits →
            ∀ e, e ∈ e0 :: rest →
              0 ≤ r * vocab_size + e < Z.of_nat (length buf)) as Hin.
  { intros buf Hbuf e He%Hrange.
    destruct (logits_cell r e batch_beam_size vocab_size) as [? _]; [done..|].
    lia. }
  assert (row_scores logits1 (r * vocab_size) (e0 :: rest)
          = row_scores (merged_row (r * vocab_size) (e0 :: rest) batch_logits)
              (r * vocab_size) (e0 :: rest)) as Hscores.
  { apply list_fmap_ext. intros _ e He%list_elem_of_lookup_2.
    destruct (logits_cell r e batch_beam_size vocab_size) as [? Hd];
      [lia|by apply Hrange|].
    rewrite Hlook1, Z2Nat.id, Hd by lia. by rewrite decide_True by lia. }
  rewrite lookup_merged_row by (by apply Hin).
  rewrite Hscores, running_max_merged_row by (done || by apply Hin).
  assert (logits1 !! k
          = merged_row (r * vocab_size) (e0 :: rest) batch_logits !! k) as ->.
  { rewrite Hlook1. fold r. by rewrite decide_True. }
  rewrite lookup_merged_row by (by apply Hin).
  by repeat case_decide.
Qed.

Lemma merge_eos_idempotent_witness :
  ∃ logits',
    LaunchHandleEOSArray (eos_example_row float_two float_five) 1 10 [7; 9] 2
      in_order = Some logits' ∧
    LaunchHandleEOSArray logits' 1 10 [7; 9] 2 reversed = Some logits'.
Proof.
  apply (merge_eos_idempotent in_order reversed
           (eos_example_row float_two float_five) 1 10 [7; 9]).
  - apply NoDup_cons. split; [|apply NoDup_singleton].
    by intros [=]%list_elem_of_singleton.
  - intros e [->|[->|[]%elem_of_nil]%elem_of_cons]%elem_of_cons; lia.
  - done.
  - rewrite INT_MAX_eq. lia.
  - rewrite INT_MAX_eq. lia.
  - simpl. lia.
Defined.

(** X14 — the merge without ids. With [eos_token_ids_count = 0] the loop
    of the kernel does nothing, but the store after the loop still happens:
    [eos_token_ids[0]] is read, outside of an empty array, and where the
    array has a first id the score of this id is replaced by [lowest()] in
    every row, all other scores being left as they were. *)
Theorem merge_eos_zero_count (stream : cudaStream_t) (batch_logits : list float)
    (batch_beam_size vocab_size : Z) (eos_token_ids : list Z) :
  1 ≤ batch_beam_size ≤ INT_MAX - 255 →
  batch_beam_size * vocab_size ≤ INT_MAX →
  batch_beam_size * vocab_size ≤ Z.of_nat (length batch_logits) →
  (eos_token_ids = [] →
   LaunchHandleEOSArray batch_logits batch_beam_size vocab_size eos_token_ids
     0 stream = None) ∧
  (∀ e0 rest, eos_token_ids = e0 :: rest → 0 ≤ e0 < vocab_size →
   ∃ logits',
     LaunchHandleEOSArray batch_logits batch_beam_size vocab_size
       eos_token_ids 0 stream = Some logits' ∧
     (∀ r, 0 ≤ r < batch_beam_size →
        logits' !! Z.to_nat (r * vocab_size + e0) = Some float_lowest) ∧
     (∀ k : nat,
        (∀ r, 0 ≤ r < batch_beam_size → Z.of_nat k ≠ r * vocab_size + e0) →
        logits' !! k = batch_logits !! k)).
Proof.
  intros Hbbs Hsize Hlen. unfold LaunchHandleEOSArray, launch.
  destruct (grid_256 batch_beam_size) as [-> Hg]; [lia|].
  change (dim3_1 256) with (Dim3 256 1 1).
  set (g := (batch_beam_size + 255) `div` 256) in *.
  set (ts := order stream 0 builtins (threads (Dim3 g 1 1) (Dim3 256 1 1))).
  assert (∀ t, t ∈ ts ↔ t ∈ threads (Dim3 g 1 1) (Dim3 256 1 1)) as Hts
    by (intros; apply elem_of_order).
  split.
  - intros ->. destruct (thread_1d_elem_of g 256 0) as [Hin_t Hgx]; [lia..|].
    apply (run_None _ (λ _, True) _ (thread_1d g 256 0));
      [by apply Hts|done|done|].
    intros s _. unfold HandleEOSArray.
    rewrite (global_x_int_1d g 256) by (done || lia). rewrite Hgx.
    rewrite decide_False by lia. done.
  - intros e0 rest -> He0. rewrite INT_MAX_eq in *.
    destruct (run_update
                (λ cu bl, HandleEOSArray cu bl batch_beam_size vocab_size
                            (e0 :: rest) 0)
                (length batch_logits)
                (λ t, bool_decide (global_x t < batch_beam_size))
                (λ t, global_x t * vocab_size + e0)
                (λ _ _, float_lowest) ts batch_logits)
      as (logits' & Hrun & Hlen' & Hin & Hout); [| | |done|].
    + apply NoDup_order, NoDup_threads.
    + apply Forall_forall. intros t Ht%Hts. unfold updates_cell.
      pose proof (elem_of_threads_1d _ _ _ Ht) as (_ & Hgx & _).
      unfold HandleEOSArray.
      rewrite (global_x_int_1d g 256) by (done || rewrite INT_MAX_eq; lia).
      case_bool_decide as Hact.
      * destruct (logits_cell (global_x t) e0 batch_beam_size vocab_size)
          as [? _]; [lia..|].
        split; [lia|]. intros buf v Hbuf _. rewrite decide_False by lia.
        assert (0 ≤ global_x t * vocab_size) by nia.
        change (seqZ 0 0) with (@nil Z). cbn [run]. rewrite option_bind_Some.
        cbn beta iota. rewrite load_lookup by lia.
        change ((e0 :: rest) !! Z.to_nat 0) with (Some e0).
        rewrite option_bind_Some. int_simpl. apply store_Some. lia.
      * intros buf _. by rewrite decide_True by lia.
    + intros t1 t2 Ht1%Hts Ht2%Hts _ _ Hoff.
      apply (thread_1d_inj g 256); [done..|]. nia.
    + exists logits'. split_and!; [done| |].
      * intros r Hr.
        destruct (thread_1d_elem_of g 256 r) as [Hin_t Hgx]; [lia..|].
        specialize (Hin _ (proj2 (Hts _) Hin_t)). rewrite Hgx in Hin.
        rewrite Hin by (apply bool_decide_eq_true; lia).
        destruct (logits_cell r e0 batch_beam_size vocab_size) as [? _]; [lia..|].
        destruct (lookup_lt_is_Some_2 batch_logits
                    (Z.to_nat (r * vocab_size + e0))) as [v ->]; [lia|done].
      * intros k Hk. apply Hout. intros t Ht%Hts Hact%bool_decide_eq_true Hoff.
        pose proof (elem_of_threads_1d _ _ _ Ht) as (_ & Hgx & _).
        destruct (logits_cell (global_x t) e0 batch_beam_size vocab_size)
          as [? _]; [lia..|].
        apply (Hk (global_x t)); lia.
Qed.

Lemma merge_eos_zero_count_witness :
  LaunchHandleEOSArray (eos_example_row float_two float_five) 1 10 [] 0
    in_order = None ∧
  ∃ logits',
    LaunchHandleEOSArray (eos_example_row float_two float_five) 1 10 [7; 9] 0
      in_order = Some logits' ∧
    logits' !! Z.to_nat (0 * 10 + 7) = Some float_lowest ∧
    logits' !! 9%nat = eos_example_row float_two float_five !! 9%nat.
Proof.
  split.
  - apply (merge_eos_zero_count in_order
             (eos_example_row float_two float_five) 1 10 []).
    + rewrite INT_MAX_eq. lia.
    + rewrite INT_MAX_eq. lia.
    + simpl. lia.
    + done.
  - destruct (merge_eos_zero_count in_order
                (eos_example_row float_two float_five) 1 10 [7; 9])
      as [_ Hsome].
    + rewrite INT_MAX_eq. lia.
    + rewrite INT_MAX_eq. lia.
    + simpl. lia.
    + destruct (Hsome 7 [9]) as (logits' & Hrun & Hin & Hout); [done|lia|].
      exists logits'. split_and!; [done| |].
      * apply Hin. lia.
      * apply Hout. intros r Hr. lia.
Defined.

(** X15 — a single end-of-sequence id. With one id there is nothing to
    merge: where the score of the id is a number not below [lowest()] in
    every row (any finite score, or the positive infinity), the launch
    returns the logits as they were. *)
Theorem merge_eos_single_id (stream : cudaStream_t) (batch_logits : list float)
    (batch_beam_size vocab_size e0 : Z) :
  0 ≤ e0 < vocab_size →
  0 ≤ batch_beam_size ≤ INT_MAX - 255 →
  batch_beam_size * vocab_size ≤ INT_MAX →
  batch_beam_size * vocab_size ≤ Z.of_nat (length batch_logits) →
  (∀ r s, 0 ≤ r < batch_beam_size →
     batch_logits !! Z.to_nat (r * vocab_size + e0) = Some s →
     SFleb float_lowest s = true) →
  LaunchHandleEOSArray batch_logits batch_beam_size vocab_size [e0] 1 stream
  = Some batch_logits.
Proof.
  intros He0 Hbbs Hsize Hlen Hscore.
  destruct (LaunchHandleEOSArray_repeated_lookup stream batch_logits
              batch_beam_size vocab_size [e0])
    as (logits' & Hrun & Hlen' & Hlook); [done| |done..|].
  { by intros e ->%list_elem_of_singleton. }
  change (Z.of_nat (length [e0])) with 1 in Hrun. rewrite Hrun. f_equal.
  apply list_eq. intros k. rewrite Hlook. case_decide as Hrow; [|done].
  assert (0 ≤ Z.of_nat k `div` vocab_size) as Hr0 by (apply Z.div_pos; lia).
  set (r := Z.of_nat k `div` vocab_size) in *.
  clearbody r.
  destruct (logits_cell r e0 batch_beam_size vocab_size) as [? _]; [done..|].
  rewrite lookup_merged_row.
  2:{ intros e ->%list_elem_of_singleton. lia. }
  case_decide as Hk.
  - assert (k = Z.to_nat (r * vocab_size + e0)) as -> by lia.
    destruct (lookup_lt_is_Some_2 batch_logits (Z.to_nat (r * vocab_size + e0)))
      as [s Hs]; [lia|].
    rewrite Hs. f_equal. unfold running_max, row_scores. simpl. rewrite Hs.
    simpl. specialize (Hscore r s ltac:(lia) Hs).
    unfold float_max, SFltb. unfold SFleb in Hscore.
    destruct (SFcompare float_lowest s) as [[]|] eqn:E; try done.
    symmetry. by apply float_lowest_eq.
  - rewrite decide_False; [done|]. by intros ?%elem_of_nil.
Qed.

Lemma merge_eos_single_id_witness :
  LaunchHandleEOSArray (eos_example_row float_two float_five) 1 10 [9] 1
    reversed = Some (eos_example_row float_two float_five).
Proof.
  apply merge_eos_single_id.
  - lia.
  - rewrite INT_MAX_eq. lia.
  - rewrite INT_MAX_eq. lia.
  - simpl. lia.
  - intros r s Hr. assert (r = 0) as -> by lia. by intros [= <-].
Defined.

(** ** Beam cache indirection *)

(** X16 — the tables hold beam indices. Where every entry of the source
    table and of the target table is a beam index, from 0 to
    [beam_width - 1], so is every entry of the target table after the
    launch: the kernel writes 0, the index of a beam, or an entry of the
    source table. The target of one step can thus be the source of the
    next. *)
Theorem update_indirection_valid_beams (stream : cudaStream_t)
    (mem : indirection)
    (batch_size beam_width input_seq_length max_seq_length current_length : Z) :
  0 ≤ batch_size → 0 < beam_width →
  1 ≤ current_length ≤ max_seq_length →
  max_seq_length ≤ INT_MAX - 31 →
  batch_size * beam_width * max_seq_length ≤ INT_MAX →
  batch_size * beam_width * max_seq_length
    ≤ Z.of_nat (length mem.(tgt_indir_cache)) →
  batch_size * beam_width * max_seq_length
    ≤ Z.of_nat (length mem.(src_indir_cache)) →
  batch_size * beam_width ≤ Z.of_nat (length mem.(beam_ids)) →
  (∀ (k : nat) beam, Z.of_nat k < batch_size * beam_width →
     mem.(beam_ids) !! k = Some beam → 0 ≤ beam) →
  Forall (λ v, 0 ≤ v < beam_width) mem.(src_indir_cache) →
  Forall (λ v, 0 ≤ v < beam_width) mem.(tgt_indir_cache) →
  ∃ mem',
    UpdateDecoderMaskedMultiHeadAttentionCacheIndirection mem batch_size
      beam_width input_seq_length max_seq_length current_length stream
    = Some mem' ∧
    Forall (λ v, 0 ≤ v < beam_width) mem'.(tgt_indir_cache).
Proof.
  intros HB HW Hcl Hml Hsize Htgt Hsrc Hbeam Hids Hvsrc Hvtgt.
  destruct (UpdateIndirection_lookup stream batch_size beam_width
              input_seq_length max_seq_length current_length
              HB HW Hcl Hml Hsize mem Htgt Hsrc Hbeam Hids)
    as (tgt' & Hrun & Hlen & Hlook).
  exists (set_tgt mem tgt'). split; [done|]. simpl.
  apply Forall_lookup. intros k v. rewrite Hlook. simpl.
  case_decide as Hin.
  - intros [= <-]. unfold indirection_value. repeat case_decide.
    + lia.
    + apply Z.mod_pos_bound. lia.
    + match goal with |- context [default 0 ?o] => destruct o as [s|] eqn:Es end.
      * simpl. by apply (Forall_lookup_1 _ _ _ _ Hvsrc Es).
      * simpl. lia.
  - intros Hv. by apply (Forall_lookup_1 _ _ _ _ Hvtgt Hv).
Qed.

Lemma update_indirection_valid_beams_witness :
  ∃ mem',
    UpdateDecoderMaskedMultiHeadAttentionCacheIndirection
      (Indirection (replicate 12 1)
                   [0; 1; 0; 1; 1; 0; 1; 1; 0; 0; 1; 0] [1; 0])
      1 2 3 6 5 reversed = Some mem' ∧
    Forall (λ v, 0 ≤ v < 2) (tgt_indir_cache mem').
Proof.
  apply (update_indirection_valid_beams reversed
           (Indirection (replicate 12 1)
                        [0; 1; 0; 1; 1; 0; 1; 1; 0; 0; 1; 0] [1; 0])
           1 2 3 6 5).
  - lia.
  - lia.
  - lia.
  - rewrite INT_MAX_eq. lia.
  - rewrite INT_MAX_eq. lia.
  - simpl. lia.
  - simpl. lia.
  - simpl. lia.
  - intros [|[|k]] beam Hk; simpl; intros [= <-] || lia; lia.
  - simpl. repeat constructor; lia.
  - simpl. repeat constructor; lia.
Defined.

(** X17 — the update can be repeated. The kernel reads the source table and
    the beam ids and never the target table: a second launch with the same
    arguments, on the tables that the first one left, leaves them as they
    are, whatever the orders of the threads. *)
Theorem update_indirection_idempotent (stream1 stream2 : cudaStream_t)
    (mem : indirection)
    (batch_size beam_width input_seq_length max_seq_length current_length : Z) :
  0 ≤ batch_size → 0 < beam_width →
  1 ≤ current_length ≤ max_seq_length →
  max_seq_length ≤ INT_MAX - 31 →
  batch_size * beam_width * max_seq_length ≤ INT_MAX →
  batch_size * beam_width * max_seq_length
    ≤ Z.of_nat (length mem.(tgt_indir_cache)) →
  batch_size * beam_width * max_seq_length
    ≤ Z.of_nat (length mem.(src_indir_cache)) →
  batch_size * beam_width ≤ Z.of_nat (length mem.(beam_ids)) →
  (∀ (k : nat) beam, Z.of_nat k < batch_size * beam_width →
     mem.(beam_ids) !! k = Some beam → 0 ≤ beam) →
  ∃ mem',
    UpdateDecoderMaskedMultiHeadAttentionCacheIndirection mem batch_size
      beam_width input_seq_length max_seq_length current_length stream1
    = Some mem' ∧
    UpdateDecoderMaskedMultiHeadAttentionCacheIndirection mem' batch_size
      beam_width input_seq_length max_seq_length current_length stream2
    = Some mem'.
Proof.
  intros HB HW Hcl Hml Hsize Htgt Hsrc Hbeam Hids.
  destruct (UpdateIndirection_lookup stream1 batch_size beam_width
              input_seq_length max_seq_length current_length
              HB HW Hcl Hml Hsize mem Htgt Hsrc Hbeam Hids)
    as (tgt1 & Hrun1 & Hlen1 & Hlook1).
  destruct (UpdateIndirection_lookup stream2 batch_size beam_width
              input_seq_length max_seq_length current_length
              HB HW Hcl Hml Hsize (set_tgt mem tgt1))
    as (tgt2 & Hrun2 & Hlen2 & Hlook2); [simpl; lia|done..|].
  exists (set_tgt mem tgt1). split; [done|]. rewrite Hrun2.
  unfold set_tgt. simpl. do 2 f_equal.
  apply list_eq. intros k. rewrite Hlook2. simpl. rewrite Hlook1. simpl.
  by case_decide.
Qed.

Lemma update_indirection_idempotent_witness :
  ∃ mem',
    UpdateDecoderMaskedMultiHeadAttentionCacheIndirection
      (Indirection (replicate 12 9)
                   [10; 11; 12; 13; 14; 15; 20; 21; 22; 23; 24; 25] [1; 1])
      1 2 3 6 5 in_order = Some mem' ∧
    UpdateDecoderMaskedMultiHeadAttentionCacheIndirection mem'
      1 2 3 6 5 reversed = Some mem'.
Proof.
  apply (update_indirection_idempotent in_order reversed
           (Indirection (replicate 12 9)
                        [10; 11; 12; 13; 14; 15; 20; 21; 22; 23; 24; 25] [1; 1])
           1 2 3 6 5).
  - lia.
  - lia.
  - lia.
  - rewrite INT_MAX_eq. lia.
  - rewrite INT_MAX_eq. lia.
  - simpl. lia.
  - simpl. lia.
  - simpl. lia.
  - intros [|[|k]] beam Hk; simpl; intros [= <-] || lia; lia.
Defined.

(** ** Past-state cache *)

(** X18 — the transform on the whole buffer. For a chunk width of 4 or 8
    and at most 32 chunks per head, the output of the launcher is the
    cache with the time-step axis and the chunk axis swapped, followed by
    the cells that the output buffer had after the cache: the result does
    not depend on the order of the blocks and of the threads, and nothing
    is written outside of the cache. *)
Theorem reorder_past_states_whole (stream : cudaStream_t)
    (out_buffer in_buffer : list float4)
    (batch_size num_heads max_length head_size chunk_size : Z) :
  chunk_size = 4 ∨ chunk_size = 8 →
  0 ≤ head_size →
  let H2 := head_size `div` chunk_size in
  let total := batch_size * num_heads * max_length * H2 in
  H2 ≤ kTileSize →
  0 ≤ batch_size ≤ INT_MAX → 0 ≤ num_heads ≤ INT_MAX →
  0 ≤ max_length ≤ INT_MAX - 31 →
  total ≤ INT_MAX →
  total ≤ Z.of_nat (length in_buffer) →
  total ≤ Z.of_nat (length out_buffer) →
  ∃ swapped,
    axis_swap batch_size num_heads max_length H2 in_buffer = Some swapped ∧
    ReorderPastStatesKernelLauncher out_buffer in_buffer batch_size num_heads
      max_length head_size chunk_size stream
    = Some (swapped ++ drop (Z.to_nat total) out_buffer).
Proof.
  intros Hchunk Hhead H2 total HH2 HB HN HL Htotal Hin_len Hout_len.
  assert (0 < chunk_size) as Hpos by lia.
  assert (0 ≤ H2) as HH2' by (apply Z.div_pos; lia).
  unfold ReorderPastStatesKernelLauncher.
  rewrite div32_nonneg, option_bind_Some by lia. fold H2.
  rewrite decide_True by done.
  unfold kTileSize in HH2.
  destruct (reorder_grid max_length) as [Hgrid Hgx];
    [rewrite INT_MAX_eq in HL; lia|].
  unfold dim3_3, dim3_2. rewrite Hgrid.
  rewrite (u32_small num_heads), (u32_small batch_size), (u32_small H2)
    by (rewrite INT_MAX_eq in *; lia).
  change (u32 kSeqTileSize) with 16.
  destruct (launch_sync_reorder in_buffer batch_size num_heads max_length H2
              HB HN HL (conj HH2' HH2) Htotal Hin_len stream
              ((max_length + 15) `div` 16) out_buffer Hgx Hout_len)
    as (out' & Hrun & Hlen & Hmoved & Hframe).
  rewrite Hrun. exists (take (Z.to_nat total) out').
  assert (0 ≤ total) as Htot0.
  { unfold total. repeat apply Z.mul_nonneg_nonneg; lia. }
  split.
  - unfold axis_swap. fold total. apply mapM_Some.
    apply Forall2_same_length_lookup.
    split; [rewrite length_seqZ, length_take; lia|].
    intros i k v Hk Hv. apply lookup_seqZ in Hk as [-> Hi].
    apply lookup_take_Some in Hv as [Hv _]. rewrite Z.add_0_l. cbv zeta.
    assert (0 < H2 ∧ 0 < max_length ∧ 0 < num_heads) as (? & ? & ?).
    { unfold total in Hi. nia. }
    set (t := Z.of_nat i `mod` max_length).
    set (q := Z.of_nat i `div` max_length).
    set (c := q `mod` H2). set (bn := q `div` H2).
    pose proof (Z.div_mod (Z.of_nat i) max_length ltac:(lia)) as E1.
    pose proof (Z.mod_pos_bound (Z.of_nat i) max_length ltac:(lia)) as B1.
    pose proof (Z.div_mod q H2 ltac:(lia)) as E2.
    pose proof (Z.mod_pos_bound q H2 ltac:(lia)) as B2.
    pose proof (Z.div_mod bn num_heads ltac:(lia)) as E3.
    pose proof (Z.mod_pos_bound bn num_heads ltac:(lia)) as B3.
    fold t q in E1, B1. fold c bn in E2, B2.
    assert (0 ≤ q) by (apply Z.div_pos; lia).
    assert (0 ≤ bn) by (apply Z.div_pos; lia).
    assert (0 ≤ bn `div` num_heads) by (apply Z.div_pos; lia).
    assert (q < batch_size * num_heads * H2)
      by (apply Z.div_lt_upper_bound; unfold total in Hi; lia).
    assert (bn < batch_size * num_heads)
      by (apply Z.div_lt_upper_bound; lia).
    assert (bn `div` num_heads < batch_size)
      by (apply Z.div_lt_upper_bound; lia).
    destruct (head_offsets batch_size num_heads max_length H2
                (bn `div` num_heads) (bn `mod` num_heads) c t Htotal)
      as (_ & _ & _ & ? & _ & ? & ? & ? & ? & ?); [lia..|].
    pose proof (Hmoved (bn `div` num_heads) (bn `mod` num_heads) c t
                  ltac:(lia) ltac:(lia) ltac:(lia) ltac:(lia)) as Hsame.
    unfold head_base in *.
    replace (bn `div` num_heads * num_heads + bn `mod` num_heads)
      with bn in * by lia.
    replace (bn * max_length * H2 + c * max_length + t)
      with (Z.of_nat i) in Hsame by lia.
    rewrite Nat2Z.id in Hsame.
    replace ((bn * max_length + t) * H2 + c)
      with (bn * max_length * H2 + t * H2 + c) by lia.
    rewrite load_lookup by lia. by rewrite <- Hsame.
  - f_equal. rewrite <- (take_drop (Z.to_nat total) out') at 1. f_equal.
    apply list_eq. intros k. rewrite !lookup_drop. apply Hframe.
    intros b n c t Hb Hn Hc Ht.
    destruct (head_offsets batch_size num_heads max_length H2 b n c t Htotal)
      as (_ & _ & _ & ? & _ & ? & _ & _ & ? & ?); [lia..|].
    unfold total. lia.
Qed.

Lemma reorder_past_states_whole_witness :
  ∃ swapped,
    axis_swap 1 1 17 (8 `div` 4) (chunk_of <$> seqZ 0 34) = Some swapped ∧
    ReorderPastStatesKernelLauncher (replicate 36 (chunk_of 0))
      (chunk_of <$> seqZ 0 34) 1 1 17 8 4 reversed
    = Some (swapped
            ++ drop (Z.to_nat (1 * 1 * 17 * (8 `div` 4)))
                 (replicate 36 (chunk_of 0))).
Proof.
  apply (reorder_past_states_whole reversed (replicate 36 (chunk_of 0))
           (chunk_of <$> seqZ 0 34) 1 1 17 8 4).
  - by left.
  - lia.
  - by vm_compute.
  - rewrite INT_MAX_eq. lia.
  - rewrite INT_MAX_eq. lia.
  - rewrite INT_MAX_eq. lia.
  - rewrite INT_MAX_eq. by vm_compute.
  - by vm_compute.
  - by vm_compute.
Defined.



(** ** Empty launches *)


